(** * CLTE evaluation harness: extraction, scoring and the resumable loops

    A shallow embedding of [utils/metrics.py], [tasks/task1_evaluator.py] and
    [tasks/task3_evaluator.py] (the loop of [tasks/task2_evaluator.py] is the
    one of task1 with another prompt).

    - Python [str] values are lists of Unicode code points.
    - Python exceptions are the [Raise] results of the [res] monad; a
      [try/except Exception] is a [match] on the result.
    - The two regular-expression calls of the answer extractor and the three
      of the knowledge extractor run on a small backtracking matcher with the
      priorities of Python's [re] (ordered alternation, greedy and lazy
      repetition, capture groups, one lookahead).
    - Floats are idealised as rationals ([Q]): an accuracy is the exact ratio
      [correct / total]. *)

From Stdlib Require Import String Ascii.
From Stdlib Require Import List NArith ZArith QArith Bool Lia.
Import ListNotations.

Set Implicit Arguments.
Set Warnings "-register-all".

Local Open Scope N_scope.
Local Open Scope list_scope.

(** ** Text *)

Definition char := N.
Definition text := list char.

(** An ASCII literal as a text. *)
Definition py (s : string) : text := map N_of_ascii (list_ascii_of_string s).

Fixpoint text_eqb (a b : text) : bool :=
  match a, b with
  | [], [] => true
  | x :: a', y :: b' => (x =? y) && text_eqb a' b'
  | _, _ => false
  end.

(** Code points for which [str.isspace] holds; [str.strip()] and the regular
    expression class [\s] both use this set. *)
Definition is_space (c : char) : bool :=
  ((9 <=? c) && (c <=? 13)) || ((28 <=? c) && (c <=? 32))
  || (c =? 133) || (c =? 160) || (c =? 5760)
  || ((8192 <=? c) && (c <=? 8202))
  || (c =? 8232) || (c =? 8233) || (c =? 8239) || (c =? 8287) || (c =? 12288).

Definition mem_char (c : char) (cs : text) : bool := existsb (N.eqb c) cs.

Fixpoint drop_while (p : char -> bool) (s : text) : text :=
  match s with
  | [] => []
  | c :: s' => if p c then drop_while p s' else s
  end.

(** [s.lstrip(chars)] and [s.rstrip(chars)]: [chars] is a set of characters,
    and every leading (trailing) character of the set goes. *)
Definition lstrip_chars (cs s : text) : text := drop_while (fun c => mem_char c cs) s.
Definition rstrip_chars (cs s : text) : text := rev (lstrip_chars cs (rev s)).

(** [s.strip()] *)
Definition strip (s : text) : text :=
  rev (drop_while is_space (rev (drop_while is_space s))).

Fixpoint startswith (p s : text) : bool :=
  match p, s with
  | [], _ => true
  | _ :: _, [] => false
  | a :: p', b :: s' => (a =? b) && startswith p' s'
  end.

Definition endswith (p s : text) : bool := startswith (rev p) (rev s).

(** [s.find(sep)]: the index of the first occurrence. *)
Fixpoint find (sep s : text) : option nat :=
  if startswith sep s then Some O
  else match s with
       | [] => None
       | _ :: s' => option_map S (find sep s')
       end.

(** [sep in s] *)
Definition contains (sep s : text) : bool :=
  match find sep s with Some _ => true | None => false end.

(** [s.split(sep)] for a non-empty [sep]: cut at the first occurrence, go on
    after it.  The fuel is the length of [s]. *)
Fixpoint split_fuel (n : nat) (sep s : text) : list text :=
  match n with
  | O => [s]
  | S n' =>
      match find sep s with
      | None => [s]
      | Some i => firstn i s :: split_fuel n' sep (skipn (i + length sep) s)
      end
  end.

Definition split (sep s : text) : list text := split_fuel (length s) sep s.

(** ** Exceptions *)

Inductive exn : Type :=
| ValueError | KeyError | IndexError | AttributeError | TypeError
| JSONDecodeError | RuntimeError | ZeroDivisionError.

Inductive res (A : Type) : Type :=
| Ok (a : A)
| Raise (e : exn).

Arguments Ok {A} a.
Arguments Raise {A} e.

Definition bind {A B : Type} (m : res A) (f : A -> res B) : res B :=
  match m with
  | Ok a => f a
  | Raise e => Raise e
  end.

Notation "x <- m ;; k" := (bind m (fun x => k))
  (at level 61, m at next level, right associativity).

(** [xs[-1]] *)
Definition index_last {A : Type} (xs : list A) : res A :=
  match rev xs with
  | [] => Raise IndexError
  | x :: _ => Ok x
  end.

(** ** Regular expressions *)

(** The constructs the five patterns of [metrics.py] use.  [Rep] is the
    repetition of a one-character class, greedy or lazy; [StarG] is the greedy
    repetition of a compound body (the lookahead of the inline pattern);
    [Eos] is [$], the end of the text or the place before a final newline. *)
Inductive regex : Type :=
| Eps
| Chr (p : char -> bool)
| Cat (a b : regex)
| Alt (a b : regex)
| Opt (a : regex)
| Rep (greedy : bool) (p : char -> bool)
| StarG (a : regex)
| Grp (i : nat) (a : regex)
| Look (a : regex)
| Eos.

Definition caps := list (nat * text).

Definition orelse {A : Type} (x y : option A) : option A :=
  match x with
  | Some _ => x
  | None => y
  end.

Definition nonempty (s : text) : bool :=
  match s with [] => false | _ => true end.

(** Repetition of a one-character class in front of the continuation [k]:
    the greedy one takes as many characters as it can and gives them back one
    at a time, the lazy one tries [k] first and takes one more character when
    [k] fails. *)
Fixpoint rep_greedy {A : Type} (p : char -> bool) (k : text -> option A)
    (s : text) : option A :=
  match s with
  | x :: s' => if p x then orelse (rep_greedy p k s') (k s) else k s
  | [] => k s
  end.

Fixpoint rep_lazy {A : Type} (p : char -> bool) (k : text -> option A)
    (s : text) : option A :=
  orelse (k s)
    match s with
    | x :: s' => if p x then rep_lazy p k s' else None
    | [] => None
    end.

(** Backtracking matcher in continuation-passing style: [rmatch r s c k] tries
    the ways [r] can match a prefix of [s], in the order Python's engine tries
    them, and returns the first for which the continuation [k] succeeds on
    the rest of the text.  Every repeated body of the patterns below takes at
    least one character, which is what the loop of [StarG] asks of an
    iteration. *)
Fixpoint rmatch {A : Type} (r : regex) (s : text) (c : caps)
    (k : text -> caps -> option A) {struct r} : option A :=
  match r with
  | Eps => k s c
  | Chr p =>
      match s with
      | x :: s' => if p x then k s' c else None
      | [] => None
      end
  | Cat a b => rmatch a s c (fun s' c' => rmatch b s' c' k)
  | Alt a b => orelse (rmatch a s c k) (rmatch b s c k)
  | Opt a => orelse (rmatch a s c k) (k s c)
  | Rep true p => rep_greedy p (fun s' => k s' c) s
  | Rep false p => rep_lazy p (fun s' => k s' c) s
  | StarG a =>
      (fix loop (n : nat) (s : text) (c : caps) : option A :=
         match n with
         | O => k s c
         | S n' =>
             orelse
               (rmatch a s c (fun s' c' =>
                  if (length s' <? length s)%nat then loop n' s' c' else None))
               (k s c)
         end) (length s) s c
  | Grp i a =>
      rmatch a s c (fun s' c' =>
        k s' ((i, firstn (length s - length s') s) :: c'))
  | Look a =>
      match rmatch a s c (fun _ _ => Some tt) with
      | Some _ => k s c
      | None => None
      end
  | Eos =>
      match s with
      | [] => k s c
      | x :: s' => if (x =? 10) && negb (nonempty s') then k s c else None
      end
  end.

Fixpoint lit (s : text) : regex :=
  match s with
  | [] => Eps
  | x :: s' => Cat (Chr (N.eqb x)) (lit s')
  end.

(** The text of group [i], the empty text when the group took no part. *)
Fixpoint group (i : nat) (c : caps) : text :=
  match c with
  | [] => []
  | (j, t) :: c' => if Nat.eqb i j then t else group i c'
  end.

(** One match attempt at the head of [s]: the rest of the text and the
    captures. *)
Definition match_here (r : regex) (s : text) : option (text * caps) :=
  rmatch r s [] (fun s' c => Some (s', c)).

(** [re.findall]: leftmost matches, left to right, without overlap.  After a
    match the scan goes on where it ended (one character further after an
    empty match). *)
Fixpoint scan (n : nat) (r : regex) (s : text) : list caps :=
  match n with
  | O => []
  | S n' =>
      let next := match s with [] => [] | _ :: t => scan n' r t end in
      match match_here r s with
      | Some (s', c) =>
          c :: (if (length s' <? length s)%nat then scan n' r s' else next)
      | None => next
      end
  end.

Definition findall (r : regex) (s : text) : list caps := scan (S (length s)) r s.

(** [re.fullmatch] and [re.match] *)
Definition fullmatch (r : regex) (s : text) : option caps :=
  rmatch r s [] (fun s' c => match s' with [] => Some c | _ => None end).

Definition rmatch_prefix (r : regex) (s : text) : option caps :=
  rmatch r s [] (fun _ c => Some c).

(** Character classes *)
Definition any_char (_ : char) : bool := true.
Definition dot (c : char) : bool := negb (c =? 10).
Definition is_A_D (c : char) : bool := (65 <=? c) && (c <=? 68).
Definition dot_or_space (c : char) : bool := (c =? 46) || is_space c.
Definition not_rbrace (c : char) : bool := negb (c =? 125).
Definition not_quote (c : char) : bool := negb (c =? 34).

Definition chr (c : char) : regex := Chr (N.eqb c).
Definition ws : regex := Rep true is_space.

(** ** utils/metrics.py *)

Definition quote : text := [34].
Definition fence : text := py "```".
Definition fence_json : text := py "```json".
(** The literal ["knowledge":] with its two double quotes. *)
Definition knowledge_key : text := quote ++ py "knowledge" ++ quote ++ py ":".

(** *** extract_last_boxed_answer *)

(** The pattern of [re.findall], one alternative of its group 1 per
    definition (written here with blanks between the tokens):
    "\\boxed\{ ( A1 | A2 | A3 ) \}" with
    A1 = "\s* \\text\{ ( [^}]* ) \}",
    A2 = "\s* \{? ( [A-D] [\.\s] .*? \}? ) \}?",
    A3 = "\s* ( [A-D] ) \s*". *)
Definition boxed_alt_text : regex :=
  Cat ws (Cat (lit (py "\text{")) (Cat (Grp 2 (Rep true not_rbrace)) (chr 125))).

Definition boxed_alt_lettered : regex :=
  Cat ws (Cat (Opt (chr 123))
    (Cat (Grp 3 (Cat (Chr is_A_D) (Cat (Chr dot_or_space)
                   (Cat (Rep false dot) (Opt (chr 125))))))
         (Opt (chr 125)))).

Definition boxed_alt_bare : regex :=
  Cat ws (Cat (Grp 4 (Chr is_A_D)) ws).

Definition boxed_re : regex :=
  Cat (lit (py "\boxed{"))
    (Cat (Grp 1 (Alt boxed_alt_text (Alt boxed_alt_lettered boxed_alt_bare)))
         (chr 125)).

(** "[A-D]" for [re.fullmatch] and "^([A-D])[\.\s].*" for [re.match] (which
    anchors at the start of the text, so [^] adds nothing). *)
Definition letter_re : regex := Chr is_A_D.
Definition lettered_re : regex :=
  Cat (Grp 1 (Chr is_A_D)) (Cat (Chr dot_or_space) (Rep true dot)).

(** The body of the [for match in boxed_matches] loop: the content a match
    contributes, if any. *)
Definition match_content (m : caps) : option text :=
  let content :=
    if nonempty (group 2 m) then Some (group 2 m)
    else if nonempty (group 3 m) then Some (group 3 m)
    else if nonempty (group 4 m) then Some (group 4 m)
    else None in
  match content with
  | Some c => if nonempty (strip c) then Some (strip c) else None
  | None => None
  end.

Fixpoint extracted_options (ms : list caps) : list text :=
  match ms with
  | [] => []
  | m :: ms' =>
      match match_content m with
      | Some c => c :: extracted_options ms'
      | None => extracted_options ms'
      end
  end.

Definition label_of (last_boxed : text) : option text :=
  match fullmatch letter_re last_boxed with
  | Some _ => Some last_boxed
  | None =>
      match rmatch_prefix lettered_re last_boxed with
      | Some m => Some (group 1 m)
      | None => None
      end
  end.

Definition extract_last_boxed_answer (t : text) : res (option text) :=
  let boxed_matches := findall boxed_re t in
  let options := extracted_options boxed_matches in
  match options with
  | [] => Ok None
  | _ => last_boxed <- index_last options ;; Ok (label_of last_boxed)
  end.

(** ** Python values *)

(** The values a JSON document decodes to (booleans apart), which is what the
    samples, the result records and the score summaries are made of.  A
    [PDict] keeps its items in insertion order. *)
Inductive pyval : Type :=
| PNone
| PStr (s : text)
| PNum (q : Q)
| PList (l : list pyval)
| PDict (d : list (pyval * pyval)).

Definition dict := list (pyval * pyval).

Definition hashable (v : pyval) : bool :=
  match v with
  | PList _ | PDict _ => false
  | _ => true
  end.

(** Equality of two hashable keys. *)
Definition key_eqb (a b : pyval) : bool :=
  match a, b with
  | PNone, PNone => true
  | PStr x, PStr y => text_eqb x y
  | PNum x, PNum y => Qeq_bool x y
  | _, _ => false
  end.

Fixpoint dict_lookup (d : dict) (k : pyval) : option pyval :=
  match d with
  | [] => None
  | (k', v) :: d' => if key_eqb k k' then Some v else dict_lookup d' k
  end.

(** [k in d] *)
Definition dict_has (d : dict) (k : pyval) : bool :=
  match dict_lookup d k with Some _ => true | None => false end.

(** [d[k]] *)
Definition dict_get (d : dict) (k : pyval) : res pyval :=
  if hashable k then
    match dict_lookup d k with
    | Some v => Ok v
    | None => Raise KeyError
    end
  else Raise TypeError.

(** [d[k] = v]: an existing key keeps its place, a new one goes last. *)
Fixpoint dict_set (d : dict) (k v : pyval) : dict :=
  match d with
  | [] => [(k, v)]
  | (k', v') :: d' =>
      if key_eqb k k' then (k', v) :: d' else (k', v') :: dict_set d' k v
  end.

Definition key (s : string) : pyval := PStr (py s).

(** An extracted label as the value stored under ["prediction"]. *)
Definition of_label (o : option text) : pyval :=
  match o with
  | Some l => PStr l
  | None => PNone
  end.

(** [v[k]], [k in v], [v[k] = x], [v.append(x)], [v.items()] on a value.  The
    containers the aggregation code indexes by a key are dictionaries; on
    another kind of value the operation raises. *)
Definition py_getitem (v k : pyval) : res pyval :=
  match v with
  | PDict d => dict_get d k
  | _ => Raise TypeError
  end.

Definition py_contains (k v : pyval) : res bool :=
  match v with
  | PDict d => if hashable k then Ok (dict_has d k) else Raise TypeError
  | _ => Raise TypeError
  end.

Definition py_setitem (v k x : pyval) : res pyval :=
  match v with
  | PDict d => if hashable k then Ok (PDict (dict_set d k x)) else Raise TypeError
  | _ => Raise TypeError
  end.

Definition py_append (v x : pyval) : res pyval :=
  match v with
  | PList l => Ok (PList (l ++ [x]))
  | _ => Raise AttributeError
  end.

Definition py_items (v : pyval) : res dict :=
  match v with
  | PDict d => Ok d
  | _ => Raise AttributeError
  end.

Definition py_list (v : pyval) : res (list pyval) :=
  match v with
  | PList l => Ok l
  | _ => Raise TypeError
  end.

(** [{"answers": [], "predictions": []}] *)
Definition empty_bucket : pyval :=
  PDict [(key "answers", PList []); (key "predictions", PList [])].

(** [{"answers": [], "predictions": [], "sub_field": {}}] *)
Definition empty_field_entry : pyval :=
  PDict [(key "answers", PList []); (key "predictions", PList []);
         (key "sub_field", PDict [])].

Section Harness.

(** The collaborators the harness calls and does not define: Unicode
    upper-casing ([str.upper]), the JSON decoder and encoder, and the prompt
    templates of [utils/prompts.py] (string constants around the formatted
    arguments). *)
Variable upper : text -> text.
Variable json_loads : text -> res pyval.
Variable json_dumps : pyval -> text.
Variable build_task1_prompt : pyval -> pyval -> text.
Variable build_teacher_prompt : pyval -> pyval -> text * text.
Variable build_guided_student_prompt : pyval -> pyval -> text -> text * text.

(** *** extract_knowledge_from_text *)

Definition clean_fences (t : text) : text :=
  let cleaned_text :=
    if startswith fence_json t then lstrip_chars fence_json t else t in
  if endswith fence cleaned_text then rstrip_chars fence cleaned_text
  else cleaned_text.

(** [knowledge_data.get("knowledge", "")]: only a dictionary has [get]. *)
Definition get_knowledge (knowledge_data : pyval) : res pyval :=
  match knowledge_data with
  | PDict d =>
      Ok (match dict_lookup d (key "knowledge") with
          | Some v => v
          | None => PStr []
          end)
  | _ => Raise AttributeError
  end.

(** The [except Exception] branch. *)
Definition fallback_knowledge (cleaned_text : text) : res text :=
  knowledge <-
    (if contains knowledge_key cleaned_text
     then piece <- index_last (split knowledge_key cleaned_text) ;; Ok (strip piece)
     else Ok []) ;;
  let knowledge :=
    if startswith quote knowledge then lstrip_chars quote knowledge else knowledge in
  let knowledge :=
    if endswith quote knowledge then rstrip_chars quote knowledge else knowledge in
  Ok knowledge.

Definition extract_knowledge_from_text (t : text) : res pyval :=
  let cleaned_text := clean_fences t in
  match (knowledge_data <- json_loads cleaned_text ;; get_knowledge knowledge_data) with
  | Ok v => Ok v
  | Raise _ => knowledge <- fallback_knowledge cleaned_text ;; Ok (PStr knowledge)
  end.

(** *** extract_last_knowledge_object *)

(** Pattern 1, with [re.DOTALL]; group 1 is the object between the fences. *)
Definition pattern_codeblock : regex :=
  Cat (lit fence_json) (Cat ws
    (Cat (Grp 1 (Cat (chr 123) (Cat (Rep false any_char)
                  (Cat (lit knowledge_key) (Cat (Rep false any_char) (chr 125))))))
      (Cat ws (lit fence)))).

(** Pattern 2, with [re.DOTALL]; it has no group, [findall] returns the whole
    match (group 0 here). *)
Definition pattern_multiline : regex :=
  Grp 0 (Cat (chr 123) (Cat ws (Cat (lit knowledge_key)
           (Cat (Rep false any_char) (chr 125))))).

(** Pattern 3, without [re.DOTALL]: the object, then a lookahead for an even
    number of double quotes up to the end of the text. *)
Definition pattern_inline : regex :=
  Cat (Grp 0 (Cat (chr 123) (Cat (lit knowledge_key) (Cat (Rep false dot) (chr 125)))))
      (Look (Cat (StarG (Cat (Rep true not_quote) (Cat (chr 34)
                           (Cat (Rep true not_quote) (chr 34)))))
                 (Cat (Rep true not_quote) Eos))).

Definition extract_last_knowledge_object (t : text) : res pyval :=
  let codeblock_matches := map (group 1) (findall pattern_codeblock t) in
  match codeblock_matches with
  | _ :: _ =>
      m <- index_last codeblock_matches ;;
      extract_knowledge_from_text (fence_json ++ [10] ++ m ++ [10] ++ fence)
  | [] =>
      let multiline_matches := map (group 0) (findall pattern_multiline t) in
      match multiline_matches with
      | _ :: _ => m <- index_last multiline_matches ;; extract_knowledge_from_text m
      | [] =>
          let inline_matches := map (group 0) (findall pattern_inline t) in
          match inline_matches with
          | _ :: _ => m <- index_last inline_matches ;; extract_knowledge_from_text m
          | [] => Ok (PStr [])
          end
      end
  end.

(** *** calculate_accuracy *)

(** [v.upper()]: a string method. *)
Definition py_upper (v : pyval) : res text :=
  match v with
  | PStr s => Ok (upper s)
  | _ => Raise AttributeError
  end.

(** The [for pred, ans in zip(predictions, answers)] loop. *)
Fixpoint count_correct (pairs : list (pyval * pyval)) (correct : nat) : res nat :=
  match pairs with
  | [] => Ok correct
  | (pred, ans) :: rest =>
      match pred with
      | PNone => count_correct rest correct
      | _ =>
          p <- py_upper pred ;;
          a <- py_upper ans ;;
          count_correct rest (if text_eqb p a then S correct else correct)
      end
  end.

Definition calculate_accuracy (predictions answers : list pyval) : res Q :=
  if negb (length predictions =? length answers)%nat then Raise ValueError
  else
    correct <- count_correct (combine predictions answers) 0 ;;
    Ok (if (0 <? length predictions)%nat
        then Z.of_nat correct # Pos.of_nat (length predictions)
        else 0%Q).

(** ** tasks/task1_evaluator.py: calculate_field_accuracy *)

(** [v[k1]...[kn].append(x)]: the target of the call is evaluated first, then
    the argument [x]; the containers on the path are updated in place. *)
Fixpoint append_at (path : list pyval) (v : pyval) (x : res pyval) : res pyval :=
  match path with
  | [] =>
      match v with
      | PList l => a <- x ;; Ok (PList (l ++ [a]))
      | _ => Raise AttributeError
      end
  | k :: path' =>
      inner <- py_getitem v k ;;
      inner' <- append_at path' inner x ;;
      py_setitem v k inner'
  end.

(** One turn of [for item in results]: the state is [overall_data] and
    [field_data]. *)
Definition organise_item (item : dict) (st : pyval * pyval) : res (pyval * pyval) :=
  let (overall_data, field_data) := st in
  field <- dict_get item (key "field") ;;
  sub_field <- dict_get item (key "sub_field") ;;
  known <- py_contains field field_data ;;
  field_data <-
    (if known then Ok field_data
     else py_setitem field_data field empty_field_entry) ;;
  entry <- py_getitem field_data field ;;
  subs <- py_getitem entry (key "sub_field") ;;
  known_sub <- py_contains sub_field subs ;;
  field_data <-
    (if known_sub then Ok field_data
     else entry' <- py_setitem entry sub_field empty_bucket ;;
          py_setitem field_data field entry') ;;
  field_data <- append_at [field; sub_field; key "answers"] field_data
                  (dict_get item (key "answer")) ;;
  field_data <- append_at [field; sub_field; key "predictions"] field_data
                  (dict_get item (key "prediction")) ;;
  field_data <- append_at [field; key "answers"] field_data
                  (dict_get item (key "answer")) ;;
  field_data <- append_at [field; key "predictions"] field_data
                  (dict_get item (key "prediction")) ;;
  overall_data <- append_at [key "answers"] overall_data
                    (dict_get item (key "answer")) ;;
  overall_data <- append_at [key "predictions"] overall_data
                    (dict_get item (key "prediction")) ;;
  Ok (overall_data, field_data).

Fixpoint organise (results : list dict) (st : pyval * pyval) : res (pyval * pyval) :=
  match results with
  | [] => Ok st
  | item :: rest => st' <- organise_item item st ;; organise rest st'
  end.

(** [calculate_accuracy(d["predictions"], d["answers"])] *)
Definition bucket_accuracy (d : pyval) : res Q :=
  predictions <- py_getitem d (key "predictions") ;;
  answers <- py_getitem d (key "answers") ;;
  predictions <- py_list predictions ;;
  answers <- py_list answers ;;
  calculate_accuracy predictions answers.

(** The inner [for sub_field_name, sub_field_results in ...items()] loop on
    [accuracy_scores[field_name]]. *)
Fixpoint score_sub_fields (items : dict) (field_scores : pyval) : res pyval :=
  match items with
  | [] => Ok field_scores
  | (sub_field_name, sub_field_results) :: rest =>
      sub_field_accuracy <- bucket_accuracy sub_field_results ;;
      field_scores <- py_setitem field_scores sub_field_name (PNum sub_field_accuracy) ;;
      score_sub_fields rest field_scores
  end.

Fixpoint score_fields (items : dict) (accuracy_scores : pyval) : res pyval :=
  match items with
  | [] => Ok accuracy_scores
  | (field_name, field_results) :: rest =>
      field_accuracy <- bucket_accuracy field_results ;;
      accuracy_scores <- py_setitem accuracy_scores field_name
                           (PDict [(key "overall", PNum field_accuracy)]) ;;
      subs <- py_getitem field_results (key "sub_field") ;;
      sub_items <- py_items subs ;;
      field_scores <- py_getitem accuracy_scores field_name ;;
      field_scores <- score_sub_fields sub_items field_scores ;;
      accuracy_scores <- py_setitem accuracy_scores field_name field_scores ;;
      score_fields rest accuracy_scores
  end.

Definition calculate_field_accuracy (results : list dict) : res pyval :=
  st <- organise results (empty_bucket, PDict []) ;;
  let (overall_data, field_data) := st in
  field_items <- py_items field_data ;;
  accuracy_scores <- score_fields field_items (PDict []) ;;
  overall_accuracy <- bucket_accuracy overall_data ;;
  py_setitem accuracy_scores (key "overall") (PNum overall_accuracy).

(** ** tasks/task2_evaluator.py, tasks/task3_evaluator.py: calculate_overall_accuracy *)

Fixpoint collect (results : list dict) (overall_data : pyval) : res pyval :=
  match results with
  | [] => Ok overall_data
  | item :: rest =>
      overall_data <- append_at [key "answers"] overall_data
                        (dict_get item (key "answer")) ;;
      overall_data <- append_at [key "predictions"] overall_data
                        (dict_get item (key "prediction")) ;;
      collect rest overall_data
  end.

Definition calculate_overall_accuracy (results : list dict) : res dict :=
  overall_data <- collect results empty_bucket ;;
  overall_accuracy <- bucket_accuracy overall_data ;;
  Ok [(key "overall", PNum overall_accuracy)].

(** ** The resumable loop of run_evaluation_task1 / _task2 / _student *)

(** The dataset samples are dictionaries the loop mutates in place, and
    [evaluation_results.append(sample)] stores the sample itself.  The state
    keeps the samples in a store ([st_data], indexed by position) and the
    accumulator as references: a record loaded from the output file is an
    object of its own, a record appended by the loop is the sample at that
    position.  The output file holds the lines written so far, each the
    serialisation of the sample at the time of the append. *)
Inductive ref : Type :=
| Loaded (record : dict)
| Sample (sample_idx : nat).

Fixpoint set_nth {A : Type} (i : nat) (x : A) (l : list A) : list A :=
  match l, i with
  | [], _ => []
  | _ :: l', O => x :: l'
  | y :: l', S i' => y :: set_nth i' x l'
  end.

Section EvaluationLoop.

Variable Model : Type.
(** [model.chat(prompt, system_prompt)]: the response or an exception, and
    the backend afterwards. *)
Variable chat : Model -> text -> option text -> res text * Model.
(** The prompt and the system prompt built from a sample. *)
Variable prompt_of : dict -> res (text * option text).

Record loop_state : Type := mk_state {
  st_model : Model;
  st_data : list dict;
  st_file : list dict;
  st_results : list ref
}.

(** The loop body after the skip test: prompt, generation, extraction, the
    two assignments to the sample, the append to the file and to the
    accumulator.  An exception leaves the loop with the state reached.  The
    positions come from [enumerate(evaluation_data)], so the sample is in
    the store. *)
Definition process_sample (sample_idx : nat) (st : loop_state)
  : option exn * loop_state :=
  match nth_error (st_data st) sample_idx with
  | None => (None, st)
  | Some sample =>
      match prompt_of sample with
      | Raise e => (Some e, st)
      | Ok (prompt, system_prompt) =>
          let (r, model') := chat (st_model st) prompt system_prompt in
          match r with
          | Raise e => (Some e, mk_state model' (st_data st) (st_file st) (st_results st))
          | Ok model_response =>
              let sample := dict_set sample (key "response") (PStr model_response) in
              match extract_last_boxed_answer model_response with
              | Raise e =>
                  (Some e, mk_state model' (set_nth sample_idx sample (st_data st))
                             (st_file st) (st_results st))
              | Ok prediction =>
                  let sample := dict_set sample (key "prediction") (of_label prediction) in
                  (None, mk_state model' (set_nth sample_idx sample (st_data st))
                           (st_file st ++ [sample])
                           (st_results st ++ [Sample sample_idx]))
              end
          end
      end
  end.

(** [for sample_idx, sample in enumerate(evaluation_data)] *)
Fixpoint sample_loop (idxs : list nat) (iteration total_samples : nat)
    (st : loop_state) : option exn * loop_state :=
  match idxs with
  | [] => (None, st)
  | sample_idx :: rest =>
      let result_index := (sample_idx + iteration * total_samples)%nat in
      if (result_index <? length (st_results st))%nat
      then sample_loop rest iteration total_samples st
      else
        match process_sample sample_idx st with
        | (Some e, st') => (Some e, st')
        | (None, st') => sample_loop rest iteration total_samples st'
        end
  end.

(** [for iteration in range(args.test_time)] *)
Fixpoint iteration_loop (iterations : list nat) (total_samples : nat)
    (st : loop_state) : option exn * loop_state :=
  match iterations with
  | [] => (None, st)
  | iteration :: rest =>
      match sample_loop (seq 0 total_samples) iteration total_samples st with
      | (Some e, st') => (Some e, st')
      | (None, st') => iteration_loop rest total_samples st'
      end
  end.

(** The state on entry: the records of the output file are loaded into the
    accumulator, the dataset into the store. *)
Definition initial_state (model : Model) (output evaluation_data : list dict)
  : loop_state :=
  mk_state model evaluation_data output (map Loaded output).

Definition run_loop (model : Model) (output evaluation_data : list dict)
    (test_time : nat) : option exn * loop_state :=
  iteration_loop (seq 0 test_time) (length evaluation_data)
    (initial_state model output evaluation_data).

(** What the accumulator holds when it is read. *)
Definition deref (data : list dict) (r : ref) : dict :=
  match r with
  | Loaded record => record
  | Sample i => nth i data []
  end.

Definition evaluation_results (st : loop_state) : list dict :=
  map (deref (st_data st)) (st_results st).

End EvaluationLoop.

(** ** run_evaluation_task1 *)

Section Task1.

Variable Model : Type.
Variable chat : Model -> text -> option text -> res text * Model.

(** [build_task1_prompt(sample["question"], sample["field"])], sent without a
    system prompt. *)
Definition task1_prompt (sample : dict) : res (text * option text) :=
  question <- dict_get sample (key "question") ;;
  field <- dict_get sample (key "field") ;;
  Ok (build_task1_prompt question field, None).

(** [output] is the content of [task1.jsonl] on entry (empty when the file
    does not exist).  The result is the score or the exception that left the
    function, with the final state of the backend, the samples and the
    file. *)
Definition run_evaluation_task1 (model : Model) (output evaluation_data : list dict)
    (test_time : nat) : res pyval * loop_state Model :=
  match run_loop chat task1_prompt model output evaluation_data test_time with
  | (Some e, st) => (Raise e, st)
  | (None, st) => (calculate_field_accuracy (evaluation_results st), st)
  end.

End Task1.

(** ** tasks/task3_evaluator.py *)

Section Task3.

Variable Teacher : Type.
Variable teacher_chat : Teacher -> text -> option text -> res text * Teacher.
(** [StudentModel(model_name, path)] and its [chat]. *)
Variable Student : Type.
Variable student_load : text -> res Student.
Variable student_chat : Student -> text -> option text -> res text * Student.

(** *** generate_knowledge_for_task3 *)

Record knowledge_state : Type := mk_kstate {
  ks_model : Teacher;
  ks_file : list dict;
  ks_results : list dict
}.

(** One turn of [for sample_idx, sample in enumerate(evaluation_data)]: the
    skip test, then the [try] block; every exception is caught and the loop
    goes on. *)
Definition knowledge_step (sample_idx : nat) (sample : dict) (st : knowledge_state)
  : knowledge_state :=
  if (sample_idx <? length (ks_results st))%nat then st
  else
    match (guideline <- dict_get sample (key "guideline") ;;
           material <- dict_get sample (key "material") ;;
           Ok (build_teacher_prompt guideline material)) with
    | Raise _ => st
    | Ok (system_prompt, user_prompt) =>
        let (r, model') := teacher_chat (ks_model st) user_prompt (Some system_prompt) in
        match r with
        | Raise _ => mk_kstate model' (ks_file st) (ks_results st)
        | Ok model_response =>
            let sample := dict_set sample (key "response") (PStr model_response) in
            match extract_last_knowledge_object model_response with
            | Raise _ => mk_kstate model' (ks_file st) (ks_results st)
            | Ok knowledge =>
                let sample := dict_set sample (key "knowledge") knowledge in
                mk_kstate model' (ks_file st ++ [sample]) (ks_results st ++ [sample])
            end
        end
    end.

Fixpoint knowledge_loop (samples : list (nat * dict)) (st : knowledge_state)
  : knowledge_state :=
  match samples with
  | [] => st
  | (sample_idx, sample) :: rest => knowledge_loop rest (knowledge_step sample_idx sample st)
  end.

Definition enumerate {A : Type} (l : list A) : list (nat * A) :=
  combine (seq 0 (length l)) l.

(** [output] is the content of [task3_knowledge.jsonl] on entry.  The
    returned [ks_results] is [knowledge_results]. *)
Definition generate_knowledge_for_task3 (model : Teacher)
    (output evaluation_data : list dict) : knowledge_state :=
  let st := mk_kstate model output output in
  if (length evaluation_data <=? length output)%nat then st
  else knowledge_loop (enumerate evaluation_data) st.

(** *** run_evaluation_student *)

(** [sample["knowledge"] if isinstance(sample["knowledge"], str) else
    json.dumps(sample["knowledge"], ...)] *)
Definition knowledge_text (knowledge : pyval) : text :=
  match knowledge with
  | PStr s => s
  | v => json_dumps v
  end.

Definition student_prompt (sample : dict) : res (text * option text) :=
  question <- dict_get sample (key "question") ;;
  material <- dict_get sample (key "material") ;;
  knowledge <- dict_get sample (key "knowledge") ;;
  let (system_prompt, question_prompt) :=
    build_guided_student_prompt question material (knowledge_text knowledge) in
  Ok (question_prompt, Some system_prompt).

(** [output] is the content of [task3_student_<model_name>.jsonl]. *)
Definition run_evaluation_student (model_name : text) (model : Student)
    (evaluation_data output : list dict) (test_time : nat)
  : res dict * loop_state Student :=
  match run_loop student_chat student_prompt model output evaluation_data test_time with
  | (Some e, st) => (Raise e, st)
  | (None, st) =>
      (accuracy_scores <- calculate_overall_accuracy (evaluation_results st) ;;
       Ok (dict_set accuracy_scores (key "model_name") (PStr model_name)), st)
  end.

(** *** run_evaluation_task3 *)

Definition roster : list text :=
  [py "qwen-1_8b"; py "qwen-7b"; py "qwen-14b"; py "yi-6b"; py "internlm2-7b"].

(** The student output files, by model name. *)
Definition files := text -> list dict.

Definition write_file (fs : files) (name : text) (content : list dict) : files :=
  fun n => if text_eqb n name then content else fs n.

(** [for model_name in [...]]: the state is [accuracy_scores] and the files. *)
Fixpoint student_loop (names : list text) (evaluation_data : list dict)
    (test_time : nat) (accuracy_scores : dict) (fs : files) : res dict * files :=
  match names with
  | [] => (Ok accuracy_scores, fs)
  | model_name :: rest =>
      match student_load model_name with
      | Raise e => (Raise e, fs)
      | Ok student_model =>
          let (r, st) := run_evaluation_student model_name student_model
                           evaluation_data (fs model_name) test_time in
          let fs := write_file fs model_name (st_file st) in
          match (accuracy_score <- r ;; dict_get accuracy_score (key "overall")) with
          | Raise e => (Raise e, fs)
          | Ok overall =>
              student_loop rest evaluation_data test_time
                (dict_set accuracy_scores (PStr model_name) overall) fs
          end
      end
  end.

(** [sum(values)] on numbers. *)
Fixpoint py_sum (values : list pyval) (acc : Q) : res Q :=
  match values with
  | [] => Ok acc
  | PNum q :: rest => py_sum rest (acc + q)%Q
  | _ :: _ => Raise TypeError
  end.

Definition mean_of (values : list pyval) : res Q :=
  total <- py_sum values 0%Q ;;
  match values with
  | [] => Raise ZeroDivisionError
  | _ => Ok (total / inject_Z (Z.of_nat (length values)))%Q
  end.

(** [knowledge_output] is the content of [task3_knowledge.jsonl]; the result
    is the summary or the exception, with the knowledge file and the student
    files afterwards.  [copy.deepcopy(evaluation_data)] is the list itself
    here, values being copied by nature; the [release()] calls free the
    device and produce no value. *)
Definition run_evaluation_task3 (model : Teacher)
    (knowledge_output evaluation_data : list dict) (fs : files) (test_time : nat)
  : res pyval * (list dict * files) :=
  let ks := generate_knowledge_for_task3 model knowledge_output evaluation_data in
  let evaluation_data := ks_results ks in
  let (r, fs) := student_loop roster evaluation_data test_time [] fs in
  (accuracy_scores <- r ;;
   mean <- mean_of (map snd accuracy_scores) ;;
   Ok (PDict [(key "overall", PNum mean);
              (key "student_scores", PDict accuracy_scores)]),
   (ks_file ks, fs)).

End Task3.

End Harness.

(** ** tasks/task2_evaluator.py: run_evaluation_task2 *)

(** [for x in v]: the elements of a list, the keys of a dictionary, the
    characters of a string; other values are not iterable. *)
Definition py_iter (v : pyval) : res (list pyval) :=
  match v with
  | PList l => Ok l
  | PDict d => Ok (map fst d)
  | PStr s => Ok (map (fun c => PStr [c]) s)
  | _ => Raise TypeError
  end.

(** The inner loop [for qas in item["qas"]]: one sample per question, with
    the material of the item. *)
Fixpoint qas_samples (item : dict) (qas_list : list pyval) : res (list dict) :=
  match qas_list with
  | [] => Ok []
  | qas :: rest =>
      question <- py_getitem qas (key "question") ;;
      answer <- py_getitem qas (key "answer") ;;
      material <- dict_get item (key "material") ;;
      samples <- qas_samples item rest ;;
      Ok ([(key "question", question); (key "answer", answer);
           (key "material", material)] :: samples)
  end.

(** The outer loop [for item in raw_data] that builds [evaluation_data]. *)
Fixpoint preprocess_task2 (raw_data : list dict) : res (list dict) :=
  match raw_data with
  | [] => Ok []
  | item :: rest =>
      qas_value <- dict_get item (key "qas") ;;
      qas_list <- py_iter qas_value ;;
      samples <- qas_samples item qas_list ;;
      more <- preprocess_task2 rest ;;
      Ok (samples ++ more)
  end.

Section Task2.

Variable upper : text -> text.
Variable build_task2_prompt : pyval -> pyval -> text.
Variable Model : Type.
Variable chat : Model -> text -> option text -> res text * Model.

(** [build_task2_prompt(sample["question"], sample["material"])], sent
    without a system prompt. *)
Definition task2_prompt (sample : dict) : res (text * option text) :=
  question <- dict_get sample (key "question") ;;
  material <- dict_get sample (key "material") ;;
  Ok (build_task2_prompt question material, None).

(** [output] is the content of [task2.jsonl] on entry and [raw_data] the
    loaded dataset.  The existing results are loaded first; when the
    preprocessing raises, the backend and the file are untouched. *)
Definition run_evaluation_task2 (model : Model) (output raw_data : list dict)
    (test_time : nat) : res dict * loop_state Model :=
  match preprocess_task2 raw_data with
  | Raise e => (Raise e, initial_state model output [])
  | Ok evaluation_data =>
      match run_loop chat task2_prompt model output evaluation_data test_time with
      | (Some e, st) => (Raise e, st)
      | (None, st) => (calculate_overall_accuracy upper (evaluation_results st), st)
      end
  end.

End Task2.

(** ** eval.py: Qwen3Model.chat *)

(** [l.index(x)]: the first position of [x], or [ValueError]. *)
Fixpoint list_index (x : N) (l : list N) : res nat :=
  match l with
  | [] => Raise ValueError
  | y :: l' => if y =? x then Ok O else i <- list_index x l' ;; Ok (S i)
  end.

(** The token id that closes the thinking part. *)
Definition think_end : N := 151668.

(** [len(output_ids) - output_ids[::-1].index(151668)], and 0 when
    [ValueError] is caught. *)
Definition content_index (output_ids : list N) : nat :=
  match list_index think_end (rev output_ids) with
  | Ok i => (length output_ids - i)%nat
  | Raise _ => O
  end.

Section Qwen3Model.

(** [tokenizer.decode(ids, skip_special_tokens=True)] *)
Variable decode : list N -> text.

(** What [chat] returns for the generated token ids [output_ids]:
    [decode(output_ids[index:]).strip("\n")]. *)
Definition chat_content (output_ids : list N) : text :=
  let index := content_index output_ids in
  rstrip_chars [10] (lstrip_chars [10] (decode (skipn index output_ids))).

End Qwen3Model.

(** ** utils/file_utils.py *)

(** The files by path, each the text it holds.  The directory tree,
    permissions and encoding errors are not part of it; the platform is
    POSIX, where text mode writes a newline as it is. *)
Definition disk := text -> option text.

Definition write_text (d : disk) (file_path : text) (content : text) : disk :=
  fun p => if text_eqb p file_path then Some content else d p.

(** The content on opening for append: the file is created when missing. *)
Definition opened_for_append (d : disk) (file_path : text) : text :=
  match d file_path with
  | Some content => content
  | None => []
  end.

(** Reading in text mode translates a carriage return, with the newline
    after it if there is one, to a newline. *)
Fixpoint universal_newlines (s : text) : text :=
  match s with
  | [] => []
  | c :: r =>
      if c =? 13 then
        10 :: match r with
              | c' :: r' =>
                  if c' =? 10 then universal_newlines r' else universal_newlines r
              | [] => []
              end
      else c :: universal_newlines r
  end.

(** [for line in file] on the translated text: every line with its newline,
    the last one without when the text does not end in a newline. *)
Fixpoint text_lines (s : text) : list text :=
  match s with
  | [] => []
  | c :: r =>
      if c =? 10 then [c] :: text_lines r
      else match text_lines r with
           | [] => [[c]]
           | line :: rest => (c :: line) :: rest
           end
  end.

Definition file_lines (content : text) : list text :=
  text_lines (universal_newlines content).

(** The exceptions of the file helpers, by class: a missing file or
    directory, the other errors of the operating system met when a directory
    is made or a file opened ([OSError] for the remaining ones), or what the
    JSON codec raised. *)
Inductive io_exn : Type :=
| FileNotFoundError
| PermissionError
| NotADirectoryError
| IsADirectoryError
| FileExistsError
| OSError
| Other (e : exn).

(** [p[:p.rfind("/") + 1]] *)
Fixpoint path_head (p : text) : text :=
  match p with
  | [] => []
  | c :: r =>
      if existsb (N.eqb 47) r then c :: path_head r
      else if c =? 47 then [c] else []
  end.

(** [os.path.dirname]: the part up to the last slash, without its trailing
    slashes unless it is made of slashes; empty for a path without a
    slash. *)
Definition dirname (p : text) : text :=
  let head := path_head p in
  if nonempty head && negb (forallb (N.eqb 47) head)
  then rstrip_chars [47] head
  else head.

Inductive outcome (A : Type) : Type :=
| Returns (a : A)
| Throws (e : io_exn).

Arguments Returns {A} a.
Arguments Throws {A} e.

Section FileUtils.

(** [json.loads] and [json.dumps(item, ensure_ascii=False)]; the encoder
    raises on a value it cannot serialise. *)
Variable json_loads : text -> res pyval.
Variable json_dumps : pyval -> res text.

(** The loop of [load_jsonl] over the lines: blank lines are skipped, the
    first line that does not decode raises. *)
Fixpoint parse_lines (lines : list text) : res (list pyval) :=
  match lines with
  | [] => Ok []
  | line :: rest =>
      let line := strip line in
      if nonempty line then
        item <- json_loads line ;;
        data <- parse_lines rest ;;
        Ok (item :: data)
      else parse_lines rest
  end.

Definition load_jsonl (d : disk) (file_path : text) : outcome (list pyval) :=
  match d file_path with
  | None => Throws FileNotFoundError
  | Some content =>
      match parse_lines (file_lines content) with
      | Ok data => Returns data
      | Raise e => Throws (Other e)
      end
  end.

(** The loop [for item in data: file.write(json.dumps(item) + '\n')]: the
    text written, and the exception that stopped the loop if any. *)
Fixpoint dump_lines (data : list pyval) : text * option exn :=
  match data with
  | [] => ([], None)
  | item :: rest =>
      match json_dumps item with
      | Raise e => ([], Some e)
      | Ok json_line =>
          let (written, e) := dump_lines rest in
          (json_line ++ [10] ++ written, e)
      end
  end.

(** What the operating system answers when the writers make a directory
    with a name and open a file with the mode ['w'] or ['a']: the exception
    it raises, if any. *)
Variable mkdir_error : text -> option io_exn.
Variable open_error : text -> option io_exn.

(** [os.makedirs(name, exist_ok=True)], by the exception it raises: the
    empty name, which is the [dirname] of a path without a slash, is
    refused with [FileNotFoundError]. *)
Definition makedirs (name : text) : option io_exn :=
  match name with
  | [] => Some FileNotFoundError
  | _ => mkdir_error name
  end.

(** The directory is made first, outside the [try]; an exception of
    [os.makedirs] or of [open] leaves the files as they are.  Opening with
    ['w'] empties the file; what was written before an exception of the
    encoder stays in it.  The handler raises an exception of the same
    class. *)
Definition save_jsonl (d : disk) (data : list pyval) (file_path : text)
  : option io_exn * disk :=
  match makedirs (dirname file_path) with
  | Some e => (Some e, d)
  | None =>
      match open_error file_path with
      | Some e => (Some e, d)
      | None =>
          let (written, e) := dump_lines data in
          (option_map Other e, write_text d file_path written)
      end
  end.

(** The file is opened with ['a'], which creates it when it is missing,
    before the item is serialised. *)
Definition append_to_jsonl (d : disk) (item : pyval) (file_path : text)
  : option io_exn * disk :=
  match makedirs (dirname file_path) with
  | Some e => (Some e, d)
  | None =>
      match open_error file_path with
      | Some e => (Some e, d)
      | None =>
          let content := opened_for_append d file_path in
          match json_dumps item with
          | Raise e => (Some (Other e), write_text d file_path content)
          | Ok json_line =>
              (None, write_text d file_path (content ++ json_line ++ [10]))
          end
      end
  end.

Definition batch_append_to_jsonl (d : disk) (items : list pyval) (file_path : text)
  : option io_exn * disk :=
  match makedirs (dirname file_path) with
  | Some e => (Some e, d)
  | None =>
      match open_error file_path with
      | Some e => (Some e, d)
      | None =>
          let content := opened_for_append d file_path in
          let (written, e) := dump_lines items in
          (option_map Other e, write_text d file_path (content ++ written))
      end
  end.

(** The loop of [count_jsonl_lines]. *)
Fixpoint count_lines (lines : list text) (count : nat) : nat :=
  match lines with
  | [] => count
  | line :: rest =>
      count_lines rest (if nonempty (strip line) then S count else count)
  end.

Definition count_jsonl_lines (d : disk) (file_path : text) : outcome nat :=
  match d file_path with
  | None => Throws FileNotFoundError
  | Some content => Returns (count_lines (file_lines content) 0)
  end.

End FileUtils.

(** ** Concrete collaborators for the examples *)

(** [str.upper] on ASCII letters. *)
Definition ascii_upper (s : text) : text :=
  map (fun c => if (97 <=? c) && (c <=? 122) then c - 32 else c) s.

(** A decoder that rejects its input, for texts that are not JSON. *)
Definition no_json (_ : text) : res pyval := Raise JSONDecodeError.

Definition value_text (v : pyval) : text :=
  match v with
  | PStr s => s
  | _ => []
  end.

Definition plain_dumps (v : pyval) : text := value_text v.
Definition plain_task1_prompt (question field : pyval) : text :=
  value_text field ++ [10] ++ value_text question.
Definition plain_teacher_prompt (guideline material : pyval) : text * text :=
  (py "teacher", value_text material ++ [10] ++ value_text guideline).
Definition plain_student_prompt (question material : pyval) (knowledge : text)
  : text * text :=
  (py "student", value_text material ++ [10] ++ knowledge ++ [10] ++ value_text question).

(** A sampling backend that answers A on its first call and B afterwards; its
    state is the number of calls made. *)
Definition drifting_chat (calls : nat) (_ : text) (_ : option text) : res text * nat :=
  (Ok (match calls with O => py "\boxed{A}" | S _ => py "\boxed{B}" end), S calls).

(** A backend whose second call fails (a transient failure). *)
Definition flaky_chat (calls : nat) (_ : text) (_ : option text) : res text * nat :=
  (match calls with 1%nat => Raise RuntimeError | _ => Ok (py "noted") end, S calls).

(** A deterministic backend without state: the answer is a function of the
    prompt. *)
Definition constant_chat (answer : text) (m : unit) (_ : text) (_ : option text)
  : res text * unit :=
  (Ok answer, m).

Definition task1_sample (question answer : string) : dict :=
  [(key "question", key question); (key "field", key "grammar");
   (key "sub_field", key "verbs"); (key "answer", key answer)].

Definition task1_record (field sub_field answer prediction : string) : dict :=
  [(key "field", key field); (key "sub_field", key sub_field);
   (key "answer", key answer); (key "prediction", key prediction)].

Definition task3_sample (material answer : string) : dict :=
  [(key "guideline", key "g"); (key "material", key material);
   (key "question", key "q"); (key "answer", key answer)].

(** The value stored under a key, [PNone] when the key is missing. *)
Definition field_of (k : string) (d : dict) : pyval :=
  match dict_lookup d (key k) with
  | Some v => v
  | None => PNone
  end.

(** ** Specification-level notions *)

(** The number of positions whose prediction is present and equal to the
    answer once both are upper-cased. *)
Fixpoint correct_positions (upper : text -> text)
    (predictions : list (option text)) (answers : list text) : nat :=
  match predictions, answers with
  | Some p :: ps, a :: rest =>
      (if list_eq_dec N.eq_dec (upper p) (upper a) then 1 else 0)
      + correct_positions upper ps rest
  | None :: ps, _ :: rest => correct_positions upper ps rest
  | _, _ => 0
  end%nat.

(** The boxed spans of the docstring of [extract_last_boxed_answer]: a bare
    letter, [\text{...}]-wrapped content without a closing brace, and a
    letter followed by a dot or a blank and by text on the same line. *)
Inductive boxed_span : text -> Prop :=
| span_bare l :
    is_A_D l = true -> boxed_span (py "\boxed{" ++ [l] ++ py "}")
| span_text body :
    forallb not_rbrace body = true ->
    boxed_span (py "\boxed{" ++ py "\text{" ++ body ++ py "}}")
| span_lettered l sep body :
    is_A_D l = true -> dot_or_space sep = true ->
    forallb (fun c => not_rbrace c && dot c) body = true ->
    boxed_span (py "\boxed{" ++ l :: sep :: body ++ py "}").

(** What may stand in front of the last span: a boxed span, or a character
    that is neither a backslash nor a closing brace. *)
Inductive piece : text -> Prop :=
| piece_span w : boxed_span w -> piece w
| piece_char c : c <> 92 -> c <> 125 -> piece [c].


(** [requires m r]: every match of [r] goes through the literal [m]. *)
Inductive requires (m : text) : regex -> Prop :=
| requires_lit : requires m (lit m)
| requires_cat_l a b : requires m a -> requires m (Cat a b)
| requires_cat_r a b : requires m b -> requires m (Cat a b)
| requires_alt a b : requires m a -> requires m b -> requires m (Alt a b)
| requires_grp i a : requires m a -> requires m (Grp i a).

(** The heuristic with one layer of quotes, as a specification would word
    it: the piece after the last ["knowledge":], less one leading and one
    trailing double quote. *)
Definition strip_one_quote_layer (s : text) : text :=
  let s := match s with
           | c :: s' => if c =? 34 then s' else s
           | [] => s
           end in
  match rev s with
  | c :: r => if c =? 34 then rev r else s
  | [] => s
  end.

Definition one_layer_heuristic (content : text) : text :=
  match index_last (split knowledge_key content) with
  | Ok piece => strip_one_quote_layer piece
  | Raise _ => []
  end.

(** *** The loop as a pass over flat indices *)

Section FlatPass.

Variable Model : Type.
Variable chat : Model -> text -> option text -> res text * Model.
Variable prompt_of : dict -> res (text * option text).

(** Generation and append for each flat index of a list, in order, stopping
    at the first exception; the sample of the flat index [i] is at position
    [i mod total_samples]. *)
Fixpoint process_indices (total_samples : nat) (flat : list nat) (st : loop_state Model)
  : option exn * loop_state Model :=
  match flat with
  | [] => (None, st)
  | i :: rest =>
      match process_sample chat prompt_of (i mod total_samples)%nat st with
      | (Some e, st') => (Some e, st')
      | (None, st') => process_indices total_samples rest st'
      end
  end.

(** A deterministic backend: the response as a function of the prompts. *)
Variable reply : text -> option text -> res text.

(** The line the loop writes for a sample, or the exception that stops it. *)
Definition record_of (sample : dict) : res dict :=
  match prompt_of sample with
  | Raise e => Raise e
  | Ok (prompt, system_prompt) =>
      match reply prompt system_prompt with
      | Raise e => Raise e
      | Ok model_response =>
          match extract_last_boxed_answer model_response with
          | Raise e => Raise e
          | Ok prediction =>
              Ok (dict_set (dict_set sample (key "response") (PStr model_response))
                    (key "prediction") (of_label prediction))
          end
      end
  end.

(** Every sample of the store is the loaded one or its finished record. *)
Definition settled (data0 data : list dict) : Prop :=
  length data = length data0
  /\ forall i d0 d, nth_error data0 i = Some d0 -> nth_error data i = Some d ->
                    d = d0 \/ record_of d0 = Ok d.

End FlatPass.

(** The backend with a log of its calls: the state also carries the prompts
    of the generations made so far, in order. *)
Definition logged {Model : Type}
    (chat : Model -> text -> option text -> res text * Model)
    (m : Model * list (text * option text)) (prompt : text)
    (system_prompt : option text)
  : res text * (Model * list (text * option text)) :=
  let (r, model') := chat (fst m) prompt system_prompt in
  (r, (model', snd m ++ [(prompt, system_prompt)])).

(** The state of a run with the logging backend, the log left out. *)
Definition erase_log {Model : Type}
    (st : loop_state (Model * list (text * option text))) : loop_state Model :=
  mk_state (fst (st_model st)) (st_data st) (st_file st) (st_results st).

(** The records up to the first exception. *)
Fixpoint ok_prefix (rs : list (res dict)) : list dict :=
  match rs with
  | Ok r :: rest => r :: ok_prefix rest
  | _ => []
  end.

(** *** The scores of task3 *)

Section StudentScore.

Variable upper : text -> text.
Variable json_dumps : pyval -> text.
Variable build_guided_student_prompt : pyval -> pyval -> text -> text * text.
Variable Student : Type.
Variable student_load : text -> res Student.
Variable student_chat : Student -> text -> option text -> res text * Student.

(** [q] is the overall accuracy [run_evaluation_student] returns for the
    student [name] on [evaluation_data] and its own output file. *)
Definition student_score (evaluation_data : list dict) (test_time : nat)
    (fs : files) (name : text) (q : Q) : Prop :=
  exists student st,
    student_load name = Ok student
    /\ fst (run_evaluation_student upper json_dumps build_guided_student_prompt student_chat
            name student evaluation_data (fs name) test_time)
       = Ok [(key "overall", PNum q); (key "model_name", PStr name)]
    /\ snd (run_evaluation_student upper json_dumps build_guided_student_prompt student_chat
            name student evaluation_data (fs name) test_time) = st.

End StudentScore.

(** The dictionary the student loop builds: one entry per name, in order. *)
Definition add_scores (accuracy_scores : dict) (names : list text) (qs : list Q) : dict :=
  fold_left (fun acc p => dict_set acc (PStr (fst p)) (PNum (snd p)))
    (combine names qs) accuracy_scores.

(** The arithmetic mean of a list of scores. *)
Definition arith_mean (qs : list Q) : Q :=
  (fold_right Qplus 0 qs / inject_Z (Z.of_nat (length qs)))%Q.

(** A run of the whole pipeline: two samples, a teacher and students that
    always give the same answer, one iteration, no output file yet. *)
Definition demo_task3 : res pyval * (list dict * files) :=
  run_evaluation_task3 ascii_upper no_json plain_dumps plain_teacher_prompt
    plain_student_prompt (constant_chat (py "k")) (fun _ => Ok tt)
    (constant_chat (py "\boxed{A}")) tt []
    [task3_sample "m0" "A"; task3_sample "m1" "B"] (fun _ => []) 1.

Definition demo_task3_summary : pyval :=
  PDict [(key "overall", PNum (80 # 160));
         (key "student_scores",
          PDict (combine (map PStr roster) (map PNum (repeat (1 # 2) 5))))].

(** ** Further specification-level notions *)

(** A pair the comparison accepts: the prediction is [None], or prediction
    and answer are both strings. *)
Definition comparable (pair : pyval * pyval) : Prop :=
  fst pair = PNone \/ exists p a, pair = (PStr p, PStr a).


(** A line the loop has written is consistent: its prediction is the
    extraction of its response. *)
Definition consistent_record (record : dict) : Prop :=
  exists response prediction,
    dict_lookup record (key "response") = Some (PStr response)
    /\ extract_last_boxed_answer response = Ok prediction
    /\ dict_lookup record (key "prediction") = Some (of_label prediction).

(** The sample built from one question of a task2 item. *)
Definition task2_sample (material : pyval) (qa : pyval * pyval) : dict :=
  [(key "question", fst qa); (key "answer", snd qa); (key "material", material)].

(** A task2 item seen as its material and its list of (question, answer);
    the material is only read when there is a question. *)
Definition task2_item (item : dict) (view : pyval * list (pyval * pyval)) : Prop :=
  (snd view = [] \/ dict_get item (key "material") = Ok (fst view))
  /\ exists l,
       dict_get item (key "qas") = Ok (PList l)
       /\ Forall2 (fun v qa => py_getitem v (key "question") = Ok (fst qa)
                               /\ py_getitem v (key "answer") = Ok (snd qa))
            l (snd view).

(** *** Stage A of task3 with a deterministic teacher *)

(** The record stage A writes for a sample, or the exception its [try]
    block catches, when the teacher's response is [reply] of the prompts. *)
Definition knowledge_record (json_loads : text -> res pyval)
    (build_teacher_prompt : pyval -> pyval -> text * text)
    (reply : text -> option text -> res text) (sample : dict) : res dict :=
  guideline <- dict_get sample (key "guideline") ;;
  material <- dict_get sample (key "material") ;;
  let (system_prompt, user_prompt) := build_teacher_prompt guideline material in
  model_response <- reply user_prompt (Some system_prompt) ;;
  knowledge <- extract_last_knowledge_object json_loads model_response ;;
  Ok (dict_set (dict_set sample (key "response") (PStr model_response))
        (key "knowledge") knowledge).

(** The successful results of a list, in order. *)
Fixpoint oks {A : Type} (rs : list (res A)) : list A :=
  match rs with
  | [] => []
  | Ok x :: rest => x :: oks rest
  | Raise _ :: rest => oks rest
  end.

(** A record of the knowledge file whose knowledge is what the extractor
    returns on its response. *)
Definition consistent_knowledge (json_loads : text -> res pyval) (record : dict) : Prop :=
  exists response knowledge,
    dict_lookup record (key "response") = Some (PStr response)
    /\ extract_last_knowledge_object json_loads response = Ok knowledge
    /\ dict_lookup record (key "knowledge") = Some knowledge.

(** A score between 0 and 1. *)
Definition in_unit (q : Q) : Prop := (0 <= q <= 1)%Q.

(** *** JSON lines *)

(** A text that fits on one line. *)
Definition one_line (l : text) : Prop := Forall (fun c => c <> 10 /\ c <> 13) l.

(** An item the codec takes to one non-blank line and back. *)
Definition codec_ok (json_loads : text -> res pyval) (json_dumps : pyval -> res text)
    (item : pyval) : Prop :=
  exists l, json_dumps item = Ok l /\ one_line l
            /\ nonempty (strip l) = true /\ json_loads (strip l) = Ok item.

(** A file that is empty or ends in a newline. *)
Definition newline_terminated (content : text) : Prop :=
  content = [] \/ exists c, content = c ++ [10].

(** Appending the items one by one, up to the first exception. *)
Fixpoint append_each (json_dumps : pyval -> res text)
    (mkdir_error open_error : text -> option io_exn) (d : disk) (items : list pyval)
    (file_path : text) : option io_exn * disk :=
  match items with
  | [] => (None, d)
  | item :: rest =>
      match append_to_jsonl json_dumps mkdir_error open_error d item file_path with
      | (Some e, d') => (Some e, d')
      | (None, d') => append_each json_dumps mkdir_error open_error d' rest file_path
      end
  end.

(** An operating system for the examples: a directory with a name can be
    made and a file can be opened. *)
Definition free_mkdir (name : text) : option io_exn := None.

Definition free_open (file_path : text) : option io_exn := None.

(** A codec for the examples: a string between double quotes. *)
Definition quoted_dumps (v : pyval) : res text :=
  match v with
  | PStr s => Ok (quote ++ s ++ quote)
  | _ => Raise TypeError
  end.

Definition quoted_loads (t : text) : res pyval :=
  match t with
  | 34 :: rest => Ok (PStr (removelast rest))
  | _ => Raise JSONDecodeError
  end.

(** *** The hierarchical accuracy, record by record *)

(** What [calculate_field_accuracy] reads of a result record. *)
Record graded : Type := mk_graded {
  v_field : text;
  v_sub_field : text;
  v_answer : pyval;
  v_prediction : pyval
}.

(** The names a field entry uses for its own containers. *)
Definition reserved (s : text) : bool :=
  text_eqb (py "answers") s || text_eqb (py "predictions") s
  || text_eqb (py "sub_field") s.

(** A record with a field and a sub-field that are strings, the sub-field
    none of the reserved names, an answer and a prediction. *)
Definition graded_item (item : dict) (v : graded) : Prop :=
  dict_get item (key "field") = Ok (PStr (v_field v))
  /\ dict_get item (key "sub_field") = Ok (PStr (v_sub_field v))
  /\ dict_get item (key "answer") = Ok (v_answer v)
  /\ dict_get item (key "prediction") = Ok (v_prediction v)
  /\ reserved (v_sub_field v) = false.

(** The distinct fields in the order of their first record. *)
Definition add_field (fs : list text) (f : text) : list text :=
  if existsb (text_eqb f) fs then fs else fs ++ [f].

Definition fields_of (vs : list graded) : list text :=
  fold_left add_field (map v_field vs) [].

(** The records of a field, in order. *)
Definition of_field (f : text) (vs : list graded) : list graded :=
  filter (fun v => text_eqb (v_field v) f) vs.

(** One entry per field, holding the accuracy of the records of the field
    and nothing else. *)
Fixpoint score_each (upper : text -> text) (vs : list graded) (fs : list text)
  : res dict :=
  match fs with
  | [] => Ok []
  | f :: rest =>
      q <- calculate_accuracy upper (map v_prediction (of_field f vs))
             (map v_answer (of_field f vs)) ;;
      more <- score_each upper vs rest ;;
      Ok ((PStr f, PDict [(key "overall", PNum q)]) :: more)
  end.

Definition field_accuracy (upper : text -> text) (vs : list graded) : res pyval :=
  scores <- score_each upper vs (fields_of vs) ;;
  overall <- calculate_accuracy upper (map v_prediction vs) (map v_answer vs) ;;
  Ok (PDict (dict_set scores (key "overall") (PNum overall))).

(** The answers and predictions of a field entry, and its empty
    "sub_field" dictionary. *)
Definition entry_ok (entry : pyval) (answers predictions : list pyval) : Prop :=
  exists ed, entry = PDict ed
    /\ dict_lookup ed (key "answers") = Some (PList answers)
    /\ dict_lookup ed (key "predictions") = Some (PList predictions)
    /\ dict_lookup ed (key "sub_field") = Some (PDict []).

(** The grouping the organising loop builds: the answers and predictions
    per field, a new field going last. *)
Fixpoint bump (v : graded) (t : list (text * (list pyval * list pyval)))
  : list (text * (list pyval * list pyval)) :=
  match t with
  | [] => [(v_field v, ([v_answer v], [v_prediction v]))]
  | (g, (A, P)) :: rest =>
      if text_eqb (v_field v) g
      then (g, (A ++ [v_answer v], P ++ [v_prediction v])) :: rest
      else (g, (A, P)) :: bump v rest
  end.

Definition tally_ok (fd : dict) (t : list (text * (list pyval * list pyval))) : Prop :=
  Forall2 (fun kv g => fst kv = PStr (fst g)
                       /\ entry_ok (snd kv) (fst (snd g)) (snd (snd g))) fd t.

Definition bucket (answers predictions : list pyval) : pyval :=
  PDict [(key "answers", PList answers); (key "predictions", PList predictions)].

(** The scores of a grouping, field by field. *)
Fixpoint score_tally (upper : text -> text)
    (t : list (text * (list pyval * list pyval))) : res dict :=
  match t with
  | [] => Ok []
  | (f, (A, P)) :: rest =>
      q <- calculate_accuracy upper P A ;;
      more <- score_tally upper rest ;;
      Ok ((PStr f, PDict [(key "overall", PNum q)]) :: more)
  end.

(** The field entry looked up by the organising loop, the fresh one when
    the field is new. *)
Definition entry_of (fd : dict) (f : text) : pyval :=
  match dict_lookup fd (PStr f) with
  | Some e => e
  | None => empty_field_entry
  end.

(** A record whose sub-field is named like a container of the field entry. *)
Definition shadowing (item : dict) : Prop :=
  exists f s a p,
    dict_get item (key "field") = Ok (PStr f)
    /\ dict_get item (key "sub_field") = Ok (PStr s)
    /\ (s = py "answers" \/ s = py "predictions")
    /\ dict_get item (key "answer") = Ok a
    /\ dict_get item (key "prediction") = Ok p.

(** A record without one of the four keys, the keys before it being
    present. *)
Definition lacks_key (item : dict) : Prop :=
  dict_get item (key "field") = Raise KeyError
  \/ (exists f, dict_get item (key "field") = Ok f
                /\ dict_get item (key "sub_field") = Raise KeyError)
  \/ (exists f s,
        dict_get item (key "field") = Ok (PStr f)
        /\ dict_get item (key "sub_field") = Ok (PStr s)
        /\ reserved s = false
        /\ (dict_get item (key "answer") = Raise KeyError
            \/ exists a, dict_get item (key "answer") = Ok a
                         /\ dict_get item (key "prediction") = Raise KeyError)).

(** *** Records the scorers accept *)

(** A record with a string answer, with a prediction that is a label or
    [None], with a string field and a string sub-field of no reserved
    name. *)
Definition answered (d : dict) : Prop :=
  exists a, dict_get d (key "answer") = Ok (PStr a).

Definition predicted (d : dict) : Prop :=
  exists o, dict_get d (key "prediction") = Ok (of_label o).

Definition fielded (d : dict) : Prop :=
  exists f s, dict_get d (key "field") = Ok (PStr f)
              /\ dict_get d (key "sub_field") = Ok (PStr s)
              /\ reserved s = false.

(** A sample of task1 and a sample of task2 with all the loop and the
    scorer read. *)
Definition task1_ready (d : dict) : Prop :=
  dict_has d (key "question") = true /\ fielded d /\ answered d.

Definition task2_ready (d : dict) : Prop :=
  dict_has d (key "question") = true /\ dict_has d (key "material") = true
  /\ answered d.

(** *** The content the knowledge extractor decodes *)

(** What [extract_knowledge_from_text] does with the cleaned text: the
    value under "knowledge" of the decoded object, or the textual
    fallback. *)
Definition knowledge_of (json_loads : text -> res pyval) (content : text) : res pyval :=
  match (knowledge_data <- json_loads content ;; get_knowledge knowledge_data) with
  | Ok v => Ok v
  | Raise _ => knowledge <- fallback_knowledge content ;; Ok (PStr knowledge)
  end.

(** A pattern without groups, and a pattern made of such parts that ends
    with a closing brace. *)
Fixpoint groupless (r : regex) : bool :=
  match r with
  | Grp _ _ => false
  | Cat a b | Alt a b => groupless a && groupless b
  | Opt a | StarG a | Look a => groupless a
  | Eps | Chr _ | Rep _ _ | Eos => true
  end.

Inductive closes : regex -> Prop :=
| closes_brace : closes (chr 125)
| closes_cat (a b : regex) : groupless a = true -> closes b -> closes (Cat a b).

(** A sample of task3, and a record of the knowledge file the students can
    be asked about. *)
Definition task3_ready (d : dict) : Prop :=
  dict_has d (key "question") = true /\ dict_has d (key "material") = true
  /\ answered d.

Definition student_ready (d : dict) : Prop :=
  dict_has d (key "question") = true /\ dict_has d (key "material") = true
  /\ dict_has d (key "knowledge") = true /\ answered d.

(** An entry of the student scores that holds a number. *)
Definition numeric (entry : pyval * pyval) : Prop := exists q, snd entry = PNum q.

(** * Properties *)

(** ** Text primitives *)

Lemma text_eqb_eq (a b : text) : text_eqb a b = true <-> a = b.
Proof.
  revert b; induction a as [|x a IH]; intros [|y b]; simpl; split;
    try congruence; try reflexivity.
  - intros H. apply andb_true_iff in H as [Hx Hab].
    apply N.eqb_eq in Hx. apply IH in Hab. congruence.
  - intros H. injection H as -> ->. rewrite N.eqb_refl. simpl. now apply IH.
Qed.

Lemma text_eqb_refl (a : text) : text_eqb a a = true.
Proof. now apply text_eqb_eq. Qed.

Lemma text_eqb_dec (a b : text) :
  text_eqb a b = if list_eq_dec N.eq_dec a b then true else false.
Proof.
  destruct (list_eq_dec N.eq_dec a b) as [E|E].
  - now apply text_eqb_eq.
  - destruct (text_eqb a b) eqn:H; [|reflexivity].
    apply text_eqb_eq in H. contradiction.
Qed.

(** ** calculate_accuracy *)

Lemma count_correct_spec (upper : text -> text) :
  forall (predictions : list (option text)) (answers : list text) (n : nat),
    count_correct upper (combine (map of_label predictions) (map PStr answers)) n
    = Ok (n + correct_positions upper predictions answers)%nat.
Proof.
  induction predictions as [|[p|] ps IH]; intros [|a rest] n; simpl;
    try (now rewrite Nat.add_0_r).
  - rewrite IH, text_eqb_dec.
    destruct (list_eq_dec N.eq_dec (upper p) (upper a)); f_equal; lia.
  - apply IH.
Qed.

(** C5.  On a list of predictions (a label or absent) and a list of answers,
    [calculate_accuracy] raises [ValueError] when the lengths differ and
    otherwise returns the number of positions whose prediction is present and
    case-insensitively equal to the answer, divided by the length; absent
    predictions count as incorrect.  On ["a", None, "C"] against
    ["A", "B", "C"] the result is 2/3, and on two empty lists it is 0. *)
Theorem calculate_accuracy_fraction :
  (forall (upper : text -> text) (predictions : list (option text))
          (answers : list text),
      calculate_accuracy upper (map of_label predictions) (map PStr answers)
      = if Nat.eqb (length predictions) (length answers)
        then Ok (match predictions with
                 | [] => 0%Q
                 | _ => Z.of_nat (correct_positions upper predictions answers)
                        # Pos.of_nat (length predictions)
                 end)
        else Raise ValueError)
  /\ calculate_accuracy ascii_upper
       [PStr (py "a"); PNone; PStr (py "C")]
       [PStr (py "A"); PStr (py "B"); PStr (py "C")] = Ok (2 # 3)
  /\ (forall upper : text -> text, calculate_accuracy upper [] [] = Ok 0%Q).
Proof.
  split; [|split; [reflexivity | reflexivity]].
  intros upper predictions answers. unfold calculate_accuracy.
  rewrite !length_map.
  destruct (Nat.eqb (length predictions) (length answers)) eqn:E; simpl;
    [|reflexivity].
  rewrite count_correct_spec. simpl.
  destruct predictions; reflexivity.
Qed.

(** ** calculate_field_accuracy *)

(** C2.  On two records of the field "f", one of the sub-field "s" and one of
    the sub-field "t", the hierarchical accuracy holds the overall score of
    "f" and the top-level overall score, and no entry for "s" or "t": the
    buckets of the sub-fields are stored beside the "sub_field" dictionary,
    which stays empty, and the scoring loop iterates over that dictionary. *)
Theorem calculate_field_accuracy_drops_sub_fields :
  calculate_field_accuracy ascii_upper
    [task1_record "f" "s" "A" "A"; task1_record "f" "t" "A" "B"]
  = Ok (PDict [(key "f", PDict [(key "overall", PNum (1 # 2))]);
               (key "overall", PNum (1 # 2))]).
Proof. vm_compute. reflexivity. Qed.

(** ** The accumulator of the loop shares the samples *)

(** C3.  One sample whose answer is A, two iterations, a backend that
    answers A on the first call and B on the second.  The output file holds
    the prediction of each iteration (A, then B), but the accumulator holds
    the sample itself twice: the record appended in the first iteration reads
    B once the second iteration has assigned the sample's prediction, and the
    score is computed from B and B. *)
Theorem accumulator_records_are_overwritten :
  let run := run_evaluation_task1 ascii_upper plain_task1_prompt drifting_chat
               O [] [task1_sample "q" "A"] 2 in
  map (field_of "prediction") (st_file (snd run)) = [key "A"; key "B"]
  /\ map (field_of "prediction") (evaluation_results (snd run)) = [key "B"; key "B"]
  /\ st_results (snd run) = [Sample 0; Sample 0]
  /\ fst run = Ok (PDict [(key "grammar", PDict [(key "overall", PNum (0 # 2))]);
                          (key "overall", PNum (0 # 2))]).
Proof. vm_compute. repeat split. Qed.

(** ** Stage A of task3 resumes by count *)

(** C6.  Three samples, the teacher fails on the second one during the first
    run.  The exception is caught and the third sample is processed, so the
    knowledge file holds the records of samples 0 and 2.  The next run finds
    two records, skips the positions 0 and 1 and processes position 2 again:
    the failed sample is not retried and sample 2 is recorded twice. *)
Theorem failed_sample_is_not_retried :
  let dataset := [task3_sample "m0" "A"; task3_sample "m1" "A"; task3_sample "m2" "A"] in
  let first := generate_knowledge_for_task3 no_json plain_teacher_prompt flaky_chat
                 O [] dataset in
  let second := generate_knowledge_for_task3 no_json plain_teacher_prompt flaky_chat
                  (ks_model first) (ks_file first) dataset in
  map (field_of "material") (ks_file first) = [key "m0"; key "m2"]
  /\ map (field_of "material") (ks_file second) = [key "m0"; key "m2"; key "m2"]
  /\ map (field_of "material") (ks_results second) = [key "m0"; key "m2"; key "m2"].
Proof. vm_compute. repeat split. Qed.

(** ** The summary of task3 *)

Section Task3Summary.

Variable upper : text -> text.
Variable json_loads : text -> res pyval.
Variable json_dumps : pyval -> text.
Variable build_teacher_prompt : pyval -> pyval -> text * text.
Variable build_guided_student_prompt : pyval -> pyval -> text -> text * text.
Variable Teacher : Type.
Variable teacher_chat : Teacher -> text -> option text -> res text * Teacher.
Variable Student : Type.
Variable student_load : text -> res Student.
Variable student_chat : Student -> text -> option text -> res text * Student.

Let student_run := run_evaluation_student upper json_dumps
                     build_guided_student_prompt student_chat.
Let students := student_loop upper json_dumps build_guided_student_prompt
                  student_load student_chat.


Lemma run_evaluation_student_overall name student data output test_time d st :
  student_run name student data output test_time = (Ok d, st) ->
  exists q, d = [(key "overall", PNum q); (key "model_name", PStr name)].
Proof.
  unfold student_run, run_evaluation_student.
  destruct (run_loop _ _ _ _ _ _) as [[e|] st']; [discriminate|].
  unfold calculate_overall_accuracy.
  destruct (collect _ _) as [overall_data|]; simpl; [|discriminate].
  destruct (bucket_accuracy upper overall_data) as [q|]; simpl; [|discriminate].
  intros H. injection H as <- _. now exists q.
Qed.


Lemma student_loop_scores data test_time :
  forall names acc fs d fs',
    NoDup names ->
    students names data test_time acc fs = (Ok d, fs') ->
    exists qs, Forall2 (student_score upper json_dumps build_guided_student_prompt
                  student_load student_chat data test_time fs) names qs
               /\ d = add_scores acc names qs.
Proof.
  induction names as [|name rest IH]; intros acc fs d fs' Hnd H.
  - simpl in H. injection H as <- _. exists []. split; [constructor|reflexivity].
  - unfold students in H. simpl in H.
    destruct (student_load name) as [student|] eqn:Hload; [|discriminate].
    fold student_run in H.
    destruct (student_run name student data (fs name) test_time) as [r st] eqn:Hrun.
    destruct r as [score|]; simpl in H; [|discriminate].
    destruct (run_evaluation_student_overall _ _ _ _ _ Hrun) as [q ->].
    change (dict_get _ (key "overall")) with (Ok (PNum q)) in H.
    cbv iota in H. inversion Hnd as [|? ? Hnotin Hnd']; subst.
    apply IH in H as [qs [Hqs ->]]; [|assumption].
    exists (q :: qs). split; [|reflexivity].
    constructor.
    + exists student, st. unfold student_run in Hrun. rewrite Hrun. auto.
    + clear - Hqs Hnotin.
      induction Hqs as [|n q' ns qs' Hn Hrest IHq]; constructor.
      * destruct Hn as [s [st' [Hl [Hf Hs]]]]. exists s, st'.
        unfold write_file in Hf, Hs.
        assert (E : text_eqb n name = false).
        { destruct (text_eqb n name) eqn:E; [|reflexivity].
          apply text_eqb_eq in E. subst. exfalso. apply Hnotin. now left. }
        rewrite E in Hf, Hs. auto.
      * apply IHq. intros Hin. apply Hnotin. now right.
Qed.

Lemma roster_NoDup : NoDup roster.
Proof.
  unfold roster.
  repeat (constructor; [simpl; intros H;
    repeat (destruct H as [H|H]; [vm_compute in H; discriminate|]); exact H|]).
  constructor.
Qed.


(** C7.  When [run_evaluation_task3] returns a summary, the summary is the
    dictionary with the two keys "overall" and "student_scores";
    "student_scores" has one number per student of the roster, in the order
    of the roster and under no other key, each the overall accuracy
    [run_evaluation_student] returned for that student; and "overall" is
    the arithmetic mean of these numbers. *)
Theorem task3_summary_shape (model : Teacher)
    (knowledge_output evaluation_data : list dict) (fs : files) (test_time : nat)
    (summary : pyval) (after : list dict * files) :
  run_evaluation_task3 upper json_loads json_dumps build_teacher_prompt
    build_guided_student_prompt teacher_chat student_load student_chat
    model knowledge_output evaluation_data fs test_time = (Ok summary, after) ->
  exists (mean : Q) (scores : list Q),
    summary = PDict [(key "overall", PNum mean);
                     (key "student_scores",
                      PDict (combine (map PStr roster) (map PNum scores)))]
    /\ Forall2 (student_score upper json_dumps build_guided_student_prompt
                  student_load student_chat
                  (ks_results (generate_knowledge_for_task3 json_loads
                     build_teacher_prompt teacher_chat model knowledge_output
                     evaluation_data))
                  test_time fs) roster scores
    /\ (mean == arith_mean scores)%Q.
Proof.
  unfold run_evaluation_task3.
  set (ks := generate_knowledge_for_task3 _ _ _ _ _ _).
  fold students.
  destruct (students roster (ks_results ks) test_time [] fs) as [r fs'] eqn:Hloop.
  destruct r as [d|]; simpl; [|discriminate].
  apply student_loop_scores in Hloop as [qs [Hqs ->]]; [|apply roster_NoDup].
  assert (Hlen : length qs = length roster).
  { symmetry. eapply Forall2_length; eauto. }
  destruct qs as [|q1 [|q2 [|q3 [|q4 [|q5 [|? ?]]]]]]; try discriminate Hlen.
  vm_compute add_scores.
  intros H. unfold mean_of in H. simpl in H. injection H as <- _.
  eexists. exists [q1; q2; q3; q4; q5]. split; [reflexivity|].
  split; [exact Hqs|].
  unfold arith_mean. simpl. field.
Qed.

End Task3Summary.


Lemma task3_summary_shape_witness :
  fst demo_task3 = Ok demo_task3_summary
  /\ exists (mean : Q) (scores : list Q),
       demo_task3_summary
       = PDict [(key "overall", PNum mean);
                (key "student_scores",
                 PDict (combine (map PStr roster) (map PNum scores)))]
       /\ Forall2 (student_score ascii_upper plain_dumps plain_student_prompt
                     (fun _ => Ok tt) (constant_chat (py "\boxed{A}"))
                     (ks_results (generate_knowledge_for_task3 no_json
                        plain_teacher_prompt (constant_chat (py "k")) tt []
                        [task3_sample "m0" "A"; task3_sample "m1" "B"]))
                     1 (fun _ => [])) roster scores
       /\ (mean == arith_mean scores)%Q.
Proof.
  split.
  - vm_compute. reflexivity.
  - apply (@task3_summary_shape ascii_upper no_json plain_dumps plain_teacher_prompt
             plain_student_prompt unit (constant_chat (py "k")) unit
             (fun _ => Ok tt) (constant_chat (py "\boxed{A}")) tt []
             [task3_sample "m0" "A"; task3_sample "m1" "B"] (fun _ => []) 1%nat
             demo_task3_summary (snd demo_task3)).
    change (demo_task3 = (Ok demo_task3_summary, snd demo_task3)).
    rewrite (surjective_pairing demo_task3) at 1.
    apply f_equal2; [vm_compute; reflexivity | reflexivity].
Defined.

(** ** Substrings *)

Lemma startswith_contains (m s : text) :
  startswith m s = true -> contains m s = true.
Proof.
  intros H. unfold contains. destruct s; simpl; now rewrite H.
Qed.

Lemma contains_cons (m : text) (x : char) (s : text) :
  contains m s = true -> contains m (x :: s) = true.
Proof.
  unfold contains. simpl. destruct (startswith m (x :: s)); [reflexivity|].
  now destruct (find m s).
Qed.

Lemma contains_app_r (m p s : text) :
  contains m s = true -> contains m (p ++ s) = true.
Proof.
  intros H. induction p as [|x p IH]; [exact H|].
  simpl. now apply contains_cons.
Qed.

Lemma not_contains_startswith (m s : text) :
  contains m s = false -> startswith m s = false.
Proof.
  intros H. destruct (startswith m s) eqn:E; [|reflexivity].
  apply startswith_contains in E. congruence.
Qed.

Lemma not_contains_tail (m : text) (x : char) (s : text) :
  contains m (x :: s) = false -> contains m s = false.
Proof.
  intros H. destruct (contains m s) eqn:E; [|reflexivity].
  apply (contains_cons m x) in E. congruence.
Qed.

(** ** The matcher *)

Lemma orelse_some {A : Type} (x y : option A) (v : A) :
  orelse x y = Some v -> x = Some v \/ y = Some v.
Proof. destruct x; simpl; auto. Qed.

Lemma rmatch_lit {A : Type} (m s : text) (c : caps) (k : text -> caps -> option A) :
  rmatch (lit m) s c k
  = if startswith m s then k (skipn (length m) s) c else None.
Proof.
  revert s. induction m as [|x m IH]; intros s; [reflexivity|].
  simpl. destruct s as [|y s]; [reflexivity|].
  destruct (x =? y); simpl; [apply IH | reflexivity].
Qed.

Lemma rep_greedy_suffix {A : Type} (p : char -> bool) (k : text -> option A) :
  forall s v, rep_greedy p k s = Some v -> exists pre s', s = pre ++ s' /\ k s' = Some v.
Proof.
  induction s as [|x s IH]; intros v H; simpl in H.
  - now exists [], [].
  - destruct (p x).
    + apply orelse_some in H as [H|H].
      * destruct (IH _ H) as [pre [s' [-> Hk]]]. now exists (x :: pre), s'.
      * now exists [], (x :: s).
    + now exists [], (x :: s).
Qed.

Lemma rep_lazy_suffix {A : Type} (p : char -> bool) (k : text -> option A) :
  forall s v, rep_lazy p k s = Some v -> exists pre s', s = pre ++ s' /\ k s' = Some v.
Proof.
  induction s as [|x s IH]; intros v H; simpl in H;
    apply orelse_some in H as [H|H]; try discriminate.
  - now exists [], [].
  - now exists [], (x :: s).
  - destruct (p x); [|discriminate].
    destruct (IH _ H) as [pre [s' [-> Hk]]]. now exists (x :: pre), s'.
Qed.

(** A successful match runs its continuation on a suffix of the text. *)
Lemma rmatch_suffix (r : regex) :
  forall (A : Type) (s : text) (c : caps) (k : text -> caps -> option A) (v : A),
    rmatch r s c k = Some v ->
    exists pre s' c', s = pre ++ s' /\ k s' c' = Some v.
Proof.
  induction r as [|p|a IHa b IHb|a IHa b IHb|a IHa|g p|a IHa|i a IHa|a IHa|];
    intros A s c k v H; simpl in H.
  - now exists [], s, c.
  - destruct s as [|x s]; [discriminate|]. destruct (p x); [|discriminate].
    now exists [x], s, c.
  - apply IHa in H as [pre [s1 [c1 [-> H]]]].
    apply IHb in H as [pre' [s2 [c2 [-> H]]]].
    exists (pre ++ pre'), s2, c2. now rewrite app_assoc.
  - apply orelse_some in H as [H|H]; [now apply IHa in H | now apply IHb in H].
  - apply orelse_some in H as [H|H]; [now apply IHa in H|].
    now exists [], s, c.
  - destruct g.
    + apply rep_greedy_suffix in H as [pre [s' [-> H]]]. now exists pre, s', c.
    + apply rep_lazy_suffix in H as [pre [s' [-> H]]]. now exists pre, s', c.
  - revert H. generalize (length s) at 1. intros n. revert s c.
    induction n as [|n IHn]; intros s c H.
    + now exists [], s, c.
    + apply orelse_some in H as [H|H]; [|now exists [], s, c].
      apply IHa in H as [pre [s1 [c1 [-> H]]]].
      destruct (length s1 <? length (pre ++ s1))%nat; [|discriminate].
      apply IHn in H as [pre' [s2 [c2 [-> H]]]].
      exists (pre ++ pre'), s2, c2. now rewrite app_assoc.
  - apply IHa in H as [pre [s1 [c1 [-> H]]]]. eauto.
  - destruct (rmatch a s c (fun _ _ => Some tt)); [|discriminate].
    now exists [], s, c.
  - destruct s as [|x s]; [now exists [], [], c|].
    destruct ((x =? 10) && negb (nonempty s)); [|discriminate].
    now exists [], (x :: s), c.
Qed.


Lemma requires_contains (m : text) (r : regex) :
  requires m r ->
  forall (A : Type) (s : text) (c : caps) (k : text -> caps -> option A) (v : A),
    rmatch r s c k = Some v -> contains m s = true.
Proof.
  induction 1 as [|a b _ IH|a b _ IH|a b _ IHa _ IHb|i a _ IH];
    intros A s c k v H.
  - rewrite rmatch_lit in H. apply startswith_contains.
    now destruct (startswith m s).
  - simpl in H. eapply IH; eauto.
  - simpl in H. apply rmatch_suffix in H as [pre [s1 [c1 [-> H]]]].
    apply contains_app_r. eapply IH; eauto.
  - simpl in H. apply orelse_some in H as [H|H]; eauto.
  - simpl in H. eapply IH; eauto.
Qed.

Lemma scan_without_marker (m : text) (r : regex) :
  requires m r ->
  forall n s, contains m s = false -> scan n r s = [].
Proof.
  intros Hreq. induction n as [|n IH]; intros s Hs; [reflexivity|].
  simpl. destruct (match_here r s) as [[s' c]|] eqn:E.
  - unfold match_here in E. eapply requires_contains in E; eauto. congruence.
  - destruct s as [|x s]; [reflexivity|].
    apply IH. eapply not_contains_tail; eauto.
Qed.

Lemma findall_without_marker (m : text) (r : regex) (s : text) :
  requires m r -> contains m s = false -> findall r s = [].
Proof. intros. unfold findall. eapply scan_without_marker; eauto. Qed.

Lemma boxed_re_requires : requires (py "\boxed{") boxed_re.
Proof. unfold boxed_re. apply requires_cat_l, requires_lit. Qed.

Lemma pattern_codeblock_requires : requires knowledge_key pattern_codeblock.
Proof.
  unfold pattern_codeblock.
  do 2 apply requires_cat_r. apply requires_cat_l, requires_grp.
  do 2 apply requires_cat_r. apply requires_cat_l, requires_lit.
Qed.

Lemma pattern_multiline_requires : requires knowledge_key pattern_multiline.
Proof.
  unfold pattern_multiline. apply requires_grp.
  do 2 apply requires_cat_r. apply requires_cat_l, requires_lit.
Qed.

Lemma pattern_inline_requires : requires knowledge_key pattern_inline.
Proof.
  unfold pattern_inline. apply requires_cat_l, requires_grp.
  apply requires_cat_r, requires_cat_l, requires_lit.
Qed.

(** ** The extractors never raise *)

Lemma index_last_cons {A : Type} (x : A) (l : list A) :
  exists y, index_last (x :: l) = Ok y.
Proof.
  unfold index_last. simpl. destruct (rev l) as [|y l']; simpl; eauto.
Qed.

Lemma split_cons (sep s : text) : exists piece rest, split sep s = piece :: rest.
Proof.
  unfold split. destruct (length s); simpl; [eauto|].
  destruct (find sep s); eauto.
Qed.

Lemma fallback_knowledge_total (cleaned_text : text) :
  exists knowledge, fallback_knowledge cleaned_text = Ok knowledge.
Proof.
  unfold fallback_knowledge.
  destruct (contains knowledge_key cleaned_text); simpl; [|eauto].
  destruct (split_cons knowledge_key cleaned_text) as [piece [rest ->]].
  destruct (index_last_cons piece rest) as [y ->]. simpl. eauto.
Qed.

Lemma extract_knowledge_from_text_total (json_loads : text -> res pyval) (t : text) :
  exists v, extract_knowledge_from_text json_loads t = Ok v.
Proof.
  unfold extract_knowledge_from_text.
  destruct (bind _ _); [eauto|].
  destruct (fallback_knowledge_total (clean_fences t)) as [k ->]. simpl. eauto.
Qed.

Lemma extract_last_knowledge_object_total (json_loads : text -> res pyval) (t : text) :
  exists v, extract_last_knowledge_object json_loads t = Ok v.
Proof.
  unfold extract_last_knowledge_object.
  destruct (map (group 1) (findall pattern_codeblock t)) as [|m1 l1].
  - destruct (map (group 0) (findall pattern_multiline t)) as [|m2 l2].
    + destruct (map (group 0) (findall pattern_inline t)) as [|m3 l3]; [eauto|].
      destruct (index_last_cons m3 l3) as [y ->]. simpl.
      apply extract_knowledge_from_text_total.
    + destruct (index_last_cons m2 l2) as [y ->]. simpl.
      apply extract_knowledge_from_text_total.
  - destruct (index_last_cons m1 l1) as [y ->]. simpl.
    apply extract_knowledge_from_text_total.
Qed.

Lemma extract_last_boxed_answer_total (t : text) :
  exists o, extract_last_boxed_answer t = Ok o.
Proof.
  unfold extract_last_boxed_answer.
  destruct (extracted_options (findall boxed_re t)) as [|x l]; [eauto|].
  destruct (index_last_cons x l) as [y ->]. simpl. eauto.
Qed.

(** C9.  Neither extractor raises, whatever the text and the JSON decoder; a
    text without the marker "\boxed{" has no boxed answer, and for a text
    without the marker ["knowledge":] the knowledge extractor returns the
    empty string. *)
Theorem extractors_fail_soft (json_loads : text -> res pyval) (t : text) :
  (exists o, extract_last_boxed_answer t = Ok o)
  /\ (exists v, extract_last_knowledge_object json_loads t = Ok v)
  /\ (contains (py "\boxed{") t = false -> extract_last_boxed_answer t = Ok None)
  /\ (contains knowledge_key t = false ->
      extract_last_knowledge_object json_loads t = Ok (PStr [])).
Proof.
  split; [apply extract_last_boxed_answer_total|].
  split; [apply extract_last_knowledge_object_total|].
  split; intros H.
  - unfold extract_last_boxed_answer.
    now rewrite (@findall_without_marker _ _ t boxed_re_requires H).
  - unfold extract_last_knowledge_object.
    rewrite (@findall_without_marker _ _ t pattern_codeblock_requires H).
    rewrite (@findall_without_marker _ _ t pattern_multiline_requires H).
    now rewrite (@findall_without_marker _ _ t pattern_inline_requires H).
Qed.

Lemma extractors_fail_soft_witness :
  extract_last_boxed_answer (py "no answer here") = Ok None
  /\ extract_last_knowledge_object no_json (py "no answer here") = Ok (PStr []).
Proof.
  destruct (extractors_fail_soft no_json (py "no answer here"))
    as [_ [_ [Hboxed Hknowledge]]].
  split; [apply Hboxed | apply Hknowledge]; reflexivity.
Defined.

(** ** The textual fallback of extract_knowledge_from_text *)

Lemma find_eq (sep s : text) :
  find sep s = if startswith sep s then Some O
               else match s with
                    | [] => None
                    | _ :: s' => option_map S (find sep s')
                    end.
Proof. destruct s; reflexivity. Qed.

Lemma startswith_app (m r : text) : startswith m (m ++ r) = true.
Proof. induction m as [|x m IH]; simpl; [reflexivity|]. now rewrite N.eqb_refl. Qed.

Lemma find_occurrence (sep pre rest : text) :
  exists i, find sep (pre ++ sep ++ rest) = Some i
            /\ (i <= length pre)%nat
            /\ startswith sep (skipn i (pre ++ sep ++ rest)) = true.
Proof.
  induction pre as [|x pre IH].
  - exists O. rewrite find_eq. simpl. rewrite startswith_app. auto.
  - rewrite find_eq. destruct (startswith sep ((x :: pre) ++ sep ++ rest)) eqn:E.
    + exists O. simpl. split; [reflexivity|]. split; [lia|exact E].
    + destruct IH as [i [Hf [Hi Hs]]]. exists (S i). simpl. rewrite Hf.
      split; [reflexivity|]. split; [lia|exact Hs].
Qed.

(** Two occurrences of ["knowledge":] do not overlap. *)
Lemma knowledge_key_no_overlap (u rest : text) :
  startswith knowledge_key (u ++ knowledge_key ++ rest) = true ->
  u = [] \/ (12 <= length u)%nat.
Proof.
  intros H. destruct u as [|x1 u]; [now left|]. right.
  do 11 (destruct u as [|? u];
    [exfalso; vm_compute knowledge_key in H; simpl in H;
     repeat first [discriminate H
                  | apply andb_prop in H; destruct H as [_ H]; simpl in H] |]).
  simpl. lia.
Qed.

Lemma split_fuel_without (n : nat) (sep s : text) :
  contains sep s = false -> split_fuel n sep s = [s].
Proof.
  unfold contains. intros H. destruct n; simpl; [reflexivity|].
  destruct (find sep s); [discriminate|reflexivity].
Qed.

Lemma index_last_skip {A : Type} (x y : A) (l : list A) :
  index_last l = Ok y -> index_last (x :: l) = Ok y.
Proof.
  unfold index_last. simpl. destruct (rev l); simpl; [discriminate|auto].
Qed.

Lemma split_fuel_last (n : nat) :
  forall pre tail,
    (length pre < n)%nat ->
    contains knowledge_key tail = false ->
    index_last (split_fuel n knowledge_key (pre ++ knowledge_key ++ tail)) = Ok tail.
Proof.
  induction n as [|n IH]; intros pre tail Hn Htail; [lia|].
  cbn [split_fuel].
  destruct (find_occurrence knowledge_key pre tail) as [i [-> [Hi Hs]]].
  assert (Hskip : skipn i (pre ++ knowledge_key ++ tail)
                  = skipn i pre ++ knowledge_key ++ tail).
  { rewrite skipn_app. replace (i - length pre)%nat with O by lia. reflexivity. }
  rewrite Nat.add_comm, <- skipn_skipn, Hskip. rewrite Hskip in Hs.
  apply index_last_skip.
  destruct (knowledge_key_no_overlap _ _ Hs) as [E|E].
  - rewrite E. change (skipn (length knowledge_key) ([] ++ knowledge_key ++ tail))
      with tail.
    now rewrite split_fuel_without.
  - rewrite skipn_app.
    replace (length knowledge_key - length (skipn i pre))%nat with O
      by (change (length knowledge_key) with 12%nat; lia).
    change (skipn 0 (knowledge_key ++ tail)) with (knowledge_key ++ tail).
    apply IH; [|assumption].
    rewrite !length_skipn. change (length knowledge_key) with 12%nat.
    rewrite length_skipn in E. lia.
Qed.

(** The last piece of [split] is the text after the last ["knowledge":]. *)
Lemma split_last (pre tail : text) :
  contains knowledge_key tail = false ->
  index_last (split knowledge_key (pre ++ knowledge_key ++ tail)) = Ok tail.
Proof.
  intros H. unfold split. apply split_fuel_last; [|assumption].
  rewrite !length_app. change (length knowledge_key) with 12%nat. lia.
Qed.

Lemma mem_char_quote (c : char) : mem_char c quote = (34 =? c).
Proof. unfold mem_char, quote. simpl. now rewrite orb_false_r, N.eqb_sym. Qed.

Lemma lstrip_quote_spec (s : text) :
  exists n, s = repeat 34 n ++ lstrip_chars quote s
            /\ startswith quote (lstrip_chars quote s) = false.
Proof.
  unfold lstrip_chars. induction s as [|c s IH].
  - now exists O.
  - cbn [drop_while]. rewrite mem_char_quote. destruct (34 =? c) eqn:E.
    + apply N.eqb_eq in E. subst c. destruct IH as [n [Hs Hq]].
      exists (S n). cbn [repeat app]. now rewrite <- Hs.
    + exists O. cbn [repeat app startswith quote]. now rewrite E.
Qed.

Lemma lstrip_quote_guard (s : text) :
  (if startswith quote s then lstrip_chars quote s else s) = lstrip_chars quote s.
Proof.
  destruct (startswith quote s) eqn:E; [reflexivity|].
  destruct s as [|c s]; [reflexivity|].
  unfold lstrip_chars. cbn [drop_while]. rewrite mem_char_quote.
  cbn [startswith quote] in E. rewrite andb_true_r in E. now rewrite E.
Qed.

Lemma rstrip_quote_guard (s : text) :
  (if endswith quote s then rstrip_chars quote s else s) = rstrip_chars quote s.
Proof.
  unfold endswith, rstrip_chars. change (rev quote) with quote.
  pose proof (lstrip_quote_guard (rev s)) as G.
  destruct (startswith quote (rev s)); [reflexivity|].
  now rewrite <- G, rev_involutive.
Qed.

Lemma rstrip_quote_spec (s : text) :
  exists m, s = rstrip_chars quote s ++ repeat 34 m
            /\ endswith quote (rstrip_chars quote s) = false.
Proof.
  destruct (lstrip_quote_spec (rev s)) as [m [Hs Hq]].
  exists m. unfold rstrip_chars, endswith. split.
  - rewrite <- (rev_involutive s) at 1. rewrite Hs at 1.
    rewrite rev_app_distr. f_equal.
    clear. induction m as [|m IH]; [reflexivity|].
    simpl. rewrite IH. clear. induction m; simpl; congruence.
  - rewrite rev_involutive. exact Hq.
Qed.

Lemma startswith_quote_prefix (x y : text) :
  startswith quote (x ++ y) = false -> startswith quote x = false.
Proof. destruct x as [|c x]; simpl; [reflexivity|]. now rewrite !andb_true_r. Qed.


(** The content [{"knowledge":""hi""], which is not JSON: the fallback
    returns [hi], without any of the four quotes, where one layer less would
    leave ["hi"]. *)
Lemma fallback_strips_more_than_one_layer :
  let content := py "{" ++ knowledge_key ++ quote ++ quote ++ py "hi" ++ quote ++ quote in
  extract_knowledge_from_text no_json content = Ok (PStr (py "hi"))
  /\ one_layer_heuristic content = quote ++ py "hi" ++ quote
  /\ extract_knowledge_from_text no_json content
     <> Ok (PStr (one_layer_heuristic content)).
Proof. vm_compute. repeat split. discriminate. Qed.

(** C10 (amended).  When the cleaned content does not decode to a JSON
    object, the result is the empty string if the content has no
    ["knowledge":]; otherwise it is the text after the last ["knowledge":],
    stripped of its surrounding whitespace and then of every leading and
    every trailing double quote: the stripped text is some quotes, the
    result, and some quotes, and the result neither starts nor ends with a
    double quote. *)
Theorem knowledge_fallback_strips_all_quotes
    (json_loads : text -> res pyval) (t : text) (e : exn) :
  (knowledge_data <- json_loads (clean_fences t) ;; get_knowledge knowledge_data)
  = Raise e ->
  (contains knowledge_key (clean_fences t) = false ->
   extract_knowledge_from_text json_loads t = Ok (PStr []))
  /\ (forall pre tail,
        clean_fences t = pre ++ knowledge_key ++ tail ->
        contains knowledge_key tail = false ->
        exists result n m,
          extract_knowledge_from_text json_loads t = Ok (PStr result)
          /\ strip tail = repeat 34 n ++ result ++ repeat 34 m
          /\ startswith quote result = false
          /\ endswith quote result = false).
Proof.
  intros Hdecode. unfold extract_knowledge_from_text. cbv zeta. rewrite Hdecode.
  unfold fallback_knowledge. split.
  - intros ->. reflexivity.
  - intros pre tail -> Htail.
    assert (Hc : contains knowledge_key (pre ++ knowledge_key ++ tail) = true)
      by apply contains_app_r, startswith_contains, startswith_app.
    rewrite Hc, split_last by assumption. cbn [bind].
    rewrite lstrip_quote_guard, rstrip_quote_guard.
    destruct (lstrip_quote_spec (strip tail)) as [n [Hn Hstart]].
    destruct (rstrip_quote_spec (lstrip_chars quote (strip tail))) as [m [Hm Hend]].
    exists (rstrip_chars quote (lstrip_chars quote (strip tail))), n, m.
    split; [reflexivity|]. split; [|split].
    + now rewrite <- Hm.
    + rewrite Hm in Hstart. now apply startswith_quote_prefix in Hstart.
    + exact Hend.
Qed.

Lemma knowledge_fallback_strips_all_quotes_witness :
  exists result n m,
    extract_knowledge_from_text no_json
      (py "{" ++ knowledge_key ++ py " " ++ quote ++ quote ++ py "hi" ++ quote ++ quote)
    = Ok (PStr result)
    /\ strip (py " " ++ quote ++ quote ++ py "hi" ++ quote ++ quote)
       = repeat 34 n ++ result ++ repeat 34 m
    /\ startswith quote result = false
    /\ endswith quote result = false.
Proof.
  destruct (@knowledge_fallback_strips_all_quotes no_json
              (py "{" ++ knowledge_key ++ py " " ++ quote ++ quote ++ py "hi"
               ++ quote ++ quote)
              JSONDecodeError eq_refl) as [_ H].
  apply (H (py "{") (py " " ++ quote ++ quote ++ py "hi" ++ quote ++ quote));
    reflexivity.
Defined.

(** ** Boxed spans under the matcher *)

Unset Implicit Arguments.

Lemma rep_greedy_all {A : Type} (p : char -> bool) (k : text -> option A) (v : A) :
  forall body tail,
    k tail = Some v ->
    forallb p body = true ->
    match tail with [] => True | x :: _ => p x = false end ->
    rep_greedy p k (body ++ tail) = Some v.
Proof.
  induction body as [|b body IH]; intros tail Hk Hb Ht.
  - simpl. destruct tail as [|x tail]; [exact Hk|]. simpl. now rewrite Ht.
  - simpl in Hb. apply andb_prop in Hb as [Hb1 Hb2].
    simpl. rewrite Hb1. now rewrite (IH tail Hk Hb2 Ht).
Qed.

Lemma skipn_length_app {A : Type} (m s : list A) : skipn (length m) (m ++ s) = s.
Proof. induction m; simpl; auto. Qed.

Lemma rmatch_cat_lit {A : Type} (m : text) (r : regex) (s : text) (c : caps)
    (k : text -> caps -> option A) :
  rmatch (Cat (lit m) r) (m ++ s) c k = rmatch r s c k.
Proof.
  cbn [rmatch]. now rewrite rmatch_lit, startswith_app, skipn_length_app.
Qed.

Lemma rmatch_cat_lit_mismatch {A : Type} (m : text) (r : regex) (s : text) (c : caps)
    (k : text -> caps -> option A) :
  startswith m s = false -> rmatch (Cat (lit m) r) s c k = None.
Proof. intros H. cbn [rmatch]. now rewrite rmatch_lit, H. Qed.

Lemma rmatch_ws_skip {A : Type} (r : regex) (x : char) (s : text) (c : caps)
    (k : text -> caps -> option A) :
  is_space x = false -> rmatch (Cat ws r) (x :: s) c k = rmatch r (x :: s) c k.
Proof. intros H. unfold ws. cbn [rmatch rep_greedy]. now rewrite H. Qed.

Lemma match_boxed (s : text) :
  match_here boxed_re (py "\boxed{" ++ s)
  = rmatch (Alt boxed_alt_text (Alt boxed_alt_lettered boxed_alt_bare)) s []
      (fun s' c' => match s' with
                    | x :: s'' => if 125 =? x then Some (s'', (1%nat, firstn (length s - length s') s) :: c') else None
                    | [] => None
                    end).
Proof.
  unfold match_here, boxed_re. rewrite rmatch_cat_lit. reflexivity.
Qed.

Lemma capture_prefix (p s : text) : firstn (length (p ++ s) - length s) (p ++ s) = p.
Proof.
  rewrite length_app. replace (length p + length s - length s)%nat with (length p) by lia.
  rewrite firstn_app, firstn_all. replace (length p - length p)%nat with O by lia.
  simpl. apply app_nil_r.
Qed.

Lemma match_text_span (body rest : text) :
  forallb not_rbrace body = true ->
  exists g1,
  match_here boxed_re (py "\boxed{" ++ py "\text{" ++ body ++ py "}}" ++ rest)
  = Some (rest, [(1%nat, g1); (2%nat, body)]).
Proof.
  intros Hbody. eexists. rewrite match_boxed.
  cbn [rmatch]. unfold boxed_alt_text at 1.
  change (py "\text{" ++ body ++ py "}}" ++ rest) with (92 :: (skipn 1 (py "\text{") ++ body ++ py "}}" ++ rest)) at 1.
  rewrite rmatch_ws_skip by reflexivity.
  change (92 :: (skipn 1 (py "\text{") ++ body ++ py "}}" ++ rest)) with (py "\text{" ++ body ++ py "}}" ++ rest).
  rewrite rmatch_cat_lit. cbn [rmatch].
  change (py "}}" ++ rest) with (125 :: 125 :: rest).
  erewrite rep_greedy_all; [reflexivity| |exact Hbody|reflexivity].
  unfold chr. cbn [rmatch]. rewrite !N.eqb_refl, capture_prefix. reflexivity.
Qed.

Lemma A_D_cases (l : char) :
  is_A_D l = true -> l = 65 \/ l = 66 \/ l = 67 \/ l = 68.
Proof.
  unfold is_A_D. intros H. apply andb_prop in H as [H1 H2].
  apply N.leb_le in H1, H2. lia.
Qed.

Lemma A_D_facts (l : char) :
  is_A_D l = true ->
  is_space l = false /\ (92 =? l) = false /\ (123 =? l) = false /\ (125 =? l) = false.
Proof.
  intros H. destruct (A_D_cases l H) as [-> | [-> | [-> | ->]]]; repeat split.
Qed.

Lemma boxed_alt_text_fails {A : Type} (l : char) (s : text) (c : caps)
    (k : text -> caps -> option A) :
  is_A_D l = true -> rmatch boxed_alt_text (l :: s) c k = None.
Proof.
  intros H. destruct (A_D_facts l H) as [Hs [Hb _]].
  unfold boxed_alt_text. rewrite rmatch_ws_skip by assumption.
  apply rmatch_cat_lit_mismatch. change (py "\text{") with (92 :: skipn 1 (py "\text{")).
  cbn [startswith]. now rewrite Hb.
Qed.

Lemma match_bare_span (l : char) (rest : text) :
  is_A_D l = true ->
  exists c, match_here boxed_re (py "\boxed{" ++ [l] ++ py "}" ++ rest) = Some (rest, c).
Proof.
  intros Hl. destruct (A_D_facts l Hl) as [Hs [Hb [Ho Hc]]].
  rewrite match_boxed. cbn [rmatch app]. change (py "}" ++ rest) with (125 :: rest).
  rewrite boxed_alt_text_fails by assumption. cbn [orelse].
  unfold boxed_alt_lettered at 1. rewrite rmatch_ws_skip by assumption.
  unfold chr. cbn [rmatch]. rewrite Ho, Hl. cbn [orelse].
  change (dot_or_space 125) with false. cbn [orelse].
  unfold boxed_alt_bare. rewrite rmatch_ws_skip by assumption.
  unfold ws. cbn [rmatch rep_greedy]. rewrite Hl.
  change (is_space 125) with false. cbn iota. rewrite N.eqb_refl. eauto.
Qed.

Lemma rep_lazy_skip {A : Type} (p : char -> bool) (k : text -> option A) :
  forall body tail,
    forallb p body = true ->
    (forall b s, In b body -> k (b :: s) = None) ->
    rep_lazy p k (body ++ tail) = rep_lazy p k tail.
Proof.
  induction body as [|b body IH]; intros tail Hp Hk; [reflexivity|].
  simpl in Hp. apply andb_prop in Hp as [Hb Hp].
  cbn [app rep_lazy]. rewrite Hk by now left. rewrite Hb. cbn [orelse].
  apply IH; [assumption|]. intros. apply Hk. now right.
Qed.

Lemma rep_lazy_here {A : Type} (p : char -> bool) (k : text -> option A) (s : text) (v : A) :
  k s = Some v -> rep_lazy p k s = Some v.
Proof. intros H. destruct s; cbn [rep_lazy]; now rewrite H. Qed.

Lemma match_lettered_span (l sep : char) (body rest : text) :
  is_A_D l = true ->
  dot_or_space sep = true ->
  forallb (fun c => not_rbrace c && dot c) body = true ->
  startswith [125] rest = false ->
  exists c,
    match_here boxed_re (py "\boxed{" ++ l :: sep :: body ++ py "}" ++ rest)
    = Some (rest, c).
Proof.
  intros Hl Hsep Hbody Hrest. destruct (A_D_facts l Hl) as [Hs [Hb [Ho Hc]]].
  rewrite match_boxed. cbn [rmatch]. change (py "}" ++ rest) with (125 :: rest).
  rewrite boxed_alt_text_fails by assumption. cbn [orelse].
  unfold boxed_alt_lettered at 1. rewrite rmatch_ws_skip by assumption.
  unfold chr. cbn [rmatch]. rewrite Ho, Hl, Hsep. cbn [orelse].
  rewrite rep_lazy_skip.
  - erewrite rep_lazy_here.
    + cbn [orelse]. eauto.
    + rewrite !N.eqb_refl. destruct rest as [|x rest']; [reflexivity|].
      cbn [startswith] in Hrest. rewrite andb_true_r in Hrest. rewrite Hrest.
      reflexivity.
  - rewrite forallb_forall in Hbody. apply forallb_forall. intros b Hin.
    apply Hbody in Hin. now apply andb_prop in Hin as [_ Hin].
  - intros b s Hin. rewrite forallb_forall in Hbody. apply Hbody in Hin.
    apply andb_prop in Hin as [Hin _]. unfold not_rbrace in Hin.
    apply negb_true_iff in Hin. rewrite N.eqb_sym in Hin.
    rewrite !Hin. reflexivity.
Qed.

Lemma match_filler (c : char) (rest : text) :
  c <> 92 -> match_here boxed_re (c :: rest) = None.
Proof.
  intros H. unfold match_here, boxed_re. apply rmatch_cat_lit_mismatch.
  change (py "\boxed{") with (92 :: skipn 1 (py "\boxed{")). cbn [startswith].
  destruct (92 =? c) eqn:E; [|reflexivity]. apply N.eqb_eq in E. congruence.
Qed.

Lemma scan_fuel (r : regex) :
  forall n m s, (length s < n)%nat -> (length s < m)%nat -> scan n r s = scan m r s.
Proof.
  induction n as [|n IH]; intros m s Hn Hm; [lia|].
  destruct m as [|m]; [lia|]. cbn [scan].
  assert (Hnext : match s with [] => [] | _ :: t => scan n r t end
                  = match s with [] => [] | _ :: t => scan m r t end).
  { destruct s as [|x t]; [reflexivity|]. simpl in Hn, Hm. apply IH; lia. }
  rewrite Hnext. destruct (match_here r s) as [[s' c]|]; [|reflexivity].
  destruct (length s' <? length s)%nat eqn:E; [|reflexivity].
  apply Nat.ltb_lt in E. f_equal. apply IH; lia.
Qed.

Lemma findall_match (r : regex) (s s' : text) (c : caps) :
  match_here r s = Some (s', c) -> (length s' < length s)%nat ->
  findall r s = c :: findall r s'.
Proof.
  intros H Hlen. unfold findall.
  replace (scan (S (length s')) r s') with (scan (length s) r s')
    by (apply scan_fuel; lia).
  apply Nat.ltb_lt in Hlen as E.
  remember (length s) as n eqn:En. destruct n as [|n]; [lia|].
  cbn [scan]. now rewrite H, <- En, E.
Qed.

Lemma findall_skip (r : regex) (x : char) (s : text) :
  match_here r (x :: s) = None -> findall r (x :: s) = findall r s.
Proof. intros H. unfold findall. cbn [scan length]. now rewrite H. Qed.

Lemma span_match (w rest : text) :
  boxed_span w -> startswith [125] rest = false ->
  exists c, match_here boxed_re (w ++ rest) = Some (rest, c).
Proof.
  intros [l Hl|body Hbody|l sep body Hl Hsep Hbody] Hrest.
  - rewrite <- !app_assoc. now apply match_bare_span.
  - rewrite <- !app_assoc. destruct (match_text_span body rest Hbody) as [g1 H]. eauto.
  - rewrite <- app_assoc. cbn [app]. rewrite <- app_assoc.
    now apply match_lettered_span.
Qed.

Lemma span_head (w : text) :
  boxed_span w -> exists w', w = 92 :: w'.
Proof. intros [l Hl|body Hbody|l sep body Hl Hsep Hbody]; eexists; reflexivity. Qed.

Lemma piece_head (w rest : text) :
  piece w -> startswith [125] (w ++ rest) = false.
Proof.
  intros [w' Hw|c Hb Hc].
  - destruct (span_head w' Hw) as [w'' ->]. reflexivity.
  - cbn [app startswith]. destruct (125 =? c) eqn:E; [|reflexivity].
    apply N.eqb_eq in E. congruence.
Qed.

Lemma pieces_head (pieces : list text) (rest : text) :
  Forall piece pieces -> startswith [125] rest = false ->
  startswith [125] (concat pieces ++ rest) = false.
Proof.
  intros H Hrest. destruct H as [|w ws Hw Hws]; [exact Hrest|].
  cbn [concat]. rewrite <- app_assoc. now apply piece_head.
Qed.

Lemma piece_scan (w rest : text) :
  piece w -> startswith [125] rest = false ->
  exists opts,
    extracted_options (findall boxed_re (w ++ rest))
    = opts ++ extracted_options (findall boxed_re rest).
Proof.
  intros [w' Hw|c Hb Hc] Hrest.
  - destruct (span_match w' rest Hw Hrest) as [caps H].
    rewrite (findall_match boxed_re (w' ++ rest) rest caps H).
    + cbn [extracted_options]. destruct (match_content caps) as [x|].
      * now exists [x].
      * now exists [].
    + destruct (span_head w' Hw) as [w'' ->]. rewrite length_app. simpl. lia.
  - exists []. cbn [app]. rewrite findall_skip; [reflexivity|].
    now apply match_filler.
Qed.

Lemma pieces_scan (pieces : list text) (rest : text) :
  Forall piece pieces -> startswith [125] rest = false ->
  exists opts,
    extracted_options (findall boxed_re (concat pieces ++ rest))
    = opts ++ extracted_options (findall boxed_re rest).
Proof.
  intros H Hrest. induction H as [|w ws Hw Hws IH].
  - now exists [].
  - destruct IH as [opts IH]. cbn [concat]. rewrite <- app_assoc.
    destruct (piece_scan w (concat ws ++ rest) Hw) as [o Ho].
    { now apply pieces_head. }
    exists (o ++ opts). now rewrite Ho, IH, app_assoc.
Qed.

Lemma index_last_app {A : Type} (a : list A) (x : A) (l : list A) :
  index_last (a ++ x :: l) = index_last (x :: l).
Proof.
  induction a as [|y a IH]; [reflexivity|].
  cbn [app]. destruct (index_last_cons x l) as [z Hz].
  rewrite Hz in IH |- *. now apply index_last_skip.
Qed.

(** C4.  A text in which the scan finds no boxed span has no answer; and in
    front of a text [final] from which a label is extracted (and which does
    not start with a closing brace), any sequence of well-formed boxed spans
    and plain characters leaves the extracted label unchanged: the last span
    decides. *)
Theorem last_boxed_span_wins :
  (forall t, findall boxed_re t = [] -> extract_last_boxed_answer t = Ok None)
  /\ (forall (pieces : list text) (final label : text),
        Forall piece pieces ->
        startswith (py "}") final = false ->
        extract_last_boxed_answer final = Ok (Some label) ->
        extract_last_boxed_answer (concat pieces ++ final) = Ok (Some label)).
Proof.
  split.
  - intros t H. unfold extract_last_boxed_answer. now rewrite H.
  - intros pieces final label Hp Hf H.
    destruct (pieces_scan pieces final Hp Hf) as [opts Ho].
    unfold extract_last_boxed_answer in *. rewrite Ho.
    destruct (extracted_options (findall boxed_re final)) as [|x l]; [discriminate|].
    rewrite index_last_app.
    destruct opts; exact H.
Qed.


Lemma drop_while_spaces (wsp : text) (l : char) (more : text) :
  forallb is_space wsp = true -> is_space l = false ->
  drop_while is_space (wsp ++ l :: more) = l :: more.
Proof.
  intros Hw Hl. induction wsp as [|c wsp IH]; cbn [app drop_while].
  - now rewrite Hl.
  - cbn [forallb] in Hw. apply andb_prop in Hw as [Hc Hw]. rewrite Hc. now apply IH.
Qed.

Lemma drop_while_app_last (p : char -> bool) (s : text) (x : char) :
  p x = false -> drop_while p (s ++ [x]) = drop_while p s ++ [x].
Proof.
  intros Hx. induction s as [|c s IH]; cbn [app drop_while].
  - now rewrite Hx.
  - destruct (p c); [exact IH | reflexivity].
Qed.

Lemma drop_while_suffix (p : char -> bool) (s : text) :
  exists pre, s = pre ++ drop_while p s.
Proof.
  induction s as [|c s [pre IH]]; [now exists []|].
  cbn [drop_while]. destruct (p c).
  - exists (c :: pre). cbn [app]. now rewrite <- IH.
  - now exists [].
Qed.

(** The content of the span after [strip]: the letter, then the rest less
    its trailing whitespace. *)
Lemma strip_lettered (wsp : text) (l : char) (more : text) :
  forallb is_space wsp = true -> is_space l = false ->
  exists more' post, strip (wsp ++ l :: more) = l :: more' /\ more = more' ++ post.
Proof.
  intros Hw Hl. unfold strip. rewrite drop_while_spaces by assumption.
  cbn [rev]. rewrite drop_while_app_last by assumption.
  rewrite rev_app_distr. cbn [rev app].
  destruct (drop_while_suffix is_space (rev more)) as [pre Hpre].
  exists (rev (drop_while is_space (rev more))), (rev pre).
  split; [reflexivity|].
  rewrite <- rev_app_distr, <- Hpre. now rewrite rev_involutive.
Qed.

Lemma rep_greedy_const {A : Type} (p : char -> bool) (v : A) (s : text) :
  rep_greedy p (fun _ => Some v) s = Some v.
Proof.
  induction s as [|x s IH]; [reflexivity|].
  cbn [rep_greedy]. rewrite IH. now destruct (p x).
Qed.

Lemma label_of_lettered (l : char) (more' : text) :
  is_A_D l = true ->
  match more' with [] => True | sep :: _ => dot_or_space sep = true end ->
  label_of (l :: more') = Some [l].
Proof.
  intros Hl Hsep. unfold label_of, fullmatch, rmatch_prefix, letter_re, lettered_re.
  cbn [rmatch]. rewrite Hl. destruct more' as [|sep r]; [reflexivity|].
  rewrite Hsep, rep_greedy_const. cbn [group Nat.eqb].
  change (l :: sep :: r) with ([l] ++ sep :: r). now rewrite capture_prefix.
Qed.



Lemma last_boxed_span_wins_witness :
  extract_last_boxed_answer
    (concat [py "\boxed{A}"; py " "; py "\boxed{\text{C. x}}"; py "\boxed{D. no}"]
     ++ py "\boxed{B} end")
  = Ok (Some (py "B")).
Proof.
  apply (proj2 last_boxed_span_wins).
  - constructor; [exact (@piece_span _ (@span_bare 65 eq_refl))|].
    constructor; [apply (@piece_char 32); discriminate|].
    constructor; [exact (@piece_span _ (@span_text (py "C. x") eq_refl))|].
    constructor; [exact (@piece_span _ (@span_lettered 68 46 (py " no") eq_refl eq_refl eq_refl))|].
    constructor.
  - reflexivity.
  - reflexivity.
Defined.



(** ** The resumable loop as a pass over flat indices *)

Section LoopProperties.

Variable Model : Type.
Variable chat : Model -> text -> option text -> res text * Model.
Variable prompt_of : dict -> res (text * option text).

Let state := loop_state Model.
Local Abbreviation process := (process_sample chat prompt_of).
Local Abbreviation flat_pass := (process_indices chat prompt_of).


Lemma process_indices_app (n : nat) (l1 l2 : list nat) (st : state) :
  flat_pass n (l1 ++ l2) st
  = match flat_pass n l1 st with
    | (Some e, st') => (Some e, st')
    | (None, st') => flat_pass n l2 st'
    end.
Proof.
  revert st. induction l1 as [|i l1 IH]; intros st; [reflexivity|].
  cbn [app process_indices]. destruct (process (i mod n)%nat st) as [[e|] st'];
    [reflexivity | apply IH].
Qed.

Lemma length_set_nth {A : Type} (i : nat) (x : A) (l : list A) :
  length (set_nth i x l) = length l.
Proof.
  revert i. induction l as [|y l IH]; intros [|i]; simpl; auto.
Qed.

(** A step that returns normally has appended one line to the file and one
    reference to the accumulator. *)
Lemma process_sample_appends (i : nat) (st st' : state) :
  (i < length (st_data st))%nat ->
  process i st = (None, st') ->
  length (st_data st') = length (st_data st)
  /\ st_results st' = st_results st ++ [Sample i]
  /\ exists record, st_file st' = st_file st ++ [record]
                    /\ nth_error (st_data st') i = Some record.
Proof.
  intros Hi. unfold process_sample.
  destruct (nth_error (st_data st) i) as [sample|] eqn:E.
  2:{ apply nth_error_None in E. lia. }
  destruct (prompt_of sample) as [[prompt system_prompt]|]; [|discriminate].
  destruct (chat (st_model st) prompt system_prompt) as [[response|] model'];
    [|discriminate].
  destruct (extract_last_boxed_answer response) as [prediction|]; [|discriminate].
  intros H. injection H as <-. cbn [st_data st_results st_file].
  split; [apply length_set_nth|]. split; [reflexivity|].
  eexists. split; [reflexivity|].
  clear E. revert i Hi. generalize (st_data st).
  induction l as [|y l IH]; intros [|i] Hi; simpl in *; try lia; auto.
  apply IH. lia.
Qed.

Lemma process_indices_results (n : nat) (flat : list nat) :
  forall st st',
    length (st_data st) = n -> (0 < n)%nat ->
    flat_pass n flat st = (None, st') ->
    length (st_data st') = n
    /\ length (st_results st') = (length (st_results st) + length flat)%nat
    /\ length (st_file st') = (length (st_file st) + length flat)%nat.
Proof.
  induction flat as [|i flat IH]; intros st st' Hn Hpos H.
  - injection H as <-. cbn [length]. lia.
  - cbn [process_indices] in H.
    destruct (process (i mod n)%nat st) as [[e|] st1] eqn:E; [discriminate|].
    apply process_sample_appends in E as [Hd [Hr [record [Hf _]]]].
    2:{ rewrite Hn. now apply Nat.mod_upper_bound, Nat.neq_0_lt_0. }
    apply IH in H as [Hd' [Hr' Hf']]; [|lia|assumption].
    rewrite Hd', Hr', Hf', Hr, Hf, !length_app. cbn [length]. lia.
Qed.

(** The inner loop from the sample position [a] on, entered when the
    accumulator is at least as long as the flat index of [a]: it processes
    the flat indices from the length of the accumulator to the end of the
    iteration. *)
Lemma sample_loop_flat (n iteration : nat) :
  forall b a st,
    length (st_data st) = n -> (a + b <= n)%nat ->
    (a + iteration * n <= length (st_results st))%nat ->
    sample_loop chat prompt_of (seq a b) iteration n st
    = flat_pass n
        (seq (length (st_results st))
             (a + iteration * n + b - length (st_results st))) st.
Proof.
  induction b as [|b IH]; intros a st Hn Hab Hlen.
  - replace (a + iteration * n + 0 - length (st_results st))%nat with O by lia.
    reflexivity.
  - cbn [seq sample_loop].
    destruct (a + iteration * n <? length (st_results st))%nat eqn:E.
    + apply Nat.ltb_lt in E. rewrite IH by lia.
      now replace (S a + iteration * n + b)%nat with (a + iteration * n + S b)%nat by lia.
    + apply Nat.ltb_ge in E.
      assert (Hflat : length (st_results st) = (a + iteration * n)%nat) by lia.
      replace (a + iteration * n + S b - length (st_results st))%nat with (S b) by lia.
      cbn [seq process_indices]. rewrite Hflat at 1.
      rewrite Nat.Div0.mod_add, Nat.mod_small by lia.
      destruct (process a st) as [[e|] st'] eqn:Hp; [reflexivity|].
      apply process_sample_appends in Hp as [Hd [Hr _]]; [|lia].
      rewrite IH; rewrite ?Hr, ?length_app; cbn [length]; try lia.
      f_equal. f_equal; lia.
Qed.

Lemma iteration_loop_flat (n : nat) :
  forall count first st,
    length (st_data st) = n ->
    (first * n <= length (st_results st))%nat ->
    iteration_loop chat prompt_of (seq first count) n st
    = flat_pass n
        (seq (length (st_results st))
             ((first + count) * n - length (st_results st))) st.
Proof.
  induction count as [|count IH]; intros first st Hn Hlen.
  - replace ((first + 0) * n - length (st_results st))%nat with O by lia.
    reflexivity.
  - cbn [seq iteration_loop].
    rewrite sample_loop_flat by lia.
    set (L := length (st_results st)) in *.
    replace ((first + S count) * n - L)%nat
      with ((0 + first * n + n - L) + ((S first + count) * n - (L + (0 + first * n + n - L))))%nat
      by lia.
    rewrite seq_app, process_indices_app.
    destruct (flat_pass n (seq L (0 + first * n + n - L)) st) as [[e|] st'] eqn:E;
      [reflexivity|].
    destruct (Nat.eq_dec n 0) as [Hz|Hz].
    + revert E. rewrite Hz, Nat.mul_0_r. cbn [Nat.add Nat.sub seq process_indices].
      intros E. injection E as <-. rewrite <- Hz, IH by lia. fold L.
      do 2 f_equal; lia.
    + apply process_indices_results in E as [Hd [Hr _]]; [|assumption|lia].
      rewrite length_seq in Hr. fold L in Hr.
      rewrite IH by lia. rewrite Hr. reflexivity.
Qed.

(** The whole loop generates and appends for the flat indices from the
    number of records found on entry up to [test_time * total_samples]. *)
Lemma run_loop_flat (model : Model) (output evaluation_data : list dict)
    (test_time : nat) :
  run_loop chat prompt_of model output evaluation_data test_time
  = flat_pass (length evaluation_data)
      (seq (length output)
           (test_time * length evaluation_data - length output))
      (initial_state model output evaluation_data).
Proof.
  unfold run_loop. rewrite iteration_loop_flat; cbn [initial_state st_data st_results];
    rewrite ?length_map; try reflexivity; lia.
Qed.

End LoopProperties.

(** ** Dictionaries under the two assignments of the loop *)

Lemma key_eqb_str (a : text) (k : pyval) :
  key_eqb (PStr a) k = true -> k = PStr a.
Proof.
  destruct k; simpl; try discriminate. intros H. apply text_eqb_eq in H. now subst.
Qed.

Lemma dict_lookup_set_same (d : dict) (a : text) (v : pyval) :
  dict_lookup (dict_set d (PStr a) v) (PStr a) = Some v.
Proof.
  induction d as [|[k' v'] d IH]; cbn [dict_set dict_lookup].
  - cbn [key_eqb]. now rewrite text_eqb_refl.
  - destruct (key_eqb (PStr a) k') eqn:E; cbn [dict_lookup]; now rewrite E.
Qed.

Lemma dict_lookup_set_other (d : dict) (a b : text) (v : pyval) :
  text_eqb b a = false ->
  dict_lookup (dict_set d (PStr a) v) (PStr b) = dict_lookup d (PStr b).
Proof.
  intros Hab. induction d as [|[k' v'] d IH]; cbn [dict_set dict_lookup].
  - cbn [key_eqb]. now rewrite Hab.
  - destruct (key_eqb (PStr a) k') eqn:E; cbn [dict_lookup].
    + apply key_eqb_str in E. subst k'. cbn [key_eqb]. now rewrite Hab.
    + now rewrite IH.
Qed.

Lemma dict_set_present (d : dict) (k v : pyval) :
  dict_lookup d k = Some v -> dict_set d k v = d.
Proof.
  induction d as [|[k' v'] d IH]; cbn [dict_set dict_lookup]; [discriminate|].
  destruct (key_eqb k k'); intros H.
  - now injection H as ->.
  - now rewrite IH.
Qed.

(** Assigning the same response and prediction again changes nothing. *)
Lemma assign_twice (d : dict) (r p : pyval) :
  let record := dict_set (dict_set d (key "response") r) (key "prediction") p in
  dict_set (dict_set record (key "response") r) (key "prediction") p = record.
Proof.
  cbv zeta. unfold key.
  rewrite (dict_set_present _ (PStr (py "response")) r).
  - apply dict_set_present, dict_lookup_set_same.
  - rewrite dict_lookup_set_other by reflexivity. apply dict_lookup_set_same.
Qed.

Lemma dict_get_assigned (d : dict) (r p : pyval) (b : text) :
  text_eqb b (py "response") = false ->
  text_eqb b (py "prediction") = false ->
  dict_get (dict_set (dict_set d (key "response") r) (key "prediction") p) (PStr b)
  = dict_get d (PStr b).
Proof.
  intros Hr Hp. unfold dict_get, key. cbn [hashable].
  now rewrite !dict_lookup_set_other.
Qed.

Lemma nth_error_set_nth_eq {A : Type} (i : nat) (x : A) (l : list A) :
  (i < length l)%nat -> nth_error (set_nth i x l) i = Some x.
Proof.
  revert i. induction l as [|y l IH]; intros [|i] H; simpl in *; try lia; auto.
  apply IH. lia.
Qed.

Lemma nth_error_set_nth_neq {A : Type} (i j : nat) (x : A) (l : list A) :
  i <> j -> nth_error (set_nth i x l) j = nth_error l j.
Proof.
  revert i j. induction l as [|y l IH]; intros [|i] [|j] H; simpl; auto;
    try congruence.
Qed.


Lemma ok_prefix_length (rs : list (res dict)) :
  (length (ok_prefix rs) <= length rs)%nat.
Proof. induction rs as [|[r|e] rs IH]; simpl; lia. Qed.

Lemma ok_prefix_app (l1 l2 : list (res dict)) :
  (length l1 <= length (ok_prefix (l1 ++ l2)))%nat ->
  ok_prefix (l1 ++ l2) = ok_prefix l1 ++ ok_prefix l2
  /\ length (ok_prefix l1) = length l1.
Proof.
  induction l1 as [|[r|e] l1 IH]; simpl; intros H.
  - auto.
  - destruct IH as [-> ->]; [lia|auto].
  - lia.
Qed.

(** ** Resuming with a deterministic backend *)

Section Resume.

Variable Model : Type.
Variable chat : Model -> text -> option text -> res text * Model.
Variable prompt_of : dict -> res (text * option text).

(** The response depends on the prompts alone. *)
Variable reply : text -> option text -> res text.
Hypothesis chat_reply : forall m p s, fst (chat m p s) = reply p s.
(** The prompt does not read the two keys the loop assigns. *)
Hypothesis prompt_stable : forall d r p,
  prompt_of (dict_set (dict_set d (key "response") r) (key "prediction") p)
  = prompt_of d.


Lemma record_of_fixed (sample record : dict) :
  record_of prompt_of reply sample = Ok record -> record_of prompt_of reply record = Ok record.
Proof.
  unfold record_of.
  destruct (prompt_of sample) as [[prompt system_prompt]|] eqn:Hp; [|discriminate].
  destruct (reply prompt system_prompt) as [response|] eqn:Hr; [|discriminate].
  destruct (extract_last_boxed_answer response) as [prediction|] eqn:He; [|discriminate].
  intros H. injection H as <-.
  rewrite prompt_stable, Hp, Hr, He. f_equal. apply assign_twice.
Qed.


Lemma settled_refl (data0 : list dict) : settled prompt_of reply data0 data0.
Proof. split; [reflexivity|]. intros i d0 d H0 H. left. congruence. Qed.

Lemma process_sample_det (data0 : list dict) (i : nat) (st : loop_state Model) :
  settled prompt_of reply data0 (st_data st) -> (i < length data0)%nat ->
  exists st',
    match record_of prompt_of reply (nth i data0 []) with
    | Ok record =>
        process_sample chat prompt_of i st = (None, st')
        /\ st_file st' = st_file st ++ [record]
        /\ settled prompt_of reply data0 (st_data st')
    | Raise e =>
        process_sample chat prompt_of i st = (Some e, st')
        /\ st_file st' = st_file st
    end.
Proof.
  intros [Hlen Hset] Hi.
  destruct (nth_error data0 i) as [d0|] eqn:E0.
  2:{ apply nth_error_None in E0. lia. }
  destruct (nth_error (st_data st) i) as [d|] eqn:E.
  2:{ apply nth_error_None in E. lia. }
  replace (nth i data0 []) with d0 by (symmetry; now apply nth_error_nth).
  assert (Hrec : record_of prompt_of reply d = record_of prompt_of reply d0).
  { destruct (Hset i d0 d E0 E) as [->|H]; [reflexivity|].
    rewrite H. now apply record_of_fixed in H. }
  unfold process_sample. rewrite E. rewrite <- Hrec. unfold record_of.
  destruct (prompt_of d) as [[prompt system_prompt]|] eqn:Hp; [|eauto].
  pose proof (chat_reply (st_model st) prompt system_prompt) as Hchat.
  destruct (chat (st_model st) prompt system_prompt) as [r model'].
  cbn [fst] in Hchat. subst r.
  destruct (reply prompt system_prompt) as [response|] eqn:Hr; [|eauto].
  destruct (extract_last_boxed_answer response) as [prediction|] eqn:He; [|eauto].
  eexists. split; [reflexivity|]. split; [reflexivity|].
  cbn [st_data]. split; [now rewrite length_set_nth|].
  intros j e0 e Hj0 Hj. destruct (Nat.eq_dec i j) as [<-|Hne].
  - rewrite nth_error_set_nth_eq in Hj by lia. injection Hj as <-.
    right. assert (e0 = d0) by congruence. subst e0.
    rewrite <- Hrec. unfold record_of. now rewrite Hp, Hr, He.
  - rewrite nth_error_set_nth_neq in Hj by assumption. eauto.
Qed.

(** The file after a pass over flat indices: one line per index up to the
    first exception. *)
Lemma process_indices_file (data0 : list dict) (flat : list nat) :
  forall st : loop_state Model,
    settled prompt_of reply data0 (st_data st) -> (0 < length data0)%nat ->
    st_file (snd (process_indices chat prompt_of (length data0) flat st))
    = st_file st
      ++ ok_prefix (map (fun i => record_of prompt_of reply (nth (i mod length data0) data0 [])) flat).
Proof.
  induction flat as [|i flat IH]; intros st Hset Hpos.
  - cbn. now rewrite app_nil_r.
  - cbn [process_indices map ok_prefix].
    destruct (process_sample_det data0 (i mod length data0) st Hset) as [st' H].
    { apply Nat.mod_upper_bound. lia. }
    destruct (record_of prompt_of reply (nth (i mod length data0) data0 [])) as [record|e].
    + destruct H as [-> [Hf Hset']]. rewrite IH by assumption.
      rewrite Hf, <- app_assoc. reflexivity.
    + destruct H as [-> Hf]. cbn [snd]. now rewrite Hf, app_nil_r.
Qed.

(** Truncating the output of a complete run and running again gives the
    same output. *)
Lemma resume_file (model model' : Model) (evaluation_data : list dict)
    (test_time k : nat) :
  let full := st_file (snd (run_loop chat prompt_of model [] evaluation_data test_time)) in
  st_file (snd (run_loop chat prompt_of model' (firstn k full) evaluation_data test_time))
  = full.
Proof.
  cbv zeta. rewrite !run_loop_flat.
  destruct (Nat.eq_dec (length evaluation_data) 0) as [Hz|Hz].
  - rewrite Hz, Nat.mul_0_r. cbn. now destruct k.
  - rewrite !process_indices_file by (try apply settled_refl; lia).
    cbn [initial_state st_file length app]. rewrite Nat.sub_0_r.
    set (n := length evaluation_data).
    set (rec := fun i => record_of prompt_of reply (nth (i mod n) evaluation_data [])).
    set (total := (test_time * n)%nat).
    set (full := ok_prefix (map rec (seq 0 total))).
    set (R := length (firstn k full)).
    assert (HR : (R <= length full)%nat).
    { unfold R. rewrite length_firstn. lia. }
    assert (Htotal : (length full <= total)%nat).
    { unfold full. etransitivity; [apply ok_prefix_length|].
      now rewrite length_map, length_seq. }
    assert (Hsplit : seq 0 total = seq 0 R ++ seq R (total - R)).
    { rewrite <- seq_app. f_equal. lia. }
    destruct (ok_prefix_app (map rec (seq 0 R)) (map rec (seq R (total - R))))
      as [Happ Hlen].
    { rewrite <- map_app, <- Hsplit, length_map, length_seq. exact HR. }
    rewrite <- map_app, <- Hsplit in Happ. fold full in Happ.
    rewrite length_map, length_seq in Hlen.
    assert (Hfirst : firstn k full = ok_prefix (map rec (seq 0 R))).
    { assert (Hk : firstn k full = firstn R full).
      { unfold R. rewrite length_firstn.
        destruct (Nat.le_ge_cases k (length full)) as [Hle|Hge].
        - now rewrite Nat.min_l.
        - rewrite Nat.min_r by assumption. now rewrite firstn_all, firstn_all2. }
      rewrite Hk, Happ, <- Hlen at 1. rewrite firstn_app, firstn_all.
      replace (length (ok_prefix (map rec (seq 0 R)))
               - length (ok_prefix (map rec (seq 0 R))))%nat with O by lia.
      cbn [firstn]. apply app_nil_r. }
    rewrite Hfirst at 1. now rewrite Happ.
Qed.

End Resume.

(** ** run_evaluation_task1 resumes correctly *)

Lemma task1_prompt_stable (build_task1_prompt : pyval -> pyval -> text)
    (d : dict) (r p : pyval) :
  task1_prompt build_task1_prompt
    (dict_set (dict_set d (key "response") r) (key "prediction") p)
  = task1_prompt build_task1_prompt d.
Proof.
  unfold task1_prompt, key. now rewrite !dict_get_assigned by reflexivity.
Qed.

Lemma run_evaluation_task1_state (upper : text -> text)
    (build_task1_prompt : pyval -> pyval -> text) (Model : Type)
    (chat : Model -> text -> option text -> res text * Model)
    (model : Model) (output evaluation_data : list dict) (test_time : nat) :
  snd (run_evaluation_task1 upper build_task1_prompt chat model output
         evaluation_data test_time)
  = snd (run_loop chat (task1_prompt build_task1_prompt) model output
           evaluation_data test_time).
Proof.
  unfold run_evaluation_task1.
  now destruct (run_loop _ _ _ _ _ _) as [[e|] st].
Qed.

Lemma evaluation_results_initial (Model : Type) (model : Model)
    (output evaluation_data : list dict) :
  evaluation_results (initial_state model output evaluation_data) = output.
Proof.
  unfold evaluation_results, initial_state. cbn [st_data st_results].
  rewrite map_map. cbn [deref]. apply map_id.
Qed.

(** *** The generations of a run *)

Section Generations.

Variable Model : Type.
Variable chat : Model -> text -> option text -> res text * Model.
Variable prompt_of : dict -> res (text * option text).

Hypothesis prompt_stable : forall d r p,
  prompt_of (dict_set (dict_set d (key "response") r) (key "prediction") p)
  = prompt_of d.

(** A step that returns has called the backend once, on the prompt of the
    sample and in the state the loop had reached, and has written the sample
    with the response and the prediction extracted from it. *)
Lemma process_sample_step (i : nat) (st st' : loop_state Model) :
  (i < length (st_data st))%nat ->
  process_sample chat prompt_of i st = (None, st') ->
  exists sample prompt system_prompt response prediction,
    nth_error (st_data st) i = Some sample
    /\ prompt_of sample = Ok (prompt, system_prompt)
    /\ chat (st_model st) prompt system_prompt = (Ok response, st_model st')
    /\ extract_last_boxed_answer response = Ok prediction
    /\ let record := dict_set (dict_set sample (key "response") (PStr response))
                       (key "prediction") (of_label prediction) in
       st_data st' = set_nth i record (st_data st)
       /\ st_file st' = st_file st ++ [record]
       /\ st_results st' = st_results st ++ [Sample i].
Proof.
  intros Hi. unfold process_sample.
  destruct (nth_error (st_data st) i) as [sample|] eqn:E.
  2:{ apply nth_error_None in E. lia. }
  destruct (prompt_of sample) as [[prompt system_prompt]|] eqn:Hp; [|discriminate].
  destruct (chat (st_model st) prompt system_prompt) as [[response|] model'] eqn:Hc;
    [|discriminate].
  destruct (extract_last_boxed_answer response) as [prediction|] eqn:He;
    [|discriminate].
  intros H. injection H as <-.
  exists sample, prompt, system_prompt, response, prediction.
  cbn [st_model st_data st_file st_results]. repeat split; assumption.
Qed.

(** The log changes nothing: a step and a pass with the logging backend are
    the step and the pass with the backend itself, with the log added to the
    state. *)
Lemma logged_sample_erase (i : nat)
    (st : loop_state (Model * list (text * option text))) :
  process_sample chat prompt_of i (erase_log st)
  = (fst (process_sample (logged chat) prompt_of i st),
     erase_log (snd (process_sample (logged chat) prompt_of i st))).
Proof.
  unfold process_sample, erase_log, logged.
  cbn [st_model st_data st_file st_results].
  destruct (nth_error (st_data st) i) as [sample|]; [|reflexivity].
  destruct (prompt_of sample) as [[prompt system_prompt]|e]; [|reflexivity].
  destruct (chat (fst (st_model st)) prompt system_prompt) as [[response|e] model'];
    [|reflexivity].
  destruct (extract_last_boxed_answer response); reflexivity.
Qed.

Lemma logged_indices_erase (total_samples : nat) (flat : list nat) :
  forall st : loop_state (Model * list (text * option text)),
    process_indices chat prompt_of total_samples flat (erase_log st)
    = (fst (process_indices (logged chat) prompt_of total_samples flat st),
       erase_log (snd (process_indices (logged chat) prompt_of total_samples flat st))).
Proof.
  induction flat as [|i flat IH]; intros st; cbn [process_indices].
  - reflexivity.
  - rewrite logged_sample_erase.
    destruct (process_sample (logged chat) prompt_of (i mod total_samples) st)
      as [[e|] st']; cbn [fst snd].
    + reflexivity.
    + apply IH.
Qed.

(** The calls of a pass over flat indices, read from the log: one call per
    index, in order, on the prompt of the sample of the index; each line
    written follows a call, and a pass that returns has made a call and
    written a line for every index. *)
Lemma logged_indices (data0 : list dict) :
  (0 < length data0)%nat ->
  forall (flat : list nat) (st : loop_state (Model * list (text * option text))),
    length (st_data st) = length data0 ->
    (forall j d0 d, nth_error data0 j = Some d0 -> nth_error (st_data st) j = Some d ->
                    prompt_of d = prompt_of d0) ->
    let r := process_indices (logged chat) prompt_of (length data0) flat st in
    exists calls new,
      snd (st_model (snd r)) = snd (st_model st) ++ calls
      /\ map Ok calls
         = map (fun i => prompt_of (nth (i mod length data0) data0 []))
             (firstn (length calls) flat)
      /\ st_file (snd r) = st_file st ++ new
      /\ (length new <= length calls <= S (length new))%nat
      /\ (fst r = None -> length calls = length flat /\ length new = length flat).
Proof.
  intros Hpos. induction flat as [|i flat IH]; intros st Hlen Hinv; cbv zeta.
  - exists [], []. cbn. rewrite !app_nil_r. repeat split; auto.
  - cbn [process_indices]. set (n := length data0) in *.
    assert (Hi : (i mod n < n)%nat) by (apply Nat.mod_upper_bound; lia).
    destruct (nth_error data0 (i mod n)) as [d0|] eqn:E0.
    2:{ apply nth_error_None in E0. lia. }
    assert (Hnth : nth (i mod n) data0 [] = d0) by now apply nth_error_nth.
    unfold process_sample.
    destruct (nth_error (st_data st) (i mod n)) as [sample|] eqn:E.
    2:{ apply nth_error_None in E. lia. }
    pose proof (Hinv _ _ _ E0 E) as Hsame.
    destruct (prompt_of sample) as [[prompt system_prompt]|e] eqn:Hp.
    2:{ exists [], []. cbn. rewrite !app_nil_r.
        repeat split; auto; try lia; discriminate. }
    assert (Hlg : logged chat (st_model st) prompt system_prompt
                  = (fst (chat (fst (st_model st)) prompt system_prompt),
                     (snd (chat (fst (st_model st)) prompt system_prompt),
                      snd (st_model st) ++ [(prompt, system_prompt)])))
      by (unfold logged; now destruct (chat _ _ _)).
    rewrite Hlg. clear Hlg.
    destruct (chat (fst (st_model st)) prompt system_prompt) as [[response|e] model'];
      cbn [fst snd].
    2:{ exists [(prompt, system_prompt)], []. cbn [fst snd st_model st_file].
        rewrite app_nil_r. cbn [length firstn map]. rewrite Hnth, <- Hsame.
        repeat split; auto; try lia; discriminate. }
    destruct (extract_last_boxed_answer_total response) as [prediction ->].
    set (record := dict_set (dict_set sample (key "response") (PStr response))
                     (key "prediction") (of_label prediction)).
    set (st1 := mk_state _ _ _ _).
    destruct (IH st1) as [calls [new [Hlog [Hcalls [Hfile [Hbound Hdone]]]]]].
    { unfold st1. cbn [st_data]. now rewrite length_set_nth. }
    { unfold st1. cbn [st_data]. intros j e0 e Hj0 Hj.
      destruct (Nat.eq_dec (i mod n) j) as [<-|Hne].
      - rewrite nth_error_set_nth_eq in Hj by lia. injection Hj as <-.
        assert (e0 = d0) by congruence. subst e0.
        unfold record. rewrite prompt_stable. congruence.
      - rewrite nth_error_set_nth_neq in Hj by assumption. eauto. }
    cbv zeta in Hlog, Hcalls, Hfile, Hbound, Hdone.
    exists ((prompt, system_prompt) :: calls), (record :: new).
    rewrite Hlog, Hfile. unfold st1 at 1 2. cbn [st_model st_file snd].
    rewrite <- !app_assoc. cbn [app length firstn map].
    rewrite Hnth, <- Hsame, Hcalls.
    repeat split; auto; try lia; apply Hdone in H; lia.
Qed.

End Generations.

(** C1 (amended).  With [R] records in the output on entry, a dataset of
    [N] samples and [T] iterations, the loop of [run_evaluation_task1] is the
    pass over the flat indices [R], [R+1], ..., [T*N - 1] in this order
    (stopping at an exception).  A step that returns has called the backend
    once, on the prompt of the sample and in the state reached, and has
    appended one line to the file, the sample with that response and the
    prediction extracted from it, and one entry to the accumulator.  With
    the calls logged (which changes nothing else in the run), the log is the
    prompts of the samples of the first flat indices from [R] on, in order;
    each line written follows a call, and a run that returns has made
    exactly [T*N - R] calls and written as many lines.
    When [R >= T*N] nothing is generated, the backend, the samples and the
    file are untouched and the score is computed from the loaded records.
    With a backend whose response depends on the prompt alone, cutting the
    output of an uninterrupted run to its first [k] records and running
    again produces the output of the uninterrupted run. *)
Theorem resume_correctness (upper : text -> text)
    (build_task1_prompt : pyval -> pyval -> text) (Model : Type)
    (chat : Model -> text -> option text -> res text * Model) :
  let prompt_of := task1_prompt build_task1_prompt in
  let run := run_evaluation_task1 upper build_task1_prompt chat in
  (forall model output evaluation_data test_time,
      run_loop chat prompt_of model output evaluation_data test_time
      = process_indices chat prompt_of (length evaluation_data)
          (seq (length output)
               (test_time * length evaluation_data - length output))
          (initial_state model output evaluation_data))
  /\ (forall i st st',
        (i < length (st_data st))%nat ->
        process_sample chat prompt_of i st = (None, st') ->
        exists sample prompt system_prompt response prediction,
          nth_error (st_data st) i = Some sample
          /\ prompt_of sample = Ok (prompt, system_prompt)
          /\ chat (st_model st) prompt system_prompt = (Ok response, st_model st')
          /\ extract_last_boxed_answer response = Ok prediction
          /\ let record := dict_set (dict_set sample (key "response") (PStr response))
                             (key "prediction") (of_label prediction) in
             st_data st' = set_nth i record (st_data st)
             /\ st_file st' = st_file st ++ [record]
             /\ st_results st' = st_results st ++ [Sample i])
  /\ (forall model output evaluation_data test_time,
        let n := length evaluation_data in
        let flat := seq (length output) (test_time * n - length output) in
        let logged_run := run_loop (logged chat) prompt_of (model, []) output
                            evaluation_data test_time in
        let calls := snd (st_model (snd logged_run)) in
        run_loop chat prompt_of model output evaluation_data test_time
        = (fst logged_run, erase_log (snd logged_run))
        /\ exists new,
          st_file (snd logged_run) = output ++ new
          /\ map Ok calls
             = map (fun i => prompt_of (nth (i mod n) evaluation_data []))
                 (firstn (length calls) flat)
          /\ (length new <= length calls <= S (length new))%nat
          /\ (fst logged_run = None ->
              length calls = (test_time * n - length output)%nat
              /\ length new = (test_time * n - length output)%nat))
  /\ (forall model output evaluation_data test_time,
        (test_time * length evaluation_data <= length output)%nat ->
        run model output evaluation_data test_time
        = (calculate_field_accuracy upper output,
           initial_state model output evaluation_data))
  /\ (forall reply : text -> option text -> res text,
        (forall m p s, fst (chat m p s) = reply p s) ->
        forall model model' evaluation_data test_time k,
          let full := st_file (snd (run model [] evaluation_data test_time)) in
          st_file (snd (run model' (firstn k full) evaluation_data test_time))
          = full).
Proof.
  cbv zeta. split; [|split; [|split; [|split]]].
  - intros. apply run_loop_flat.
  - intros i st st' Hi H.
    exact (process_sample_step Model chat _ i st st' Hi H).
  - intros model output evaluation_data test_time. rewrite !run_loop_flat.
    split.
    { apply (logged_indices_erase Model chat _ (length evaluation_data) _
               (initial_state (model, []) output evaluation_data)). }
    destruct (Nat.eq_dec (length evaluation_data) 0) as [Hz|Hz].
    + rewrite Hz, Nat.mul_0_r. cbn [Nat.sub seq process_indices fst snd].
      exists []. cbn. rewrite app_nil_r. repeat split; auto.
    + destruct (logged_indices Model chat _ (task1_prompt_stable build_task1_prompt)
                  evaluation_data ltac:(lia)
                  (seq (length output)
                       (test_time * length evaluation_data - length output))
                  (initial_state (model, []) output evaluation_data) eq_refl)
        as [calls [new [Hlog [Hcalls [Hfile [Hbound Hdone]]]]]].
      { cbn [initial_state st_data]. intros j d0 d H0 H. congruence. }
      cbv zeta in Hlog, Hcalls, Hfile, Hbound, Hdone.
      cbn [initial_state st_model st_file snd app] in Hlog, Hfile.
      exists new. rewrite Hlog. rewrite length_seq in Hdone.
      repeat split; auto; try lia; apply Hdone in H; lia.
  - intros model output evaluation_data test_time H.
    unfold run_evaluation_task1. rewrite run_loop_flat.
    replace (test_time * length evaluation_data - length output)%nat with O by lia.
    cbn [seq process_indices]. now rewrite evaluation_results_initial.
  - intros reply Hreply model model' evaluation_data test_time k.
    rewrite !run_evaluation_task1_state.
    apply (resume_file Model chat _ reply Hreply
             (task1_prompt_stable build_task1_prompt)).
Qed.

(** With a sampling backend the resumed run does not reproduce the
    uninterrupted one: one sample, two iterations, a backend that answers A
    on its first call and B afterwards.  The uninterrupted run writes A then
    B; cut to its first line and run again with the backend started anew, it
    writes A then A. *)
Lemma sampling_backend_does_not_resume :
  let run := run_evaluation_task1 ascii_upper plain_task1_prompt drifting_chat in
  let data := [task1_sample "q" "A"] in
  let full := st_file (snd (run O [] data 2%nat)) in
  map (field_of "prediction") full = [key "A"; key "B"]
  /\ map (field_of "prediction") (st_file (snd (run O (firstn 1 full) data 2%nat)))
     = [key "A"; key "A"]
  /\ st_file (snd (run O (firstn 1 full) data 2%nat)) <> full.
Proof.
  cbv zeta. split; [vm_compute; reflexivity|]. split; [vm_compute; reflexivity|].
  vm_compute. discriminate.
Qed.

Lemma resume_correctness_witness :
  let data := [task1_sample "q1" "A"; task1_sample "q2" "B"] in
  let run := run_evaluation_task1 ascii_upper plain_task1_prompt
               (constant_chat (py "\boxed{A}")) in
  let full := st_file (snd (run tt [] data 2%nat)) in
  length full = 4%nat
  /\ st_file (snd (run tt (firstn 3 full) data 2%nat)) = full
  /\ run tt full data 2%nat
     = (calculate_field_accuracy ascii_upper full, initial_state tt full data).
Proof.
  cbv zeta. split; [reflexivity|].
  destruct (resume_correctness ascii_upper plain_task1_prompt unit
              (constant_chat (py "\boxed{A}"))) as [_ [_ [_ [Hdone Hresume]]]].
  split.
  - apply (Hresume (fun _ _ => Ok (py "\boxed{A}"))). reflexivity.
  - apply Hdone. vm_compute. lia.
Defined.

(** * Further properties of the code *)

(** ** calculate_accuracy: bounds and exceptions *)

Lemma count_correct_bounds (upper : text -> text) :
  forall (pairs : list (pyval * pyval)) (n m : nat),
    count_correct upper pairs n = Ok m -> (n <= m <= n + length pairs)%nat.
Proof.
  induction pairs as [|[pred ans] pairs IH]; intros n m H; cbn [count_correct] in H.
  - injection H as <-. cbn [length]. lia.
  - cbn [length].
    destruct pred as [|p|q|l|d]; cbn [py_upper bind] in H; try discriminate.
    + apply IH in H. lia.
    + destruct ans as [|a|q|l|d]; cbn [py_upper bind] in H; try discriminate.
      apply IH in H. destruct (text_eqb (upper p) (upper a)); lia.
Qed.

Lemma Zpos_of_nat (n : nat) : (0 < n)%nat -> Z.pos (Pos.of_nat n) = Z.of_nat n.
Proof.
  intros H. rewrite <- positive_nat_Z, Nat2Pos.id; [reflexivity | lia].
Qed.

Lemma calculate_accuracy_in_unit (upper : text -> text)
    (predictions answers : list pyval) (q : Q) :
  calculate_accuracy upper predictions answers = Ok q -> (0 <= q <= 1)%Q.
Proof.
  unfold calculate_accuracy.
  destruct (negb (length predictions =? length answers)%nat) eqn:E; [discriminate|].
  apply negb_false_iff, Nat.eqb_eq in E.
  destruct (count_correct upper (combine predictions answers) 0) as [m|] eqn:Hc;
    cbn [bind]; [|discriminate].
  apply count_correct_bounds in Hc. rewrite length_combine, <- E, Nat.min_id in Hc.
  intros H. injection H as <-.
  destruct (0 <? length predictions)%nat eqn:Hpos.
  - apply Nat.ltb_lt in Hpos. unfold Qle. cbn [Qnum Qden].
    rewrite Zpos_of_nat by assumption. lia.
  - split; unfold Qle; cbn; lia.
Qed.

(** X1.  Whenever [calculate_accuracy] returns, for lists of any values, the
    score lies between 0 and 1. *)
Theorem calculate_accuracy_bounds (upper : text -> text)
    (predictions answers : list pyval) (q : Q) :
  calculate_accuracy upper predictions answers = Ok q -> (0 <= q <= 1)%Q.
Proof. apply calculate_accuracy_in_unit. Qed.

Lemma calculate_accuracy_bounds_witness :
  (0 <= 2 # 3 <= 1)%Q.
Proof.
  apply (calculate_accuracy_bounds ascii_upper
           [PStr (py "a"); PNone; PStr (py "C")]
           [PStr (py "A"); PStr (py "B"); PStr (py "C")]).
  reflexivity.
Defined.

Lemma count_correct_ok (upper : text -> text) :
  forall (pairs : list (pyval * pyval)) (n : nat),
    (exists m, count_correct upper pairs n = Ok m) <-> Forall comparable pairs.
Proof.
  induction pairs as [|[pred ans] pairs IH]; intros n; cbn [count_correct].
  - split; [constructor | eauto].
  - split.
    + intros [m H]. destruct pred as [|p|q|l|d]; cbn [py_upper bind] in H;
        try discriminate.
      * constructor; [now left | apply (IH n); eauto].
      * destruct ans as [|a|q|l|d]; cbn [py_upper bind] in H; try discriminate.
        constructor; [right; eauto | eapply IH; eauto].
    + intros H. inversion H as [|? ? [Hn|[p [a Hp]]] Hrest]; subst.
      * cbn [fst] in Hn. subst pred. now apply IH.
      * injection Hp as -> ->. cbn [py_upper bind]. now apply IH.
Qed.

(** X2.  [calculate_accuracy] returns a score exactly when the two lists
    have the same length and, at every position, the prediction is [None] or
    prediction and answer are both strings; with different lengths it raises
    [ValueError], and with equal lengths and a pair it cannot compare (a
    prediction or an answer without [upper]) it raises [AttributeError].  An
    answer opposite a [None] prediction is never inspected. *)
Theorem calculate_accuracy_raises (upper : text -> text)
    (predictions answers : list pyval) :
  ((exists q, calculate_accuracy upper predictions answers = Ok q)
   <-> length predictions = length answers
       /\ Forall comparable (combine predictions answers))
  /\ (length predictions <> length answers ->
      calculate_accuracy upper predictions answers = Raise ValueError)
  /\ (length predictions = length answers ->
      ~ Forall comparable (combine predictions answers) ->
      calculate_accuracy upper predictions answers = Raise AttributeError).
Proof.
  unfold calculate_accuracy.
  destruct (Nat.eqb_spec (length predictions) (length answers)) as [E|E];
    cbn [negb].
  - split; [|split; [congruence|]].
    + rewrite <- (count_correct_ok upper _ 0). split.
      * intros [q H]. split; [assumption|].
        destruct (count_correct upper _ 0) as [m|]; [eauto|discriminate].
      * intros [_ [m ->]]. cbn [bind]. eauto.
    + intros _ Hbad.
      destruct (count_correct upper (combine predictions answers) 0) as [m|e] eqn:Hc.
      * exfalso. apply Hbad. apply (count_correct_ok upper _ 0). eauto.
      * cbn [bind]. f_equal. clear - Hc.
        revert Hc. generalize 0%nat.
        induction (combine predictions answers) as [|[pred ans] pairs IH];
          intros n H; cbn [count_correct] in H; [discriminate|].
        destruct pred as [|p|q|l|d]; cbn [py_upper bind] in H;
          try (injection H as <-; reflexivity); eauto.
        destruct ans as [|a|q|l|d]; cbn [py_upper bind] in H;
          try (injection H as <-; reflexivity); eauto.
  - split; [|split; [reflexivity | congruence]].
    split; [intros [q H]; discriminate | intros [H _]; congruence].
Qed.

Lemma calculate_accuracy_raises_witness :
  calculate_accuracy ascii_upper [PStr (py "A")] [] = Raise ValueError
  /\ calculate_accuracy ascii_upper [PNone; PNum 1] [PNum 2; PStr (py "A")]
     = Raise AttributeError
  /\ exists q, calculate_accuracy ascii_upper [PNone] [PNum 2] = Ok q.
Proof.
  split; [|split].
  - apply (proj1 (proj2 (calculate_accuracy_raises ascii_upper [PStr (py "A")] []))).
    discriminate.
  - apply (proj2 (proj2 (calculate_accuracy_raises ascii_upper
             [PNone; PNum 1] [PNum 2; PStr (py "A")]))); [reflexivity|].
    intros H. inversion H as [|? ? _ H']. inversion H' as [|? ? [Hn|[p [a Hp]]] _];
      discriminate.
  - apply (proj1 (calculate_accuracy_raises ascii_upper [PNone] [PNum 2])).
    split; [reflexivity|]. constructor; [now left | constructor].
Defined.

Lemma correct_positions_le (upper : text -> text) :
  forall (predictions : list (option text)) (answers : list text),
    (correct_positions upper predictions answers <= length predictions)%nat.
Proof.
  induction predictions as [|[p|] ps IH]; intros [|a rest]; cbn; try lia.
  - specialize (IH rest). destruct (list_eq_dec N.eq_dec (upper p) (upper a)); lia.
  - specialize (IH rest). lia.
Qed.

Lemma correct_positions_all (upper : text -> text) :
  forall (predictions : list (option text)) (answers : list text),
    length predictions = length answers ->
    (correct_positions upper predictions answers = length predictions
     <-> Forall2 (fun p a => exists s, p = Some s /\ upper s = upper a)
           predictions answers).
Proof.
  induction predictions as [|[p|] ps IH]; intros [|a rest] Hlen;
    try discriminate Hlen; cbn [correct_positions length].
  - split; [constructor | reflexivity].
  - injection Hlen as Hlen. specialize (IH rest Hlen).
    pose proof (correct_positions_le upper ps rest) as Hle.
    destruct (list_eq_dec N.eq_dec (upper p) (upper a)) as [E|E]; split.
    + intros H. constructor; [eauto | apply IH; lia].
    + intros H. inversion H; subst. cbn [Nat.add]. f_equal. now apply IH.
    + intros H. lia.
    + intros H. inversion H as [|? ? ? ? [s [Hs Hup]] _]; subst.
      injection Hs as <-. contradiction.
  - injection Hlen as Hlen.
    pose proof (correct_positions_le upper ps rest) as Hle. split.
    + intros H. lia.
    + intros H. inversion H as [|? ? ? ? [s [Hs _]] _]. discriminate.
Qed.

(** X3.  On non-empty lists of equal length, the accuracy is 1 exactly when
    every prediction is present and equal to its answer once both are
    upper-cased. *)
Theorem calculate_accuracy_perfect (upper : text -> text)
    (predictions : list (option text)) (answers : list text) :
  predictions <> [] ->
  length predictions = length answers ->
  exists q,
    calculate_accuracy upper (map of_label predictions) (map PStr answers) = Ok q
    /\ ((q == 1)%Q
        <-> Forall2 (fun p a => exists s, p = Some s /\ upper s = upper a)
              predictions answers).
Proof.
  intros Hne Hlen. unfold calculate_accuracy. rewrite !length_map, Hlen, Nat.eqb_refl.
  cbn [negb]. rewrite count_correct_spec. cbn [bind Nat.add].
  assert (Hpos : (0 < length answers)%nat).
  { rewrite <- Hlen. destruct predictions; [congruence | cbn; lia]. }
  apply Nat.ltb_lt in Hpos as Hb. rewrite Hb. eexists. split; [reflexivity|].
  rewrite <- (correct_positions_all upper predictions answers Hlen).
  unfold Qeq. cbn [Qnum Qden]. rewrite Zpos_of_nat by assumption. lia.
Qed.

Lemma calculate_accuracy_perfect_witness :
  exists q,
    calculate_accuracy ascii_upper (map of_label [Some (py "a"); Some (py "C")])
      (map PStr [py "A"; py "c"]) = Ok q
    /\ ((q == 1)%Q
        <-> Forall2 (fun p a => exists s, p = Some s /\ ascii_upper s = ascii_upper a)
              [Some (py "a"); Some (py "C")] [py "A"; py "c"]).
Proof.
  apply calculate_accuracy_perfect; [discriminate | reflexivity].
Defined.

(** ** extract_last_boxed_answer: the labels it can return *)

Lemma label_of_choice (content label : text) :
  label_of content = Some label -> exists c, label = [c] /\ is_A_D c = true.
Proof.
  unfold label_of, fullmatch, rmatch_prefix, letter_re, lettered_re.
  cbn [rmatch]. destruct content as [|c0 s1]; [discriminate|].
  destruct (is_A_D c0) eqn:Hc; [|discriminate].
  replace (firstn (length (c0 :: s1) - length s1) (c0 :: s1)) with [c0]
    by (symmetry; apply (capture_prefix [c0] s1)).
  destruct s1 as [|c1 s2].
  - intros H. injection H as <-. eauto.
  - destruct (dot_or_space c1); [|discriminate].
    rewrite rep_greedy_const. cbn [group Nat.eqb].
    intros H. injection H as <-. eauto.
Qed.

(** X4.  A label the answer extractor returns is one character, and that
    character is one of A, B, C, D. *)
Theorem extracted_label_is_a_choice (t label : text) :
  extract_last_boxed_answer t = Ok (Some label) ->
  exists c, label = [c] /\ is_A_D c = true.
Proof.
  unfold extract_last_boxed_answer.
  destruct (extracted_options (findall boxed_re t)) as [|x l]; [discriminate|].
  destruct (index_last_cons x l) as [y ->]. cbn [bind].
  intros H. injection H as H. now apply label_of_choice in H.
Qed.

Lemma extracted_label_is_a_choice_witness :
  exists c, py "B" = [c] /\ is_A_D c = true.
Proof.
  apply (extracted_label_is_a_choice (py "so \boxed{B. because}") (py "B")).
  reflexivity.
Defined.

Lemma match_bare_span_caps (l : char) (rest : text) :
  is_A_D l = true ->
  exists g1,
    match_here boxed_re (py "\boxed{" ++ [l] ++ py "}" ++ rest)
    = Some (rest, [(1%nat, g1); (4%nat, [l])]).
Proof.
  intros Hl. destruct (A_D_facts l Hl) as [Hs [Hb [Ho Hc]]].
  rewrite match_boxed. cbn [rmatch app]. change (py "}" ++ rest) with (125 :: rest).
  rewrite boxed_alt_text_fails by assumption. cbn [orelse].
  unfold boxed_alt_lettered at 1. rewrite rmatch_ws_skip by assumption.
  unfold chr. cbn [rmatch]. rewrite Ho, Hl. cbn [orelse].
  change (dot_or_space 125) with false. cbn [orelse].
  unfold boxed_alt_bare. rewrite rmatch_ws_skip by assumption.
  unfold ws. cbn [rmatch rep_greedy]. rewrite Hl.
  change (is_space 125) with false. cbn iota. rewrite N.eqb_refl.
  change (l :: 125 :: rest) with ([l] ++ 125 :: rest). rewrite capture_prefix.
  eauto.
Qed.

Lemma match_lettered_span_caps (l sep : char) (body rest : text) :
  is_A_D l = true ->
  dot_or_space sep = true ->
  forallb (fun c => not_rbrace c && dot c) body = true ->
  startswith [125] rest = false ->
  exists g1,
    match_here boxed_re (py "\boxed{" ++ l :: sep :: body ++ py "}" ++ rest)
    = Some (rest, [(1%nat, g1); (3%nat, l :: sep :: body)]).
Proof.
  intros Hl Hsep Hbody Hrest. destruct (A_D_facts l Hl) as [Hs [Hb [Ho Hc]]].
  rewrite match_boxed. cbn [rmatch]. change (py "}" ++ rest) with (125 :: rest).
  rewrite boxed_alt_text_fails by assumption. cbn [orelse].
  unfold boxed_alt_lettered at 1. rewrite rmatch_ws_skip by assumption.
  unfold chr. cbn [rmatch]. rewrite Ho, Hl, Hsep. cbn [orelse].
  rewrite rep_lazy_skip.
  - erewrite rep_lazy_here.
    + cbn [orelse]. eauto.
    + rewrite !N.eqb_refl. 
      change (l :: sep :: body ++ 125 :: rest) with ((l :: sep :: body) ++ 125 :: rest).
      rewrite capture_prefix.
      destruct rest as [|x rest']; [reflexivity|].
      cbn [startswith] in Hrest. rewrite andb_true_r in Hrest. rewrite Hrest.
      reflexivity.
  - rewrite forallb_forall in Hbody. apply forallb_forall. intros b Hin.
    apply Hbody in Hin. now apply andb_prop in Hin as [_ Hin].
  - intros b s Hin. rewrite forallb_forall in Hbody. apply Hbody in Hin.
    apply andb_prop in Hin as [Hin _]. unfold not_rbrace in Hin.
    apply negb_true_iff in Hin. rewrite N.eqb_sym in Hin.
    rewrite !Hin. reflexivity.
Qed.

Lemma match_content_single (g1 : text) (i : nat) (content : text) :
  (i = 3 \/ i = 4)%nat ->
  nonempty (strip content) = true ->
  match_content [(1%nat, g1); (i, content)] = Some (strip content).
Proof.
  intros Hi H. unfold match_content.
  destruct content as [|b content]; [discriminate H|].
  destruct Hi as [-> | ->]; cbn [group Nat.eqb nonempty]; now rewrite H.
Qed.

(** X5.  When the last boxed span of a text is a bare letter
    ("\boxed{B}"), or a letter followed by a dot or a blank and by text on
    one line without a closing brace ("\boxed{B. text}"), the extractor
    returns that letter, whatever well-formed spans and plain characters come
    before and whatever text without a further "\boxed{" comes after (not
    starting with a closing brace in the second case). *)
Theorem bare_and_lettered_label :
  (forall (pieces : list text) (l : char) (post : text),
      Forall piece pieces ->
      is_A_D l = true ->
      contains (py "\boxed{") post = false ->
      extract_last_boxed_answer
        (concat pieces ++ py "\boxed{" ++ [l] ++ py "}" ++ post)
      = Ok (Some [l]))
  /\ (forall (pieces : list text) (l sep : char) (body post : text),
        Forall piece pieces ->
        is_A_D l = true ->
        dot_or_space sep = true ->
        forallb (fun c => not_rbrace c && dot c) body = true ->
        startswith [125] post = false ->
        contains (py "\boxed{") post = false ->
        extract_last_boxed_answer
          (concat pieces ++ py "\boxed{" ++ l :: sep :: body ++ py "}" ++ post)
        = Ok (Some [l])).
Proof.
  split.
  - intros pieces l post Hp Hl Hpost.
    destruct (A_D_facts l Hl) as [Hs _].
    destruct (pieces_scan pieces (py "\boxed{" ++ [l] ++ py "}" ++ post) Hp eq_refl)
      as [opts Ho].
    unfold extract_last_boxed_answer. rewrite Ho.
    destruct (match_bare_span_caps l post Hl) as [g1 Hm].
    rewrite (findall_match boxed_re _ post _ Hm)
      by (rewrite !length_app; simpl; lia).
    rewrite (@findall_without_marker _ _ post boxed_re_requires Hpost).
    cbn [extracted_options].
    assert (Hstrip : strip [l] = [l]).
    { unfold strip. cbn [drop_while rev app]. rewrite Hs. cbn [rev app drop_while].
      now rewrite Hs. }
    rewrite match_content_single by (auto; now rewrite Hstrip).
    rewrite Hstrip, index_last_app. cbn [index_last rev app bind].
    rewrite label_of_lettered; [now destruct opts | assumption | exact I].
  - intros pieces l sep body post Hp Hl Hsep Hbody Hstart Hpost.
    destruct (A_D_facts l Hl) as [Hs _].
    destruct (pieces_scan pieces
                (py "\boxed{" ++ l :: sep :: body ++ py "}" ++ post) Hp eq_refl)
      as [opts Ho].
    unfold extract_last_boxed_answer. rewrite Ho.
    destruct (match_lettered_span_caps l sep body post Hl Hsep Hbody Hstart)
      as [g1 Hm].
    rewrite (findall_match boxed_re _ post _ Hm)
      by (rewrite !length_app; simpl; rewrite !length_app; simpl; lia).
    rewrite (@findall_without_marker _ _ post boxed_re_requires Hpost).
    cbn [extracted_options].
    destruct (strip_lettered [] l (sep :: body) eq_refl Hs)
      as [more' [tail [Hstrip Hsplit]]].
    cbn [app] in Hstrip.
    rewrite match_content_single by (auto; now rewrite Hstrip).
    rewrite Hstrip, index_last_app. cbn [index_last rev app bind].
    rewrite label_of_lettered; [now destruct opts | assumption |].
    destruct more' as [|c r]; [exact I|]. injection Hsplit as <- _. exact Hsep.
Qed.

Lemma bare_and_lettered_label_witness :
  extract_last_boxed_answer
    (concat [py "\boxed{\text{A}}"; py " "] ++ py "\boxed{" ++ [67] ++ py "}"
     ++ py " done")
  = Ok (Some [67])
  /\ extract_last_boxed_answer
       (concat [py "\boxed{A}"] ++ py "\boxed{" ++ 68 :: 46 :: py " the last"
        ++ py "}" ++ py " done")
     = Ok (Some [68]).
Proof.
  split.
  - apply (proj1 bare_and_lettered_label); [|reflexivity|reflexivity].
    constructor; [exact (@piece_span _ (@span_text (py "A") eq_refl))|].
    constructor; [apply (@piece_char 32); discriminate|]. constructor.
  - apply (proj2 bare_and_lettered_label); try reflexivity.
    constructor; [exact (@piece_span _ (@span_bare 65 eq_refl))|]. constructor.
Defined.


(** ** The loop only appends *)

Section LoopTrace.

Variable Model : Type.
Variable chat : Model -> text -> option text -> res text * Model.
Variable prompt_of : dict -> res (text * option text).

Lemma process_sample_outcome (i : nat) (st : loop_state Model) :
  (i < length (st_data st))%nat ->
  let (e, st') := process_sample chat prompt_of i st in
  length (st_data st') = length (st_data st)
  /\ match e with
     | Some _ => st_file st' = st_file st /\ st_results st' = st_results st
     | None =>
         exists record,
           st_file st' = st_file st ++ [record]
           /\ st_results st' = st_results st ++ [Sample i]
           /\ consistent_record record
     end.
Proof.
  intros Hi. unfold process_sample.
  destruct (nth_error (st_data st) i) as [sample|] eqn:E.
  2:{ apply nth_error_None in E. lia. }
  destruct (prompt_of sample) as [[prompt system_prompt]|]; [|auto].
  destruct (chat (st_model st) prompt system_prompt) as [[response|] model'];
    [|auto].
  destruct (extract_last_boxed_answer response) as [prediction|] eqn:He;
    cbn [st_data st_file st_results]; rewrite length_set_nth; [|auto].
  split; [reflexivity|]. eexists. split; [reflexivity|]. split; [reflexivity|].
  exists response, prediction. unfold key. split; [|split].
  - rewrite dict_lookup_set_other by reflexivity. apply dict_lookup_set_same.
  - exact He.
  - apply dict_lookup_set_same.
Qed.

Lemma firstn_seq_le (k a n : nat) : (k <= n)%nat -> firstn k (seq a n) = seq a k.
Proof.
  revert a n. induction k as [|k IH]; intros a [|n] H; cbn; try lia; auto.
  f_equal. apply IH. lia.
Qed.

(** What a pass over flat indices leaves: the lines and the accumulator
    entries of the indices it completed, nothing else changed. *)
Lemma process_indices_trace (n : nat) :
  (0 < n)%nat ->
  forall (flat : list nat) (st : loop_state Model),
    length (st_data st) = n ->
    let (e, st') := process_indices chat prompt_of n flat st in
    exists new,
      st_file st' = st_file st ++ new
      /\ st_results st'
         = st_results st ++ map (fun i => Sample (i mod n)) (firstn (length new) flat)
      /\ Forall consistent_record new
      /\ length (st_data st') = n
      /\ match e with
         | None => length new = length flat
         | Some _ => (length new < length flat)%nat
         end.
Proof.
  intros Hpos. induction flat as [|i flat IH]; intros st Hn.
  - cbn [process_indices]. exists []. cbn. rewrite !app_nil_r. auto.
  - cbn [process_indices].
    pose proof (process_sample_outcome (i mod n) st) as Hstep.
    destruct (process_sample chat prompt_of (i mod n) st) as [[e|] st1].
    + destruct Hstep as [Hd [Hf Hr]].
      { rewrite Hn. apply Nat.mod_upper_bound. lia. }
      exists []. cbn. rewrite !app_nil_r. repeat split; auto; lia.
    + destruct Hstep as [Hd [record [Hf [Hr Hc]]]].
      { rewrite Hn. apply Nat.mod_upper_bound. lia. }
      specialize (IH st1). 
      destruct (process_indices chat prompt_of n flat st1) as [e st'].
      destruct IH as [new [Hf' [Hr' [Hc' [Hd' He]]]]]; [lia|].
      exists (record :: new). cbn [length firstn map].
      rewrite Hf', Hr', Hf, Hr, <- !app_assoc. cbn [app].
      repeat split; auto. destruct e; lia.
Qed.

(** The trace of the whole loop. *)
Lemma run_loop_trace (model : Model) (output evaluation_data : list dict)
    (test_time : nat) :
  let n := length evaluation_data in
  let run := run_loop chat prompt_of model output evaluation_data test_time in
  exists new,
    st_file (snd run) = output ++ new
    /\ st_results (snd run)
       = map Loaded output
         ++ map (fun i => Sample (i mod n)) (seq (length output) (length new))
    /\ Forall consistent_record new
    /\ (length new <= test_time * n - length output)%nat
    /\ (fst run = None -> length new = (test_time * n - length output)%nat).
Proof.
  cbv zeta. rewrite run_loop_flat.
  destruct (Nat.eq_dec (length evaluation_data) 0) as [Hz|Hz].
  - rewrite Hz, Nat.mul_0_r. cbn. exists []. cbn. rewrite !app_nil_r. auto.
  - pose proof (process_indices_trace (length evaluation_data) ltac:(lia)
                  (seq (length output)
                     (test_time * length evaluation_data - length output))
                  (initial_state model output evaluation_data) eq_refl) as H.
    destruct (process_indices _ _ _ _ _) as [e st'].
    destruct H as [new [Hf [Hr [Hc [_ He]]]]].
    rewrite length_seq in He. cbn [initial_state st_file st_results] in Hf, Hr.
    assert (Hle : (length new <= test_time * length evaluation_data - length output)%nat)
      by (destruct e; lia).
    exists new. cbn [fst snd]. split; [exact Hf|]. split; [|split; [|split]].
    + rewrite Hr. do 2 f_equal. now apply firstn_seq_le.
    + exact Hc.
    + exact Hle.
    + intros ->. exact He.
Qed.

(** X6.  Whatever the backend does, and whether or not an exception stops
    it, the loop only appends: the output file afterwards is the file on
    entry followed by new lines, the accumulator holds the loaded records
    followed by one reference per new line, to the samples of the flat
    indices R, R+1, ... in this order, and there are at most
    [T * N - R] new lines, exactly that many when the loop returns
    normally. *)
Theorem loop_only_appends (model : Model) (output evaluation_data : list dict)
    (test_time : nat) :
  let n := length evaluation_data in
  let run := run_loop chat prompt_of model output evaluation_data test_time in
  exists new,
    st_file (snd run) = output ++ new
    /\ st_results (snd run)
       = map Loaded output
         ++ map (fun i => Sample (i mod n)) (seq (length output) (length new))
    /\ (length new <= test_time * n - length output)%nat
    /\ (fst run = None -> length new = (test_time * n - length output)%nat).
Proof.
  destruct (run_loop_trace model output evaluation_data test_time)
    as [new [Hf [Hr [_ [Hle He]]]]].
  exists new. auto.
Qed.

(** X7.  Every line the loop writes is consistent: the value under
    "prediction" is what [extract_last_boxed_answer] returns on the text
    under "response" of the same line. *)
Theorem written_lines_are_consistent (model : Model)
    (output evaluation_data : list dict) (test_time : nat) :
  let run := run_loop chat prompt_of model output evaluation_data test_time in
  exists new, st_file (snd run) = output ++ new /\ Forall consistent_record new.
Proof.
  destruct (run_loop_trace model output evaluation_data test_time)
    as [new [Hf [_ [Hc _]]]].
  exists new. auto.
Qed.

End LoopTrace.


(** ** The accumulator shares the samples, in general *)

Section LoopSharing.

Variable Model : Type.
Variable chat : Model -> text -> option text -> res text * Model.
Variable prompt_of : dict -> res (text * option text).

(** X8.  After the loop, two accumulator entries appended by this run for
    the same sample position (flat indices [i] and [j] past the loaded
    records, equal modulo the dataset size) read the same record, whatever
    the backend answered in the two iterations. *)
Theorem appended_entries_share_the_sample (model : Model)
    (output evaluation_data : list dict) (test_time i j : nat) :
  let n := length evaluation_data in
  let st := snd (run_loop chat prompt_of model output evaluation_data test_time) in
  (length output <= i < length (st_results st))%nat ->
  (length output <= j < length (st_results st))%nat ->
  (i mod n = j mod n)%nat ->
  nth_error (evaluation_results st) i = nth_error (evaluation_results st) j.
Proof.
  cbv zeta. intros Hi Hj Hmod.
  destruct (run_loop_trace Model chat prompt_of model output evaluation_data
              test_time) as [new [_ [Hr _]]]. cbv zeta in Hr.
  set (st := snd (run_loop chat prompt_of model output evaluation_data test_time)) in *.
  unfold evaluation_results. rewrite !nth_error_map.
  rewrite Hr in Hi, Hj |- *.
  rewrite !length_app, !length_map, length_seq in Hi, Hj.
  rewrite !nth_error_app2 by (rewrite length_map; lia).
  rewrite !length_map, !nth_error_map.
  rewrite !nth_error_seq.
  destruct (Nat.ltb_spec (i - length output) (length new)); [|lia].
  destruct (Nat.ltb_spec (j - length output) (length new)); [|lia].
  cbn [option_map deref].
  replace (length output + (i - length output))%nat with i by lia.
  replace (length output + (j - length output))%nat with j by lia.
  now rewrite Hmod.
Qed.

End LoopSharing.

Lemma appended_entries_share_the_sample_witness :
  let st := snd (run_loop drifting_chat (task1_prompt plain_task1_prompt) O []
                   [task1_sample "q" "A"] 2) in
  nth_error (evaluation_results st) 0 = nth_error (evaluation_results st) 1.
Proof.
  apply (appended_entries_share_the_sample nat drifting_chat
           (task1_prompt plain_task1_prompt) O [] [task1_sample "q" "A"] 2%nat
           0%nat 1%nat).
  - vm_compute. lia.
  - vm_compute. lia.
  - reflexivity.
Defined.

(** ** The loop completes when nothing raises *)

Lemma Forall_set_nth {A : Type} (P : A -> Prop) (i : nat) (x : A) (l : list A) :
  Forall P l -> P x -> Forall P (set_nth i x l).
Proof.
  intros Hl Hx. revert i. induction Hl as [|y l Hy Hl IH]; intros [|i]; cbn;
    constructor; auto.
Qed.

Section LoopProgress.

Variable Model : Type.
Variable chat : Model -> text -> option text -> res text * Model.
Variable prompt_of : dict -> res (text * option text).

Hypothesis chat_answers : forall m p s, exists r, fst (chat m p s) = Ok r.
Hypothesis prompt_stable : forall d r p,
  prompt_of (dict_set (dict_set d (key "response") r) (key "prediction") p)
  = prompt_of d.

Let promptable (d : dict) : Prop := exists p, prompt_of d = Ok p.

Lemma process_sample_progress (i : nat) (st : loop_state Model) :
  Forall promptable (st_data st) -> (i < length (st_data st))%nat ->
  exists st', process_sample chat prompt_of i st = (None, st')
              /\ Forall promptable (st_data st')
              /\ length (st_data st') = length (st_data st).
Proof.
  intros Hall Hi. unfold process_sample.
  destruct (nth_error (st_data st) i) as [sample|] eqn:E.
  2:{ apply nth_error_None in E. lia. }
  assert (Hs : promptable sample).
  { rewrite Forall_forall in Hall. apply Hall. eapply nth_error_In; eauto. }
  destruct Hs as [[prompt system_prompt] Hp]. rewrite Hp.
  destruct (chat_answers (st_model st) prompt system_prompt) as [r Hr].
  destruct (chat (st_model st) prompt system_prompt) as [r' model'].
  cbn [fst] in Hr. subst r'.
  destruct (extract_last_boxed_answer_total r) as [prediction ->].
  eexists. split; [reflexivity|]. cbn [st_data]. split.
  - apply Forall_set_nth; [assumption|].
    exists (prompt, system_prompt). now rewrite prompt_stable.
  - apply length_set_nth.
Qed.

Lemma process_indices_progress (n : nat) (flat : list nat) :
  (0 < n)%nat ->
  forall st : loop_state Model,
    Forall promptable (st_data st) -> length (st_data st) = n ->
    fst (process_indices chat prompt_of n flat st) = None.
Proof.
  intros Hpos. induction flat as [|i flat IH]; intros st Hall Hn; [reflexivity|].
  cbn [process_indices].
  destruct (process_sample_progress (i mod n) st Hall) as [st' [-> [Hall' Hlen]]].
  { rewrite Hn. apply Nat.mod_upper_bound. lia. }
  apply IH; [assumption | lia].
Qed.

Lemma run_loop_completes (model : Model) (output evaluation_data : list dict)
    (test_time : nat) :
  Forall promptable evaluation_data ->
  let run := run_loop chat prompt_of model output evaluation_data test_time in
  fst run = None
  /\ length (st_file (snd run))
     = Nat.max (length output) (test_time * length evaluation_data).
Proof.
  intros Hall. cbv zeta.
  assert (Hnone : fst (run_loop chat prompt_of model output evaluation_data test_time)
                  = None).
  { rewrite run_loop_flat.
    destruct (Nat.eq_dec (length evaluation_data) 0) as [Hz|Hz].
    - rewrite Hz, Nat.mul_0_r. reflexivity.
    - apply process_indices_progress; [lia | exact Hall | reflexivity]. }
  split; [exact Hnone|].
  destruct (run_loop_trace Model chat prompt_of model output evaluation_data
              test_time) as [new [Hf [_ [_ [_ He]]]]].
  rewrite Hf, length_app, (He Hnone). lia.
Qed.

End LoopProgress.

Lemma task2_prompt_stable (build_task2_prompt : pyval -> pyval -> text)
    (d : dict) (r p : pyval) :
  task2_prompt build_task2_prompt
    (dict_set (dict_set d (key "response") r) (key "prediction") p)
  = task2_prompt build_task2_prompt d.
Proof.
  unfold task2_prompt, key. now rewrite !dict_get_assigned by reflexivity.
Qed.

Lemma student_prompt_stable (json_dumps : pyval -> text)
    (build_guided_student_prompt : pyval -> pyval -> text -> text * text)
    (d : dict) (r p : pyval) :
  student_prompt json_dumps build_guided_student_prompt
    (dict_set (dict_set d (key "response") r) (key "prediction") p)
  = student_prompt json_dumps build_guided_student_prompt d.
Proof.
  unfold student_prompt, key. now rewrite !dict_get_assigned by reflexivity.
Qed.

Lemma qas_samples_shape (item : dict) :
  forall qas_list samples,
    qas_samples item qas_list = Ok samples ->
    Forall (fun d => exists q a m, d = task2_sample m (q, a)) samples.
Proof.
  induction qas_list as [|qas rest IH]; intros samples H; cbn [qas_samples] in H.
  - injection H as <-. constructor.
  - destruct (py_getitem qas (key "question")) as [q|]; cbn [bind] in H; [|discriminate].
    destruct (py_getitem qas (key "answer")) as [a|]; cbn [bind] in H; [|discriminate].
    destruct (dict_get item (key "material")) as [m|]; cbn [bind] in H; [|discriminate].
    destruct (qas_samples item rest) as [more|]; cbn [bind] in H; [|discriminate].
    injection H as <-. constructor; [now exists q, a, m | now apply IH].
Qed.

Lemma preprocess_task2_shape :
  forall raw_data evaluation_data,
    preprocess_task2 raw_data = Ok evaluation_data ->
    Forall (fun d => exists q a m, d = task2_sample m (q, a)) evaluation_data.
Proof.
  induction raw_data as [|item rest IH]; intros data H; cbn [preprocess_task2] in H.
  - injection H as <-. constructor.
  - destruct (dict_get item (key "qas")) as [v|]; cbn [bind] in H; [|discriminate].
    destruct (py_iter v) as [l|]; cbn [bind] in H; [|discriminate].
    destruct (qas_samples item l) as [samples|] eqn:Hs; cbn [bind] in H; [|discriminate].
    destruct (preprocess_task2 rest) as [more|]; cbn [bind] in H; [|discriminate].
    injection H as <-. apply Forall_app. split.
    + eapply qas_samples_shape; eauto.
    + now apply IH.
Qed.

(** X9.  When the backend never raises, the loop of [run_evaluation_task1]
    on samples that all have the keys "question" and "field", and the loop
    of [run_evaluation_task2] on any dataset its preprocessing accepts, run
    to the end without an exception, and the output file then holds
    [max R (T * N)] lines ([R] lines on entry, [N] samples, [T]
    iterations). *)
Theorem loops_complete (Model : Type)
    (chat : Model -> text -> option text -> res text * Model) :
  (forall m p s, exists r, fst (chat m p s) = Ok r) ->
  (forall (build_task1_prompt : pyval -> pyval -> text) model output
          evaluation_data test_time,
      Forall (fun d => dict_has d (key "question") = true
                       /\ dict_has d (key "field") = true) evaluation_data ->
      let run := run_loop chat (task1_prompt build_task1_prompt) model output
                   evaluation_data test_time in
      fst run = None
      /\ length (st_file (snd run))
         = Nat.max (length output) (test_time * length evaluation_data))
  /\ (forall (build_task2_prompt : pyval -> pyval -> text) model output raw_data
             evaluation_data test_time,
        preprocess_task2 raw_data = Ok evaluation_data ->
        let run := run_loop chat (task2_prompt build_task2_prompt) model output
                     evaluation_data test_time in
        fst run = None
        /\ length (st_file (snd run))
           = Nat.max (length output) (test_time * length evaluation_data)).
Proof.
  intros Hchat. split.
  - intros build model output data T Hkeys.
    apply (run_loop_completes Model chat _ Hchat (task1_prompt_stable build)).
    eapply Forall_impl; [|exact Hkeys]. cbv beta. intros d [Hq Hf].
    unfold task1_prompt, dict_get, dict_has, key in *. cbn [hashable].
    destruct (dict_lookup d (PStr (py "question"))); [|discriminate].
    destruct (dict_lookup d (PStr (py "field"))); [|discriminate].
    cbn [bind]. eauto.
  - intros build model output raw data T Hpre.
    apply (run_loop_completes Model chat _ Hchat (task2_prompt_stable build)).
    eapply Forall_impl; [|exact (preprocess_task2_shape raw data Hpre)].
    cbv beta. intros d [q [a [m ->]]]. eexists. reflexivity.
Qed.

Lemma loops_complete_witness :
  let run := run_loop (constant_chat (py "\boxed{A}"))
               (task1_prompt plain_task1_prompt) tt
               [task1_sample "q0" "A"] [task1_sample "q1" "A"; task1_sample "q2" "B"]
               2 in
  fst run = None /\ length (st_file (snd run)) = Nat.max 1 (2 * 2).
Proof.
  apply (proj1 (loops_complete unit (constant_chat (py "\boxed{A}"))
                  (fun _ _ _ => ex_intro _ (py "\boxed{A}") eq_refl))
           plain_task1_prompt tt [task1_sample "q0" "A"]
           [task1_sample "q1" "A"; task1_sample "q2" "B"] 2%nat).
  repeat constructor.
Defined.

(** X10.  With a backend whose response depends on the prompts alone,
    [run_evaluation_task2] and [run_evaluation_student] resume like task1:
    cutting the output file of an uninterrupted run to its first [k] lines
    and running again gives the output file of the uninterrupted run. *)
Theorem task2_and_student_resume (upper : text -> text) (Model : Type)
    (chat : Model -> text -> option text -> res text * Model)
    (reply : text -> option text -> res text) :
  (forall m p s, fst (chat m p s) = reply p s) ->
  (forall (build_task2_prompt : pyval -> pyval -> text) model model' raw_data
          test_time k,
      let run := run_evaluation_task2 upper build_task2_prompt chat in
      let full := st_file (snd (run model [] raw_data test_time)) in
      st_file (snd (run model' (firstn k full) raw_data test_time)) = full)
  /\ (forall (json_dumps : pyval -> text)
             (build_guided_student_prompt : pyval -> pyval -> text -> text * text)
             name model model' evaluation_data test_time k,
        let run := run_evaluation_student upper json_dumps
                     build_guided_student_prompt chat name in
        let full := st_file (snd (run model evaluation_data [] test_time)) in
        st_file (snd (run model' evaluation_data (firstn k full) test_time)) = full).
Proof.
  intros Hreply. split.
  - intros build model model' raw T k. cbv zeta. unfold run_evaluation_task2.
    destruct (preprocess_task2 raw) as [data|e].
    + pose proof (resume_file Model chat _ reply Hreply (task2_prompt_stable build)
                    model model' data T k) as H. cbv zeta in H.
      destruct (run_loop chat (task2_prompt build) model [] data T) as [[e|] st];
        cbn [snd] in *;
        destruct (run_loop chat (task2_prompt build) model' _ data T) as [[e'|] st'];
        exact H.
    + cbn. now destruct k.
  - intros dumps build name model model' data T k. cbv zeta.
    unfold run_evaluation_student.
    pose proof (resume_file Model chat _ reply Hreply
                  (student_prompt_stable dumps build) model model' data T k) as H.
    cbv zeta in H.
    destruct (run_loop chat (student_prompt dumps build) model [] data T)
      as [[e|] st]; cbn [snd] in *;
      destruct (run_loop chat (student_prompt dumps build) model' _ data T)
        as [[e'|] st']; exact H.
Qed.

Lemma task2_and_student_resume_witness :
  let raw := [[(key "material", key "m");
               (key "qas", PList [PDict [(key "question", key "q1"); (key "answer", key "A")];
                                  PDict [(key "question", key "q2"); (key "answer", key "B")]])]] in
  let run := run_evaluation_task2 ascii_upper plain_task1_prompt
               (constant_chat (py "\boxed{A}")) in
  let full := st_file (snd (run tt [] raw 2%nat)) in
  length full = 4%nat
  /\ st_file (snd (run tt (firstn 1 full) raw 2%nat)) = full.
Proof.
  cbv zeta. split; [reflexivity|].
  apply (proj1 (task2_and_student_resume ascii_upper unit
                  (constant_chat (py "\boxed{A}")) (fun _ _ => Ok (py "\boxed{A}"))
                  (fun _ _ _ => eq_refl))).
Defined.

(** ** The preprocessing of task2 *)

Lemma qas_samples_views (item : dict) (material : pyval) :
  forall (l : list pyval) (qas : list (pyval * pyval)),
    (qas = [] \/ dict_get item (key "material") = Ok material) ->
    Forall2 (fun v qa => py_getitem v (key "question") = Ok (fst qa)
                         /\ py_getitem v (key "answer") = Ok (snd qa)) l qas ->
    qas_samples item l = Ok (map (task2_sample material) qas).
Proof.
  intros l qas Hm H. induction H as [|v qa l qas [Hq Ha] Hrest IH]; [reflexivity|].
  destruct Hm as [Hm|Hm]; [discriminate|].
  cbn [qas_samples map]. rewrite Hq, Ha, Hm. cbn [bind].
  rewrite IH by now right. reflexivity.
Qed.

Lemma preprocess_task2_flattens_views (raw_data : list dict)
    (views : list (pyval * list (pyval * pyval))) :
  Forall2 task2_item raw_data views ->
  preprocess_task2 raw_data
  = Ok (flat_map (fun view => map (task2_sample (fst view)) (snd view)) views).
Proof.
  intros H. induction H as [|item view raw views [Hm [l [Hq Hl]]] Hrest IH];
    [reflexivity|].
  cbn [preprocess_task2 flat_map]. rewrite Hq. cbn [bind py_iter].
  rewrite (qas_samples_views item (fst view) l (snd view) Hm Hl). cbn [bind].
  rewrite IH. reflexivity.
Qed.

(** X11.  The preprocessing of [run_evaluation_task2] flattens the dataset:
    when every item has a list under "qas" whose elements have a question
    and an answer, and a material unless that list is empty, the evaluation
    data is, item by item and question by question in order, the sample with
    the question, the answer and the material of the item. *)
Theorem preprocess_task2_flattens (raw_data : list dict)
    (views : list (pyval * list (pyval * pyval))) :
  Forall2 task2_item raw_data views ->
  preprocess_task2 raw_data
  = Ok (flat_map (fun view => map (task2_sample (fst view)) (snd view)) views).
Proof. apply preprocess_task2_flattens_views. Qed.

Lemma preprocess_task2_flattens_witness :
  preprocess_task2
    [[(key "material", key "m");
      (key "qas", PList [PDict [(key "question", key "q1"); (key "answer", key "A")];
                         PDict [(key "question", key "q2"); (key "answer", key "B")]])];
     [(key "qas", PList [])]]
  = Ok [task2_sample (key "m") (key "q1", key "A");
        task2_sample (key "m") (key "q2", key "B")].
Proof.
  apply (preprocess_task2_flattens _
           [(key "m", [(key "q1", key "A"); (key "q2", key "B")]); (PNone, [])]).
  constructor; [|constructor; [|constructor]]; split.
  - right. reflexivity.
  - eexists. split; [reflexivity|].
    constructor; [split; reflexivity|]. constructor; [split; reflexivity|]. constructor.
  - left. reflexivity.
  - eexists. split; [reflexivity|]. constructor.
Defined.

(** ** Stage A of task3 *)

Lemma combine_seq_app {A : Type} (l1 l2 : list A) (a : nat) :
  combine (seq a (length (l1 ++ l2))) (l1 ++ l2)
  = combine (seq a (length l1)) l1 ++ combine (seq (a + length l1) (length l2)) l2.
Proof.
  revert a. induction l1 as [|x l1 IH]; intros a; cbn [length app seq combine].
  - now rewrite Nat.add_0_r.
  - rewrite IH. cbn [app].
    now replace (a + S (length l1))%nat with (S a + length l1)%nat by lia.
Qed.

Section StageA.

Variable json_loads : text -> res pyval.
Variable build_teacher_prompt : pyval -> pyval -> text * text.
Variable Teacher : Type.
Variable teacher_chat : Teacher -> text -> option text -> res text * Teacher.

Local Abbreviation step := (knowledge_step json_loads build_teacher_prompt teacher_chat).
Local Abbreviation kloop := (knowledge_loop json_loads build_teacher_prompt teacher_chat).

Lemma knowledge_loop_app (l1 l2 : list (nat * dict)) (st : knowledge_state Teacher) :
  kloop (l1 ++ l2) st = kloop l2 (kloop l1 st).
Proof.
  revert st. induction l1 as [|[i s] l1 IH]; intros st; [reflexivity|].
  cbn [app knowledge_loop]. apply IH.
Qed.

Lemma knowledge_loop_skips :
  forall (l : list dict) (a : nat) (st : knowledge_state Teacher),
    (a + length l <= length (ks_results st))%nat ->
    kloop (combine (seq a (length l)) l) st = st.
Proof.
  induction l as [|s l IH]; intros a st H; [reflexivity|].
  cbn [length seq combine knowledge_loop]. cbn [length] in H.
  unfold knowledge_step.
  replace (a <? length (ks_results st))%nat with true
    by (symmetry; apply Nat.ltb_lt; lia).
  apply IH. lia.
Qed.

Lemma knowledge_loop_resume (l1 l2 : list dict) (st : knowledge_state Teacher) :
  (length l1 <= length (ks_results st))%nat ->
  kloop (enumerate (l1 ++ l2)) st = kloop (combine (seq (length l1) (length l2)) l2) st.
Proof.
  intros H. unfold enumerate.
  rewrite combine_seq_app, knowledge_loop_app.
  rewrite (knowledge_loop_skips l1 0 st) by (rewrite Nat.add_0_l; exact H).
  reflexivity.
Qed.

Lemma knowledge_loop_from_count (model : Teacher) (output evaluation_data : list dict) :
  (length output < length evaluation_data)%nat ->
  kloop (enumerate evaluation_data) (mk_kstate model output output)
  = kloop (combine (seq (length output)
                        (length (skipn (length output) evaluation_data)))
                   (skipn (length output) evaluation_data))
          (mk_kstate model output output).
Proof.
  intros E.
  pose proof (knowledge_loop_resume (firstn (length output) evaluation_data)
                (skipn (length output) evaluation_data)
                (mk_kstate model output output)) as H.
  rewrite firstn_skipn, length_firstn in H.
  replace (Nat.min (length output) (length evaluation_data)) with (length output)
    in H by lia.
  apply H. cbn [ks_results]. lia.
Qed.

(** What one processed position does: nothing to the file, or one record
    appended to the file and to the results alike. *)
Lemma knowledge_step_outcome (i : nat) (sample : dict) (st : knowledge_state Teacher) :
  ks_results st = ks_file st ->
  let st' := step i sample st in
  ks_results st' = ks_file st'
  /\ (ks_file st' = ks_file st
      \/ exists record, ks_file st' = ks_file st ++ [record]
                        /\ consistent_knowledge json_loads record).
Proof.
  intros Heq. cbv zeta. unfold knowledge_step.
  destruct (i <? length (ks_results st))%nat; [now auto|].
  destruct (dict_get sample (key "guideline")) as [g|]; cbn [bind]; [|now auto].
  destruct (dict_get sample (key "material")) as [m|]; cbn [bind]; [|now auto].
  destruct (build_teacher_prompt g m) as [system_prompt user_prompt].
  destruct (teacher_chat (ks_model st) user_prompt (Some system_prompt)) as [[r|e] model'];
    cbn [ks_results ks_file]; [|now auto].
  destruct (extract_last_knowledge_object json_loads r) as [k|e] eqn:Hk;
    cbn [ks_results ks_file]; [|now auto].
  split; [now rewrite Heq|]. right. eexists. split; [reflexivity|].
  exists r, k. unfold key. split; [|split; [exact Hk|]].
  - rewrite dict_lookup_set_other by reflexivity. apply dict_lookup_set_same.
  - apply dict_lookup_set_same.
Qed.

Lemma knowledge_loop_outcome :
  forall (samples : list (nat * dict)) (st : knowledge_state Teacher),
    ks_results st = ks_file st ->
    let st' := kloop samples st in
    ks_results st' = ks_file st'
    /\ exists new, ks_file st' = ks_file st ++ new
                   /\ (length new <= length samples)%nat
                   /\ Forall (consistent_knowledge json_loads) new.
Proof.
  induction samples as [|[i s] rest IH]; intros st Heq; cbv zeta.
  - split; [assumption|]. exists []. rewrite app_nil_r. repeat split; auto.
  - cbn [knowledge_loop length].
    destruct (knowledge_step_outcome i s st Heq) as [Heq' Hstep]. cbv zeta in *.
    destruct (IH _ Heq') as [Hres [new [Hf [Hl Hc]]]]. cbv zeta in *.
    split; [assumption|].
    destruct Hstep as [Hsame|[record [Happ Hrec]]].
    + exists new. rewrite Hf, Hsame. split; [reflexivity|]. split; [lia | assumption].
    + exists (record :: new). rewrite Hf, Happ, <- app_assoc. cbn [app length].
      split; [reflexivity|]. split; [lia | now constructor].
Qed.

Lemma generate_knowledge_outcome (model : Teacher) (output evaluation_data : list dict) :
  let ks := generate_knowledge_for_task3 json_loads build_teacher_prompt teacher_chat
              model output evaluation_data in
  ks_results ks = ks_file ks
  /\ exists new, ks_file ks = output ++ new
                 /\ (length new <= length evaluation_data - length output)%nat
                 /\ Forall (consistent_knowledge json_loads) new.
Proof.
  cbv zeta. unfold generate_knowledge_for_task3.
  destruct (length evaluation_data <=? length output)%nat eqn:E.
  - cbn [ks_results ks_file]. split; [reflexivity|]. exists [].
    rewrite app_nil_r. repeat split; [cbn; lia | constructor].
  - apply Nat.leb_gt in E. rewrite knowledge_loop_from_count by assumption.
    destruct (knowledge_loop_outcome
                (combine (seq (length output)
                              (length (skipn (length output) evaluation_data)))
                         (skipn (length output) evaluation_data))
                (mk_kstate model output output) eq_refl) as [Hres [new [Hf [Hlen Hc]]]].
    cbv zeta in *. split; [assumption|]. exists new. cbn [ks_file] in Hf.
    split; [assumption|]. split; [|assumption].
    rewrite length_combine, length_seq, Nat.min_id, length_skipn in Hlen. exact Hlen.
Qed.

(** X12.  Whatever the teacher does, [generate_knowledge_for_task3] returns
    exactly the records its file holds afterwards; the file is the file on
    entry followed by at most [N - R] new records, and in each new record the
    knowledge is what [extract_last_knowledge_object] returns on the response
    of that record. *)
Theorem knowledge_results_are_the_file (model : Teacher)
    (output evaluation_data : list dict) :
  let ks := generate_knowledge_for_task3 json_loads build_teacher_prompt teacher_chat
              model output evaluation_data in
  ks_results ks = ks_file ks
  /\ exists new, ks_file ks = output ++ new
                 /\ (length new <= length evaluation_data - length output)%nat
                 /\ Forall (consistent_knowledge json_loads) new.
Proof. apply generate_knowledge_outcome. Qed.

Variable reply : text -> option text -> res text.
Hypothesis teacher_reply : forall m p s, fst (teacher_chat m p s) = reply p s.

Local Abbreviation krecord := (knowledge_record json_loads build_teacher_prompt reply).

Lemma knowledge_loop_processes :
  forall (l : list dict) (a : nat) (st : knowledge_state Teacher),
    (length (ks_results st) <= a)%nat ->
    ks_results st = ks_file st ->
    ks_file (kloop (combine (seq a (length l)) l) st)
    = ks_file st ++ oks (map krecord l).
Proof.
  induction l as [|s l IH]; intros a st Hle Heq.
  - cbn. now rewrite app_nil_r.
  - cbn [length seq combine knowledge_loop map].
    assert (Hstep : let st' := step a s st in
                    ks_results st' = ks_file st'
                    /\ (length (ks_results st') <= S a)%nat
                    /\ ks_file st' ++ oks (map krecord l)
                       = ks_file st ++ oks (krecord s :: map krecord l)).
    { cbv zeta. unfold knowledge_step, knowledge_record.
      replace (a <? length (ks_results st))%nat with false
        by (symmetry; apply Nat.ltb_ge; lia).
      destruct (dict_get s (key "guideline")) as [g|]; cbn [bind oks];
        [|repeat split; auto; lia].
      destruct (dict_get s (key "material")) as [m|]; cbn [bind oks];
        [|repeat split; auto; lia].
      destruct (build_teacher_prompt g m) as [system_prompt user_prompt].
      rewrite <- (teacher_reply (ks_model st) user_prompt (Some system_prompt)).
      destruct (teacher_chat (ks_model st) user_prompt (Some system_prompt))
        as [[r|e] model']; cbn [fst bind oks ks_results ks_file];
        [|repeat split; auto; lia].
      destruct (extract_last_knowledge_object json_loads r) as [k|e];
        cbn [bind oks ks_results ks_file]; [|repeat split; auto; lia].
      rewrite Heq, length_app, <- app_assoc. cbn [length app].
      repeat split; auto. rewrite <- Heq. lia. }
    cbv zeta in Hstep. destruct Hstep as [Heq' [Hle' Hfile]].
    rewrite IH by assumption. exact Hfile.
Qed.

Lemma generate_knowledge_file (model : Teacher) (output evaluation_data : list dict) :
  ks_file (generate_knowledge_for_task3 json_loads build_teacher_prompt teacher_chat
             model output evaluation_data)
  = output ++ oks (map krecord (skipn (length output) evaluation_data)).
Proof.
  unfold generate_knowledge_for_task3.
  destruct (length evaluation_data <=? length output)%nat eqn:E.
  - apply Nat.leb_le in E. rewrite skipn_all2 by assumption.
    cbn. now rewrite app_nil_r.
  - apply Nat.leb_gt in E. rewrite knowledge_loop_from_count by assumption.
    rewrite knowledge_loop_processes; cbn [ks_results ks_file];
      [reflexivity | lia | reflexivity].
Qed.

End StageA.

(** X13.  With a teacher whose response depends on the prompts alone, the
    knowledge file after [generate_knowledge_for_task3] is the file on entry
    followed by the records of the samples at the positions [R], [R+1], ...
    ([R] the number of records on entry) that are processed without an
    exception, in order: a sample whose processing raises leaves no record
    and the samples after it are still processed. *)
Theorem knowledge_file_by_position (json_loads : text -> res pyval)
    (build_teacher_prompt : pyval -> pyval -> text * text) (Teacher : Type)
    (teacher_chat : Teacher -> text -> option text -> res text * Teacher)
    (reply : text -> option text -> res text)
    (model : Teacher) (output evaluation_data : list dict) :
  (forall m p s, fst (teacher_chat m p s) = reply p s) ->
  ks_file (generate_knowledge_for_task3 json_loads build_teacher_prompt teacher_chat
             model output evaluation_data)
  = output ++ oks (map (knowledge_record json_loads build_teacher_prompt reply)
                       (skipn (length output) evaluation_data)).
Proof. intros H. now apply generate_knowledge_file. Qed.

Lemma knowledge_file_by_position_witness :
  let reply := fun (_ : text) (_ : option text) => Ok (py "k") in
  let dataset := [task3_sample "m0" "A"; [(key "material", key "m1")];
                  task3_sample "m2" "B"] in
  let output := [task3_sample "old" "A"] in
  ks_file (generate_knowledge_for_task3 no_json plain_teacher_prompt
             (constant_chat (py "k")) tt output dataset)
  = output ++ oks (map (knowledge_record no_json plain_teacher_prompt reply)
                       (skipn 1 dataset)).
Proof.
  cbv zeta.
  apply (knowledge_file_by_position no_json plain_teacher_prompt unit
           (constant_chat (py "k")) (fun _ _ => Ok (py "k")) tt
           [task3_sample "old" "A"]
           [task3_sample "m0" "A"; [(key "material", key "m1")]; task3_sample "m2" "B"]).
  reflexivity.
Defined.

(** ** The scores are fractions *)

Lemma bucket_accuracy_in_unit (upper : text -> text) (d : pyval) (q : Q) :
  bucket_accuracy upper d = Ok q -> in_unit q.
Proof.
  unfold bucket_accuracy.
  destruct (py_getitem d (key "predictions")) as [p|]; cbn [bind]; [|discriminate].
  destruct (py_getitem d (key "answers")) as [a|]; cbn [bind]; [|discriminate].
  destruct (py_list p) as [ps|]; cbn [bind]; [|discriminate].
  destruct (py_list a) as [ans|]; cbn [bind]; [|discriminate].
  apply calculate_accuracy_in_unit.
Qed.

Lemma calculate_overall_accuracy_in_unit (upper : text -> text) (results : list dict)
    (d : dict) :
  calculate_overall_accuracy upper results = Ok d ->
  exists q, d = [(key "overall", PNum q)] /\ in_unit q.
Proof.
  unfold calculate_overall_accuracy.
  destruct (collect results empty_bucket) as [overall_data|]; cbn [bind]; [|discriminate].
  destruct (bucket_accuracy upper overall_data) as [q|] eqn:Hq; cbn [bind];
    [|discriminate].
  intros H. injection H as <-. exists q. split; [reflexivity|].
  eapply bucket_accuracy_in_unit; eauto.
Qed.

Lemma py_sum_range :
  forall (values : list pyval) (acc total : Q),
    py_sum values acc = Ok total ->
    Forall (fun v => exists q, v = PNum q /\ in_unit q) values ->
    (acc <= total <= acc + inject_Z (Z.of_nat (length values)))%Q.
Proof.
  induction values as [|v values IH]; intros acc total H Hall.
  - cbn in H. injection H as <-. cbn [length Z.of_nat]. split; [apply Qle_refl|].
    rewrite Qplus_0_r. apply Qle_refl.
  - inversion Hall as [|? ? [q [-> [Hq0 Hq1]]] Hrest]; subst.
    cbn [py_sum] in H. destruct (IH _ _ H Hrest) as [Hlo Hhi]. split.
    + apply Qle_trans with (acc + q)%Q; [|assumption].
      rewrite <- (Qplus_0_r acc) at 1.
      apply Qplus_le_compat; [apply Qle_refl | assumption].
    + apply Qle_trans with (acc + q + inject_Z (Z.of_nat (length values)))%Q;
        [assumption|].
      assert (E : (acc + inject_Z (Z.of_nat (length (PNum q :: values)))
                   == acc + 1 + inject_Z (Z.of_nat (length values)))%Q).
      { cbn [length]. rewrite Nat2Z.inj_succ. unfold Z.succ.
        rewrite inject_Z_plus. ring. }
      rewrite E.
      apply Qplus_le_compat; [|apply Qle_refl].
      apply Qplus_le_compat; [apply Qle_refl | assumption].
Qed.

Lemma mean_of_in_unit (values : list pyval) (mean : Q) :
  mean_of values = Ok mean ->
  Forall (fun v => exists q, v = PNum q /\ in_unit q) values ->
  in_unit mean.
Proof.
  unfold mean_of. intros H Hall.
  destruct (py_sum values 0) as [total|] eqn:Hs; cbn [bind] in H; [|discriminate].
  destruct (py_sum_range _ _ _ Hs Hall) as [Hlo Hhi]. rewrite Qplus_0_l in Hhi.
  destruct values as [|v values]; [discriminate|]. injection H as <-.
  assert (Hpos : (0 < inject_Z (Z.of_nat (length (v :: values))))%Q).
  { rewrite <- (Zlt_Qlt 0). cbn [length]. lia. }
  split.
  - apply Qle_shift_div_l; [assumption|]. now rewrite Qmult_0_l.
  - apply Qle_shift_div_r; [assumption|]. now rewrite Qmult_1_l.
Qed.

Section Fractions.

Variable upper : text -> text.
Variable json_loads : text -> res pyval.
Variable json_dumps : pyval -> text.
Variable build_teacher_prompt : pyval -> pyval -> text * text.
Variable build_guided_student_prompt : pyval -> pyval -> text -> text * text.
Variable Teacher : Type.
Variable teacher_chat : Teacher -> text -> option text -> res text * Teacher.
Variable Student : Type.
Variable student_load : text -> res Student.
Variable student_chat : Student -> text -> option text -> res text * Student.

Lemma student_score_in_unit (data : list dict) (test_time : nat) (fs : files)
    (name : text) (q : Q) :
  student_score upper json_dumps build_guided_student_prompt student_load student_chat
    data test_time fs name q ->
  in_unit q.
Proof.
  intros [student [st [_ [H _]]]]. unfold run_evaluation_student in H.
  destruct (run_loop _ _ _ _ _ _) as [[e|] st']; cbn [fst] in H; [discriminate|].
  destruct (calculate_overall_accuracy upper (evaluation_results st')) as [d|] eqn:Hd;
    cbn [bind] in H; [|discriminate].
  apply calculate_overall_accuracy_in_unit in Hd as [q' [-> Hq']].
  cbn in H. injection H as <-. exact Hq'.
Qed.

Lemma task3_summary_in_unit (model : Teacher)
    (knowledge_output evaluation_data : list dict) (fs : files) (test_time : nat)
    (summary : pyval) (after : list dict * files) :
  run_evaluation_task3 upper json_loads json_dumps build_teacher_prompt
    build_guided_student_prompt teacher_chat student_load student_chat
    model knowledge_output evaluation_data fs test_time = (Ok summary, after) ->
  exists (mean : Q) (scores : list Q),
    summary = PDict [(key "overall", PNum mean);
                     (key "student_scores",
                      PDict (combine (map PStr roster) (map PNum scores)))]
    /\ Forall in_unit scores /\ in_unit mean.
Proof.
  unfold run_evaluation_task3.
  set (ks := generate_knowledge_for_task3 _ _ _ _ _ _).
  destruct (student_loop upper json_dumps build_guided_student_prompt student_load
              student_chat roster (ks_results ks) test_time [] fs) as [r fs'] eqn:Hloop.
  destruct r as [d|]; cbn [bind]; [|discriminate].
  apply student_loop_scores in Hloop as [qs [Hqs ->]]; [|apply roster_NoDup].
  assert (Hunit : Forall in_unit qs).
  { clear - Hqs. induction Hqs as [|n q ns qs Hn _ IH]; constructor; [|assumption].
    eapply student_score_in_unit; eauto. }
  assert (Hlen : length qs = length roster).
  { symmetry. eapply Forall2_length; eauto. }
  destruct qs as [|q1 [|q2 [|q3 [|q4 [|q5 [|? ?]]]]]]; try discriminate Hlen.
  vm_compute add_scores.
  destruct (mean_of _) as [mean|] eqn:Hmean; cbn [bind]; [|discriminate].
  intros H. injection H as <- _.
  exists mean, [q1; q2; q3; q4; q5]. split; [reflexivity|]. split; [assumption|].
  apply (mean_of_in_unit _ _ Hmean). cbn [map snd].
  repeat match goal with
         | H : Forall in_unit (_ :: _) |- _ => inversion H; subst; clear H
         end.
  repeat constructor; eauto.
Qed.

End Fractions.

(** X14.  Every score the task2 and task3 runs report is a fraction: when
    [run_evaluation_task2] returns, its result is the dictionary with the
    one key "overall" and a value between 0 and 1; when
    [run_evaluation_task3] returns a summary, each student score and the
    overall mean lie between 0 and 1. *)
Theorem reported_scores_are_fractions (upper : text -> text) :
  (forall (build_task2_prompt : pyval -> pyval -> text) (Model : Type)
          (chat : Model -> text -> option text -> res text * Model)
          model output raw_data test_time d st,
      run_evaluation_task2 upper build_task2_prompt chat model output raw_data test_time
      = (Ok d, st) ->
      exists q, d = [(key "overall", PNum q)] /\ in_unit q)
  /\ (forall json_loads json_dumps build_teacher_prompt build_guided_student_prompt
             (Teacher : Type)
             (teacher_chat : Teacher -> text -> option text -> res text * Teacher)
             (Student : Type) (student_load : text -> res Student)
             (student_chat : Student -> text -> option text -> res text * Student)
             model knowledge_output evaluation_data fs test_time summary after,
        run_evaluation_task3 upper json_loads json_dumps build_teacher_prompt
          build_guided_student_prompt teacher_chat student_load student_chat
          model knowledge_output evaluation_data fs test_time = (Ok summary, after) ->
        exists (mean : Q) (scores : list Q),
          summary = PDict [(key "overall", PNum mean);
                           (key "student_scores",
                            PDict (combine (map PStr roster) (map PNum scores)))]
          /\ Forall in_unit scores /\ in_unit mean).
Proof.
  split.
  - intros build Model chat model output raw T d st. unfold run_evaluation_task2.
    destruct (preprocess_task2 raw) as [data|]; [|discriminate].
    destruct (run_loop _ _ _ _ _ _) as [[e|] st']; [discriminate|].
    intros H. injection H as H _. now apply calculate_overall_accuracy_in_unit in H.
  - intros. eapply task3_summary_in_unit; eauto.
Qed.

Lemma reported_scores_are_fractions_witness :
  exists (mean : Q) (scores : list Q),
    demo_task3_summary
    = PDict [(key "overall", PNum mean);
             (key "student_scores",
              PDict (combine (map PStr roster) (map PNum scores)))]
    /\ Forall in_unit scores /\ in_unit mean.
Proof.
  apply (proj2 (reported_scores_are_fractions ascii_upper)
           no_json plain_dumps plain_teacher_prompt plain_student_prompt
           unit (constant_chat (py "k")) unit (fun _ => Ok tt)
           (constant_chat (py "\boxed{A}")) tt []
           [task3_sample "m0" "A"; task3_sample "m1" "B"] (fun _ => []) 1%nat
           demo_task3_summary (snd demo_task3)).
  change (demo_task3 = (Ok demo_task3_summary, snd demo_task3)).
  rewrite (surjective_pairing demo_task3) at 1.
  apply f_equal2; [vm_compute; reflexivity | reflexivity].
Defined.

(** ** The thinking part of a generation is cut off *)

Lemma list_index_spec (x : N) (l : list N) :
  match list_index x l with
  | Ok i => exists pre post, l = pre ++ x :: post /\ ~ In x pre /\ length pre = i
  | Raise _ => ~ In x l
  end.
Proof.
  induction l as [|y l IH]; cbn [list_index]; [tauto|].
  destruct (y =? x) eqn:E.
  - apply N.eqb_eq in E. subst y. exists [], l. cbn. tauto.
  - apply N.eqb_neq in E. destruct (list_index x l) as [i|e]; cbn [bind].
    + destruct IH as [pre [post [-> [Hpre Hlen]]]]. exists (y :: pre), post.
      cbn. split; [reflexivity|]. split; [tauto | now f_equal].
    + cbn. tauto.
Qed.

Lemma content_index_split (output_ids : list N) :
  exists thinking answer,
    output_ids = thinking ++ answer
    /\ skipn (content_index output_ids) output_ids = answer
    /\ ~ In think_end answer
    /\ (thinking = [] \/ exists t, thinking = t ++ [think_end]).
Proof.
  unfold content_index.
  pose proof (list_index_spec think_end (rev output_ids)) as H.
  destruct (list_index think_end (rev output_ids)) as [i|e].
  - destruct H as [pre [post [Hrev [Hpre Hlen]]]].
    assert (Hids : output_ids = (rev post ++ [think_end]) ++ rev pre).
    { rewrite <- (rev_involutive output_ids), Hrev, rev_app_distr. reflexivity. }
    exists (rev post ++ [think_end]), (rev pre).
    split; [exact Hids|]. split; [|split].
    + rewrite Hids at 2. rewrite Hids at 1.
      rewrite length_app, length_rev, Hlen, Nat.add_sub.
      rewrite skipn_app, skipn_all, Nat.sub_diag. reflexivity.
    + now rewrite <- in_rev.
    + right. now exists (rev post).
  - exists [], output_ids. cbn [app skipn]. repeat split; auto.
    now rewrite in_rev.
Qed.

Lemma lstrip_chars_spec (cs s : text) :
  exists a, s = a ++ lstrip_chars cs s
            /\ Forall (fun c => mem_char c cs = true) a
            /\ (forall c r, lstrip_chars cs s = c :: r -> mem_char c cs = false).
Proof.
  unfold lstrip_chars. induction s as [|c s [a [Hs [Ha Hf]]]].
  - exists []. cbn. repeat split; [constructor | discriminate].
  - cbn [drop_while]. destruct (mem_char c cs) eqn:E.
    + exists (c :: a). cbn [app]. rewrite <- Hs. repeat split; auto.
    + exists []. cbn [app]. repeat split; [constructor|].
      intros c' r H. now injection H as <- _.
Qed.

Lemma newline_only (a : text) :
  Forall (fun c => mem_char c [10] = true) a -> Forall (eq 10) a.
Proof.
  intros H. eapply Forall_impl; [|exact H]. cbv beta. intros c Hc.
  unfold mem_char in Hc. cbn [existsb] in Hc. rewrite orb_false_r in Hc.
  apply N.eqb_eq in Hc. now subst.
Qed.

Lemma strip_newlines_spec (s : text) :
  let content := rstrip_chars [10] (lstrip_chars [10] s) in
  exists a b, s = a ++ content ++ b
              /\ Forall (eq 10) a /\ Forall (eq 10) b
              /\ startswith [10] content = false
              /\ endswith [10] content = false.
Proof.
  cbv zeta.
  destruct (lstrip_chars_spec [10] s) as [a [Hs [Ha Hfirst]]].
  set (m := lstrip_chars [10] s) in *.
  destruct (lstrip_chars_spec [10] (rev m)) as [b [Hm [Hb Hlast]]].
  unfold rstrip_chars. set (k := lstrip_chars [10] (rev m)) in *.
  assert (Hmk : m = rev k ++ rev b).
  { rewrite <- rev_app_distr, <- Hm. now rewrite rev_involutive. }
  exists a, (rev b). split; [now rewrite <- Hmk|].
  split; [now apply newline_only|]. split; [apply newline_only, Forall_rev, Hb|].
  split.
  - destruct (rev k) as [|c r] eqn:Hk; [reflexivity|].
    cbn [startswith]. rewrite andb_true_r.
    assert (Hc : mem_char c [10] = false).
    { apply (Hfirst c (r ++ rev b)). rewrite Hmk. reflexivity. }
    unfold mem_char in Hc. cbn [existsb] in Hc. rewrite orb_false_r in Hc.
    now rewrite N.eqb_sym.
  - unfold endswith. rewrite rev_involutive. cbn [rev app].
    destruct k as [|c r] eqn:Ek; [reflexivity|].
    cbn [startswith]. rewrite andb_true_r.
    pose proof (Hlast c r eq_refl) as Hc.
    unfold mem_char in Hc. cbn [existsb] in Hc. rewrite orb_false_r in Hc.
    now rewrite N.eqb_sym.
Qed.

(** X15.  [Qwen3Model.chat] returns the text after the thinking part: the
    generated token ids split into a thinking part, empty or ending in the
    token 151668, and an answer part without that token; what is returned is
    the decoding of the answer part with the newlines at both ends removed,
    so it neither starts nor ends with a newline. *)
Theorem chat_content_follows_last_think_end (decode : list N -> text)
    (output_ids : list N) :
  exists thinking answer a b,
    output_ids = thinking ++ answer
    /\ ~ In think_end answer
    /\ (thinking = [] \/ exists t, thinking = t ++ [think_end])
    /\ decode answer = a ++ chat_content decode output_ids ++ b
    /\ Forall (eq 10) a /\ Forall (eq 10) b
    /\ startswith [10] (chat_content decode output_ids) = false
    /\ endswith [10] (chat_content decode output_ids) = false.
Proof.
  destruct (content_index_split output_ids) as [thinking [answer [Hids [Hskip [Hno Hend]]]]].
  unfold chat_content. rewrite Hskip.
  destruct (strip_newlines_spec (decode answer)) as [a [b H]]. cbv zeta in H.
  exists thinking, answer, a, b. tauto.
Qed.

(** ** JSON lines files *)

Lemma drop_while_app (p : char -> bool) (a b : text) :
  drop_while p (a ++ b)
  = if forallb p a then drop_while p b else drop_while p a ++ b.
Proof.
  induction a as [|c a IH]; [reflexivity|].
  cbn [app drop_while forallb]. destruct (p c); [exact IH | reflexivity].
Qed.

Lemma drop_while_all (p : char -> bool) (a : text) :
  forallb p a = true -> drop_while p a = [].
Proof.
  induction a as [|c a IH]; [reflexivity|]. cbn [forallb drop_while].
  destruct (p c); [exact IH | discriminate].
Qed.

Lemma strip_newline (l : text) : strip (l ++ [10]) = strip l.
Proof.
  unfold strip. rewrite drop_while_app.
  destruct (forallb is_space l) eqn:E.
  - rewrite (drop_while_all _ _ E). reflexivity.
  - rewrite rev_app_distr. reflexivity.
Qed.

Lemma universal_newlines_ind (P : text -> Prop) :
  P [] ->
  (forall c r, c <> 13 -> P r -> P (c :: r)) ->
  P [13] ->
  (forall r, P r -> P (13 :: 10 :: r)) ->
  (forall c r, c <> 10 -> P (c :: r) -> P (13 :: c :: r)) ->
  forall s, P s.
Proof.
  intros Hnil Hchar Hcr Hcrlf Hcrc.
  assert (H : forall n s, (length s <= n)%nat -> P s).
  { induction n as [|n IH]; intros s Hs.
    - destruct s; [exact Hnil | cbn in Hs; lia].
    - destruct s as [|c r]; [exact Hnil|]. cbn [length] in Hs.
      destruct (N.eq_dec c 13) as [->|Hc].
      + destruct r as [|c' r']; [exact Hcr|]. cbn [length] in Hs.
        destruct (N.eq_dec c' 10) as [->|Hc'].
        * apply Hcrlf, IH. lia.
        * apply Hcrc; [assumption|]. apply IH. cbn [length]. lia.
      + apply Hchar; [assumption|]. apply IH. lia. }
  intros s. now apply (H (length s)).
Qed.

Lemma newline_terminated_tail (c : char) (r : text) :
  newline_terminated (c :: r) -> newline_terminated r.
Proof.
  intros [H|[a H]]; [discriminate|].
  destruct a as [|c' a]; cbn [app] in H; injection H as _ ->.
  - now left.
  - right. now exists a.
Qed.

Lemma newline_terminated_last (c : char) :
  newline_terminated [c] -> c = 10.
Proof.
  intros [H|[a H]]; [discriminate|].
  destruct a as [|c' a]; cbn [app] in H.
  - now injection H.
  - injection H as _ H. now destruct a.
Qed.

Lemma universal_newlines_char (c : char) (r : text) :
  c <> 13 -> universal_newlines (c :: r) = c :: universal_newlines r.
Proof.
  intros H. apply N.eqb_neq in H. cbn [universal_newlines]. now rewrite H.
Qed.

Lemma universal_newlines_crlf (r : text) :
  universal_newlines (13 :: 10 :: r) = 10 :: universal_newlines r.
Proof. reflexivity. Qed.

Lemma universal_newlines_cr (c : char) (r : text) :
  c <> 10 -> universal_newlines (13 :: c :: r) = 10 :: universal_newlines (c :: r).
Proof.
  intros H. apply N.eqb_neq in H.
  change (universal_newlines (13 :: c :: r))
    with (10 :: (if c =? 10 then universal_newlines r else universal_newlines (c :: r))).
  now rewrite H.
Qed.

Lemma universal_newlines_app (a : text) :
  newline_terminated a ->
  forall b, universal_newlines (a ++ b) = universal_newlines a ++ universal_newlines b.
Proof.
  induction a as [|c r Hc IH| |r IH|c r Hc IH] using universal_newlines_ind;
    intros Hnt b.
  - reflexivity.
  - cbn [app]. rewrite !universal_newlines_char by assumption.
    cbn [app]. f_equal. apply IH. eapply newline_terminated_tail; eauto.
  - apply newline_terminated_last in Hnt. discriminate.
  - cbn [app]. rewrite !universal_newlines_crlf. cbn [app]. f_equal. apply IH.
    do 2 apply newline_terminated_tail in Hnt. exact Hnt.
  - apply newline_terminated_tail in Hnt. specialize (IH Hnt b).
    change ((13 :: c :: r) ++ b) with (13 :: c :: (r ++ b)).
    rewrite !universal_newlines_cr by assumption. cbn [app]. f_equal. exact IH.
Qed.

Lemma universal_newlines_cons (c : char) (r : text) :
  exists c' r', universal_newlines (c :: r) = c' :: r'.
Proof.
  destruct (N.eq_dec c 13) as [->|Hc].
  - destruct r as [|c' r']; [now exists 10, []|].
    destruct (N.eq_dec c' 10) as [->|Hc'].
    + rewrite universal_newlines_crlf. eauto.
    + rewrite universal_newlines_cr by assumption. eauto.
  - rewrite universal_newlines_char by assumption. eauto.
Qed.

Lemma newline_terminated_cons (c : char) (s : text) :
  s <> [] -> newline_terminated s -> newline_terminated (c :: s).
Proof.
  intros Hne [H|[x H]]; [contradiction|]. right. exists (c :: x). now rewrite H.
Qed.

Lemma universal_newlines_terminated (a : text) :
  newline_terminated a -> newline_terminated (universal_newlines a).
Proof.
  induction a as [|c r Hc IH| |r IH|c r Hc IH] using universal_newlines_ind;
    intros Hnt.
  - now left.
  - rewrite universal_newlines_char by assumption.
    destruct r as [|c' r'].
    + apply newline_terminated_last in Hnt. subst. right. now exists [].
    + apply newline_terminated_cons; [|exact (IH (newline_terminated_tail _ _ Hnt))].
      destruct (universal_newlines_cons c' r') as [x [y ->]]. discriminate.
  - apply newline_terminated_last in Hnt. discriminate.
  - rewrite universal_newlines_crlf.
    do 2 apply newline_terminated_tail in Hnt.
    destruct (IH Hnt) as [H|[x H]]; rewrite H; right; [now exists [] | now exists (10 :: x)].
  - apply newline_terminated_tail in Hnt. specialize (IH Hnt).
    rewrite universal_newlines_cr by assumption.
    apply newline_terminated_cons; [|exact IH].
    destruct (universal_newlines_cons c r) as [x [y ->]]. discriminate.
Qed.

Lemma universal_newlines_plain (s : text) :
  Forall (fun c => c <> 13) s -> universal_newlines s = s.
Proof.
  induction 1 as [|c s Hc _ IH]; [reflexivity|].
  cbn [universal_newlines]. apply N.eqb_neq in Hc. now rewrite Hc, IH.
Qed.

Lemma text_lines_nonempty (c : char) (r : text) : text_lines (c :: r) <> [].
Proof.
  cbn [text_lines]. destruct (c =? 10); [discriminate|].
  destruct (text_lines r); discriminate.
Qed.

Lemma text_lines_app (x : text) :
  newline_terminated x ->
  forall y, text_lines (x ++ y) = text_lines x ++ text_lines y.
Proof.
  induction x as [|c r IH]; intros Hnt y; [reflexivity|].
  cbn [app text_lines]. destruct (c =? 10) eqn:Hc.
  - cbn [app]. f_equal. apply IH. eapply newline_terminated_tail; eauto.
  - rewrite (IH (newline_terminated_tail _ _ Hnt)).
    destruct r as [|c' r'].
    + apply newline_terminated_last in Hnt. subst. discriminate.
    + pose proof (text_lines_nonempty c' r') as Hne.
      destruct (text_lines (c' :: r')); [contradiction | reflexivity].
Qed.

Lemma text_lines_line (l rest : text) :
  Forall (fun c => c <> 10) l ->
  text_lines (l ++ 10 :: rest) = (l ++ [10]) :: text_lines rest.
Proof.
  induction 1 as [|c l Hc _ IH]; [reflexivity|].
  cbn [app text_lines]. apply N.eqb_neq in Hc. now rewrite Hc, IH.
Qed.

(** The text of the lines [ls], each with its newline. *)
Local Abbreviation written ls := (concat (map (fun l : text => l ++ [10]) ls)).

Lemma written_terminated (ls : list text) : newline_terminated (written ls).
Proof.
  induction ls as [|l ls IH]; [now left|]. right. cbn [map concat].
  destruct IH as [H|[x H]]; rewrite H.
  - exists l. now rewrite app_nil_r.
  - exists ((l ++ [10]) ++ x). now rewrite app_assoc.
Qed.

Lemma written_plain (ls : list text) :
  Forall one_line ls -> Forall (fun c => c <> 13) (written ls).
Proof.
  induction 1 as [|l ls Hl _ IH]; [constructor|]. cbn [map concat].
  apply Forall_app. split; [|exact IH]. apply Forall_app. split.
  - eapply Forall_impl; [|exact Hl]. cbv beta. tauto.
  - now repeat constructor.
Qed.

Lemma written_lines (ls : list text) :
  Forall one_line ls ->
  text_lines (written ls) = map (fun l => l ++ [10]) ls.
Proof.
  induction 1 as [|l ls Hl _ IH]; [reflexivity|]. cbn [map concat].
  rewrite <- app_assoc. cbn [app]. rewrite text_lines_line.
  - now rewrite IH.
  - eapply Forall_impl; [|exact Hl]. cbv beta. tauto.
Qed.

Lemma file_lines_extended (content : text) (ls : list text) :
  newline_terminated content ->
  Forall one_line ls ->
  file_lines (content ++ written ls)
  = file_lines content ++ map (fun l => l ++ [10]) ls.
Proof.
  intros Hnt Hls. unfold file_lines.
  rewrite universal_newlines_app by assumption.
  rewrite text_lines_app by now apply universal_newlines_terminated.
  rewrite (universal_newlines_plain _ (written_plain _ Hls)).
  now rewrite written_lines.
Qed.

Section JsonLines.

Variable json_loads : text -> res pyval.
Variable json_dumps : pyval -> res text.

Local Abbreviation parse := (parse_lines json_loads).
Local Abbreviation dump := (dump_lines json_dumps).
Local Abbreviation good := (codec_ok json_loads json_dumps).

(** The line of an item. *)
Let line_of (item : pyval) (l : text) : Prop :=
  json_dumps item = Ok l /\ one_line l
  /\ nonempty (strip l) = true /\ json_loads (strip l) = Ok item.

Lemma good_lines (data : list pyval) :
  Forall good data -> exists ls, Forall2 line_of data ls.
Proof.
  induction 1 as [|item data [l Hl] _ [ls IH]]; [now exists []|].
  exists (l :: ls). now constructor.
Qed.

Lemma lines_one_line (data : list pyval) (ls : list text) :
  Forall2 line_of data ls -> Forall one_line ls.
Proof.
  induction 1 as [|item l data ls [_ [Hl _]] _ IH]; constructor; assumption.
Qed.

Lemma dump_lines_good (data : list pyval) (ls : list text) :
  Forall2 line_of data ls -> dump data = (written ls, None).
Proof.
  induction 1 as [|item l data ls [Hd _] _ IH]; [reflexivity|].
  cbn [dump_lines map concat]. rewrite Hd, IH. now rewrite <- app_assoc.
Qed.

Lemma dump_lines_stops (data : list pyval) (ls : list text) (bad : pyval)
    (rest : list pyval) (e : exn) :
  Forall2 line_of data ls -> json_dumps bad = Raise e ->
  dump (data ++ bad :: rest) = (written ls, Some e).
Proof.
  intros H Hbad. induction H as [|item l data ls [Hd _] _ IH].
  - cbn [app dump_lines]. now rewrite Hbad.
  - cbn [app dump_lines map concat]. rewrite Hd, IH. now rewrite <- app_assoc.
Qed.

Lemma parse_lines_app (a b : list text) (xs : list pyval) :
  parse a = Ok xs ->
  parse (a ++ b) = (ys <- parse b ;; Ok (xs ++ ys)).
Proof.
  revert xs. induction a as [|line a IH]; intros xs H.
  - cbn in H. injection H as <-. cbn [app]. now destruct (parse b).
  - cbn [app parse_lines] in *. destruct (nonempty (strip line)).
    + destruct (json_loads (strip line)) as [item|]; cbn [bind] in *; [|discriminate].
      destruct (parse a) as [data|] eqn:Ha; cbn [bind] in H; [|discriminate].
      injection H as <-. rewrite (IH data eq_refl).
      now destruct (parse b).
    + now apply IH.
Qed.

Lemma parse_written (data : list pyval) (ls : list text) :
  Forall2 line_of data ls -> parse (map (fun l => l ++ [10]) ls) = Ok data.
Proof.
  induction 1 as [|item l data ls [_ [_ [Hne Hl]]] _ IH]; [reflexivity|].
  cbn [map parse_lines]. rewrite strip_newline, Hne, Hl. cbn [bind].
  now rewrite IH.
Qed.

Lemma parse_extended (content : text) (old data : list pyval) (ls : list text) :
  newline_terminated content ->
  parse (file_lines content) = Ok old ->
  Forall2 line_of data ls ->
  parse (file_lines (content ++ written ls)) = Ok (old ++ data).
Proof.
  intros Hnt Hold Hls.
  rewrite file_lines_extended by (assumption || eapply lines_one_line; eassumption).
  rewrite (parse_lines_app _ _ _ Hold), (parse_written _ _ Hls). reflexivity.
Qed.

Lemma write_text_same (d : disk) (file_path content : text) :
  write_text d file_path content file_path = Some content.
Proof. unfold write_text. now rewrite text_eqb_refl. Qed.

Lemma opened_after_write (d : disk) (file_path content : text) :
  opened_for_append (write_text d file_path content) file_path = content.
Proof. unfold opened_for_append. now rewrite write_text_same. Qed.

Variable mkdir_error : text -> option io_exn.
Variable open_error : text -> option io_exn.

Local Abbreviation save := (save_jsonl json_dumps mkdir_error open_error).
Local Abbreviation append := (append_to_jsonl json_dumps mkdir_error open_error).
Local Abbreviation batch := (batch_append_to_jsonl json_dumps mkdir_error open_error).

Lemma save_then_load (d : disk) (file_path : text) (data : list pyval) :
  makedirs mkdir_error (dirname file_path) = None ->
  open_error file_path = None ->
  (Forall good data ->
   fst (save d data file_path) = None
   /\ load_jsonl json_loads (snd (save d data file_path)) file_path = Returns data)
  /\ (forall saved bad rest e,
        data = saved ++ bad :: rest -> Forall good saved -> json_dumps bad = Raise e ->
        fst (save d data file_path) = Some (Other e)
        /\ load_jsonl json_loads (snd (save d data file_path)) file_path
           = Returns saved).
Proof.
  intros Hmk Hop. unfold save_jsonl. rewrite Hmk, Hop. split.
  - intros Hgood. destruct (good_lines _ Hgood) as [ls Hls].
    rewrite (dump_lines_good _ _ Hls). cbn [fst snd option_map].
    split; [reflexivity|]. unfold load_jsonl. rewrite write_text_same.
    pose proof (parse_extended [] [] data ls (or_introl eq_refl) eq_refl Hls) as H.
    cbn [app] in H. now rewrite H.
  - intros saved bad rest e -> Hgood Hbad. destruct (good_lines _ Hgood) as [ls Hls].
    rewrite (dump_lines_stops _ _ bad rest e Hls Hbad). cbn [fst snd option_map].
    split; [reflexivity|]. unfold load_jsonl. rewrite write_text_same.
    pose proof (parse_extended [] [] saved ls (or_introl eq_refl) eq_refl Hls) as H.
    cbn [app] in H. now rewrite H.
Qed.

(** A refusal of the operating system leaves the files as they are. *)
Lemma writers_refused (d : disk) (file_path : text) (e : io_exn) :
  makedirs mkdir_error (dirname file_path) = Some e
  \/ (makedirs mkdir_error (dirname file_path) = None
      /\ open_error file_path = Some e) ->
  (forall data, save d data file_path = (Some e, d))
  /\ (forall item, append d item file_path = (Some e, d))
  /\ (forall items, batch d items file_path = (Some e, d)).
Proof.
  unfold save_jsonl, append_to_jsonl, batch_append_to_jsonl.
  intros [-> | [-> ->]]; repeat split.
Qed.

Lemma append_then_load (d : disk) (file_path : text) (item : pyval) :
  makedirs mkdir_error (dirname file_path) = None ->
  open_error file_path = None ->
  good item ->
  let d' := snd (append d item file_path) in
  (d file_path = None -> load_jsonl json_loads d' file_path = Returns [item])
  /\ (forall content old,
        d file_path = Some content -> newline_terminated content ->
        load_jsonl json_loads d file_path = Returns old ->
        load_jsonl json_loads d' file_path = Returns (old ++ [item])).
Proof.
  intros Hmk Hop [l Hl]. cbv zeta.
  assert (Hls : Forall2 line_of [item] [l]) by (constructor; [exact Hl | constructor]).
  destruct Hl as [Hd _]. unfold append_to_jsonl, opened_for_append.
  rewrite Hmk, Hop, Hd. cbn [snd]. split.
  - intros ->. unfold load_jsonl. rewrite write_text_same.
    pose proof (parse_extended [] [] [item] [l] (or_introl eq_refl) eq_refl Hls) as H.
    cbn [app map concat] in H. rewrite app_nil_r in H. cbn [app]. now rewrite H.
  - intros content old Hc Hnt Hold. rewrite Hc. unfold load_jsonl in *.
    rewrite write_text_same. rewrite Hc in Hold.
    destruct (parse (file_lines content)) as [old'|] eqn:Hp; [|discriminate].
    injection Hold as ->.
    pose proof (parse_extended _ _ _ _ Hnt Hp Hls) as H.
    cbn [app map concat] in H. rewrite app_nil_r in H. now rewrite H.
Qed.

Lemma count_lines_parse :
  forall (lines : list text) (data : list pyval) (count : nat),
    parse lines = Ok data -> count_lines lines count = (count + length data)%nat.
Proof.
  induction lines as [|line lines IH]; intros data count H.
  - cbn in H. injection H as <-. cbn. lia.
  - cbn [parse_lines count_lines] in *. destruct (nonempty (strip line)).
    + destruct (json_loads (strip line)) as [item|]; cbn [bind] in H; [|discriminate].
      destruct (parse lines) as [rest|] eqn:Hr; cbn [bind] in H; [|discriminate].
      injection H as <-. rewrite (IH rest (S count) eq_refl). cbn [length]. lia.
    + now apply IH.
Qed.

Lemma batch_is_append_each :
  forall (items : list pyval) (d : disk) (file_path : text),
    items <> [] ->
    fst (batch d items file_path)
    = fst (append_each json_dumps mkdir_error open_error d items file_path)
    /\ forall p, snd (batch d items file_path) p
                 = snd (append_each json_dumps mkdir_error open_error d items file_path) p.
Proof.
  induction items as [|item rest IH]; intros d file_path Hne; [contradiction|].
  unfold batch_append_to_jsonl. cbn [append_each]. unfold append_to_jsonl.
  destruct (makedirs mkdir_error (dirname file_path)) as [e|] eqn:Hmk; [now split|].
  destruct (open_error file_path) as [e|] eqn:Hop; [now split|].
  cbn [dump_lines].
  destruct (json_dumps item) as [l|e] eqn:Hd.
  - destruct rest as [|item' rest'].
    + cbn [dump_lines append_each fst snd option_map]. split; [reflexivity|].
      intros p. now rewrite app_nil_r.
    + specialize (IH (write_text d file_path (opened_for_append d file_path ++ l ++ [10]))
                     file_path ltac:(discriminate)).
      unfold batch_append_to_jsonl in IH. rewrite Hmk, Hop in IH.
      destruct (dump (item' :: rest')) as [w e'] eqn:Hw.
      cbn [fst snd] in *. destruct IH as [IH1 IH2]. split; [exact IH1|].
      intros p. rewrite <- IH2, opened_after_write. unfold write_text.
      destruct (text_eqb p file_path); [|reflexivity].
      now rewrite <- !app_assoc.
  - cbn [fst snd option_map]. split; [reflexivity|]. intros p. now rewrite app_nil_r.
Qed.

End JsonLines.

(** X16.  What [save_jsonl] writes, [load_jsonl] reads back.  When the
    directory of the path can be made and the file opened: if every item
    serialises to one non-blank line that decodes to the item, saving
    raises nothing and loading the file returns the data; if an item fails
    to serialise, the exception is raised and the file holds exactly the
    items before it, whatever it held before.  When [os.makedirs] or [open]
    raises, that exception is raised and every file is as it was; for a path
    without a directory part this is the [FileNotFoundError] of
    [os.makedirs]. *)
Theorem save_jsonl_then_load_jsonl (json_loads : text -> res pyval)
    (json_dumps : pyval -> res text) (mkdir_error open_error : text -> option io_exn)
    (d : disk) (file_path : text) (data : list pyval) :
  let save := save_jsonl json_dumps mkdir_error open_error in
  (makedirs mkdir_error (dirname file_path) = None ->
   open_error file_path = None ->
   (Forall (codec_ok json_loads json_dumps) data ->
    fst (save d data file_path) = None
    /\ load_jsonl json_loads (snd (save d data file_path)) file_path = Returns data)
   /\ (forall saved bad rest e,
         data = saved ++ bad :: rest ->
         Forall (codec_ok json_loads json_dumps) saved ->
         json_dumps bad = Raise e ->
         fst (save d data file_path) = Some (Other e)
         /\ load_jsonl json_loads (snd (save d data file_path)) file_path
            = Returns saved))
  /\ (forall e,
        makedirs mkdir_error (dirname file_path) = Some e
        \/ (makedirs mkdir_error (dirname file_path) = None
            /\ open_error file_path = Some e) ->
        save d data file_path = (Some e, d))
  /\ (dirname file_path = [] ->
      save d data file_path = (Some FileNotFoundError, d)).
Proof.
  cbv zeta. split; [|split].
  - intros Hmk Hop. now apply save_then_load.
  - intros e He.
    apply (proj1 (writers_refused json_dumps mkdir_error open_error d file_path e He)).
  - intros H. unfold save_jsonl. now rewrite H.
Qed.

Lemma save_jsonl_then_load_jsonl_witness :
  let d : disk := fun _ => Some (py "old") in
  let save := save_jsonl quoted_dumps free_mkdir free_open in
  load_jsonl quoted_loads (snd (save d [key "a"; key "b"] (py "out/f"))) (py "out/f")
  = Returns [key "a"; key "b"]
  /\ load_jsonl quoted_loads (snd (save d [key "a"; PNone; key "b"] (py "out/f")))
       (py "out/f")
     = Returns [key "a"]
  /\ save d [key "a"; key "b"] (py "f") = (Some FileNotFoundError, d).
Proof.
  cbv zeta.
  assert (Ha : codec_ok quoted_loads quoted_dumps (key "a")).
  { eexists; split; [reflexivity|]; split;
      [repeat constructor; discriminate | split; reflexivity]. }
  assert (Hb : codec_ok quoted_loads quoted_dumps (key "b")).
  { eexists; split; [reflexivity|]; split;
      [repeat constructor; discriminate | split; reflexivity]. }
  split; [|split].
  - apply (proj1 (proj1 (save_jsonl_then_load_jsonl quoted_loads quoted_dumps
                           free_mkdir free_open (fun _ => Some (py "old"))
                           (py "out/f") [key "a"; key "b"]) eq_refl eq_refl)).
    constructor; [exact Ha|]. constructor; [exact Hb | constructor].
  - apply (proj2 (proj1 (save_jsonl_then_load_jsonl quoted_loads quoted_dumps
                           free_mkdir free_open (fun _ => Some (py "old"))
                           (py "out/f") [key "a"; PNone; key "b"]) eq_refl eq_refl)
             [key "a"] PNone [key "b"] TypeError eq_refl); [|reflexivity].
    constructor; [exact Ha | constructor].
  - apply (proj2 (proj2 (save_jsonl_then_load_jsonl quoted_loads quoted_dumps
                           free_mkdir free_open (fun _ => Some (py "old"))
                           (py "f") [key "a"; key "b"]))).
    reflexivity.
Defined.


(** X17.  [append_to_jsonl] adds one record to what [load_jsonl] reads, when
    the directory of the path can be made and the file opened: on a missing
    file the file afterwards loads as the item alone; on a file that is
    empty or ends in a newline and loads as [old], it loads as [old]
    followed by the item. *)
Theorem append_to_jsonl_then_load_jsonl (json_loads : text -> res pyval)
    (json_dumps : pyval -> res text) (mkdir_error open_error : text -> option io_exn)
    (d : disk) (file_path : text) (item : pyval) :
  makedirs mkdir_error (dirname file_path) = None ->
  open_error file_path = None ->
  codec_ok json_loads json_dumps item ->
  let d' := snd (append_to_jsonl json_dumps mkdir_error open_error d item file_path) in
  (d file_path = None -> load_jsonl json_loads d' file_path = Returns [item])
  /\ (forall content old,
        d file_path = Some content -> newline_terminated content ->
        load_jsonl json_loads d file_path = Returns old ->
        load_jsonl json_loads d' file_path = Returns (old ++ [item])).
Proof. apply append_then_load. Qed.

Lemma append_to_jsonl_then_load_jsonl_witness :
  let d : disk := fun p => if text_eqb p (py "out/f")
                           then Some (quote ++ py "a" ++ quote ++ [10]) else None in
  let append := append_to_jsonl quoted_dumps free_mkdir free_open in
  load_jsonl quoted_loads d (py "out/f") = Returns [key "a"]
  /\ load_jsonl quoted_loads (snd (append d (key "b") (py "out/f"))) (py "out/f")
     = Returns [key "a"; key "b"]
  /\ load_jsonl quoted_loads (snd (append d (key "b") (py "out/g"))) (py "out/g")
     = Returns [key "b"].
Proof.
  cbv zeta.
  assert (Hb : codec_ok quoted_loads quoted_dumps (key "b")).
  { eexists; split; [reflexivity|]; split;
      [repeat constructor; discriminate | split; reflexivity]. }
  split; [reflexivity|]. split.
  - apply (proj2 (append_to_jsonl_then_load_jsonl quoted_loads quoted_dumps
                    free_mkdir free_open _ (py "out/f") (key "b")
                    eq_refl eq_refl Hb)
             (quote ++ py "a" ++ quote ++ [10]) [key "a"]);
      [reflexivity | | reflexivity].
    right. exists (quote ++ py "a" ++ quote). now rewrite <- !app_assoc.
  - apply (proj1 (append_to_jsonl_then_load_jsonl quoted_loads quoted_dumps
                    free_mkdir free_open _ (py "out/g") (key "b")
                    eq_refl eq_refl Hb)).
    reflexivity.
Defined.


(** X18.  On a file [load_jsonl] can read, [count_jsonl_lines] returns the
    number of records [load_jsonl] returns; both raise [FileNotFoundError]
    on a missing file. *)
Theorem count_jsonl_lines_is_the_length (json_loads : text -> res pyval)
    (d : disk) (file_path : text) :
  (forall data, load_jsonl json_loads d file_path = Returns data ->
                count_jsonl_lines d file_path = Returns (length data))
  /\ (d file_path = None ->
      load_jsonl json_loads d file_path = Throws FileNotFoundError
      /\ count_jsonl_lines d file_path = Throws FileNotFoundError).
Proof.
  unfold load_jsonl, count_jsonl_lines. split.
  - intros data H. destruct (d file_path) as [content|]; [|discriminate].
    destruct (parse_lines json_loads (file_lines content)) as [data'|] eqn:Hp;
      [|discriminate].
    injection H as ->. now rewrite (count_lines_parse _ _ _ O Hp).
  - intros ->. split; reflexivity.
Qed.

Lemma count_jsonl_lines_is_the_length_witness :
  let d : disk := fun _ => Some (quote ++ py "a" ++ quote ++ [10; 32; 10]
                                 ++ quote ++ py "b" ++ quote) in
  load_jsonl quoted_loads d (py "f") = Returns [key "a"; key "b"]
  /\ count_jsonl_lines d (py "f") = Returns 2%nat.
Proof.
  cbv zeta. split; [reflexivity|].
  apply (proj1 (count_jsonl_lines_is_the_length quoted_loads _ (py "f"))
           [key "a"; key "b"]).
  reflexivity.
Defined.


(** X19.  For a non-empty list, [batch_append_to_jsonl] does what appending
    the items one by one with [append_to_jsonl] does, up to the first
    exception, be it of [os.makedirs], of [open] or of an item that fails to
    serialise: the same exception or none, and the same content of every
    file. *)
Theorem batch_append_is_repeated_append (json_dumps : pyval -> res text)
    (mkdir_error open_error : text -> option io_exn)
    (d : disk) (items : list pyval) (file_path : text) :
  items <> [] ->
  fst (batch_append_to_jsonl json_dumps mkdir_error open_error d items file_path)
  = fst (append_each json_dumps mkdir_error open_error d items file_path)
  /\ forall p,
       snd (batch_append_to_jsonl json_dumps mkdir_error open_error d items file_path) p
       = snd (append_each json_dumps mkdir_error open_error d items file_path) p.
Proof. apply batch_is_append_each. Qed.

Lemma batch_append_is_repeated_append_witness :
  let d : disk := fun _ => None in
  let items := [key "a"; PNone; key "b"] in
  let batch := batch_append_to_jsonl quoted_dumps free_mkdir free_open in
  let each := append_each quoted_dumps free_mkdir free_open in
  fst (batch d items (py "out/f")) = Some (Other TypeError)
  /\ fst (each d items (py "out/f")) = Some (Other TypeError)
  /\ fst (batch d items (py "f")) = Some FileNotFoundError
  /\ forall p, snd (batch d items (py "out/f")) p = snd (each d items (py "out/f")) p.
Proof.
  cbv zeta. split; [reflexivity|]. split; [reflexivity|]. split; [reflexivity|].
  apply (batch_append_is_repeated_append quoted_dumps free_mkdir free_open
           (fun _ => None) [key "a"; PNone; key "b"] (py "out/f")).
  discriminate.
Defined.

(** ** calculate_field_accuracy on well-formed results *)

Lemma dict_set_set (d : dict) (k : text) (v v' : pyval) :
  dict_set (dict_set d (PStr k) v) (PStr k) v' = dict_set d (PStr k) v'.
Proof.
  induction d as [|[k' w] d IH]; cbn [dict_set].
  - cbn [key_eqb]. now rewrite text_eqb_refl.
  - destruct (key_eqb (PStr k) k') eqn:E; cbn [dict_set]; rewrite E;
      [reflexivity | now rewrite IH].
Qed.

Lemma dict_set_fresh (d : dict) (k v : pyval) :
  dict_lookup d k = None -> dict_set d k v = d ++ [(k, v)].
Proof.
  induction d as [|[k' w] d IH]; cbn [dict_lookup dict_set app]; [reflexivity|].
  destruct (key_eqb k k'); [discriminate|]. intros H. now rewrite IH.
Qed.

Lemma dict_get_str (d : dict) (k : text) (v : pyval) :
  dict_lookup d (PStr k) = Some v -> dict_get d (PStr k) = Ok v.
Proof. intros H. unfold dict_get. cbn [hashable]. now rewrite H. Qed.

Lemma append_under (k : text) (path : list pyval) (d : dict) (x : res pyval)
    (inner inner' : pyval) :
  dict_lookup d (PStr k) = Some inner ->
  append_at path inner x = Ok inner' ->
  append_at (PStr k :: path) (PDict d) x = Ok (PDict (dict_set d (PStr k) inner')).
Proof.
  intros Hl Ha. cbn [append_at py_getitem]. rewrite (dict_get_str _ _ _ Hl).
  cbn [bind]. rewrite Ha. reflexivity.
Qed.

Lemma append_in_field (f : text) (path : list pyval) (fd : dict) (x : res pyval)
    (e e' : pyval) :
  append_at path e x = Ok e' ->
  append_at (PStr f :: path) (PDict (dict_set fd (PStr f) e)) x
  = Ok (PDict (dict_set fd (PStr f) e')).
Proof.
  intros H. rewrite (append_under f path _ x e e');
    [now rewrite dict_set_set | apply dict_lookup_set_same | exact H].
Qed.

Lemma entry_appends (s : text) (a p : pyval) (ed : dict) (A P : list pyval) :
  reserved s = false ->
  dict_lookup ed (key "answers") = Some (PList A) ->
  dict_lookup ed (key "predictions") = Some (PList P) ->
  dict_lookup ed (key "sub_field") = Some (PDict []) ->
  exists e2 e3 e4 e5,
    append_at [PStr s; key "answers"] (PDict (dict_set ed (PStr s) empty_bucket)) (Ok a)
    = Ok e2
    /\ append_at [PStr s; key "predictions"] e2 (Ok p) = Ok e3
    /\ append_at [key "answers"] e3 (Ok a) = Ok e4
    /\ append_at [key "predictions"] e4 (Ok p) = Ok e5
    /\ entry_ok e5 (A ++ [a]) (P ++ [p]).
Proof.
  intros Hres HA HP HS. unfold reserved in Hres.
  apply orb_false_iff in Hres as [Hres Hs3]. apply orb_false_iff in Hres as [Hs1 Hs2].
  unfold key in *.
  set (ed3 := dict_set ed (PStr s) (bucket [a] [p])).
  set (ed4 := dict_set ed3 (PStr (py "answers")) (PList (A ++ [a]))).
  set (ed5 := dict_set ed4 (PStr (py "predictions")) (PList (P ++ [p]))).
  exists (PDict (dict_set ed (PStr s) (bucket [a] []))), (PDict ed3), (PDict ed4), (PDict ed5).
  split; [|split; [|split; [|split]]].
  - rewrite (append_under s [PStr (py "answers")] _ (Ok a) empty_bucket (bucket [a] []));
      [now rewrite dict_set_set | apply dict_lookup_set_same | reflexivity].
  - rewrite (append_under s [PStr (py "predictions")] _ (Ok p) (bucket [a] [])
               (bucket [a] [p]));
      [now rewrite dict_set_set | apply dict_lookup_set_same | reflexivity].
  - apply (append_under (py "answers") [] ed3 (Ok a) (PList A)); [|reflexivity].
    unfold ed3. now rewrite dict_lookup_set_other.
  - apply (append_under (py "predictions") [] ed4 (Ok p) (PList P)); [|reflexivity].
    unfold ed4, ed3. rewrite dict_lookup_set_other by reflexivity.
    now rewrite dict_lookup_set_other.
  - exists ed5. split; [reflexivity|]. unfold ed5, ed4, ed3, key. split; [|split].
    + rewrite dict_lookup_set_other by reflexivity. apply dict_lookup_set_same.
    + apply dict_lookup_set_same.
    + rewrite !dict_lookup_set_other by (reflexivity || assumption). exact HS.
Qed.

Lemma organise_item_step (item : dict) (v : graded) (As Ps : list pyval) (fd : dict)
    (A P : list pyval) :
  graded_item item v ->
  entry_ok (entry_of fd (v_field v)) A P ->
  exists e',
    organise_item item (bucket As Ps, PDict fd)
    = Ok (bucket (As ++ [v_answer v]) (Ps ++ [v_prediction v]),
          PDict (dict_set fd (PStr (v_field v)) e'))
    /\ entry_ok e' (A ++ [v_answer v]) (P ++ [v_prediction v]).
Proof.
  intros [Hf [Hs [Ha [Hp Hres]]]] He.
  destruct v as [f s a p]. cbn [v_field v_sub_field v_answer v_prediction] in *.
  assert (H1 : exists fd1 e,
             (if dict_has fd (PStr f) then Ok (PDict fd)
              else py_setitem (PDict fd) (PStr f) empty_field_entry) = Ok (PDict fd1)
             /\ dict_lookup fd1 (PStr f) = Some e
             /\ entry_ok e A P
             /\ forall x, dict_set fd1 (PStr f) x = dict_set fd (PStr f) x).
  { unfold entry_of in He. unfold dict_has.
    destruct (dict_lookup fd (PStr f)) as [e|] eqn:Hl.
    - exists fd, e. auto.
    - exists (dict_set fd (PStr f) empty_field_entry), empty_field_entry.
      cbn [py_setitem hashable]. split; [reflexivity|].
      split; [apply dict_lookup_set_same|]. split; [assumption|].
      intros x. apply dict_set_set. }
  destruct H1 as [fd1 [e [H1 [Hl [[ed [-> [HA [HP HS]]]] Hset]]]]].
  destruct (entry_appends s a p ed A P Hres HA HP HS)
    as [e2 [e3 [e4 [e5 [H2 [H3 [H4 [H5 Hok]]]]]]]].
  exists e5. split; [|exact Hok].
  unfold organise_item. unfold key in *. rewrite Hf, Hs, Ha, Hp.
  cbn [bind py_contains hashable].
  rewrite H1. cbn [bind py_getitem]. rewrite (dict_get_str _ _ _ Hl).
  cbn [bind py_getitem]. rewrite (dict_get_str _ _ _ HS).
  cbn [bind py_contains hashable dict_has dict_lookup py_setitem].
  rewrite Hset.
  rewrite (append_in_field f _ fd (Ok a) _ e2 H2). cbn [bind].
  rewrite (append_in_field f _ fd (Ok p) _ e3 H3). cbn [bind].
  rewrite (append_in_field f _ fd (Ok a) _ e4 H4). cbn [bind].
  rewrite (append_in_field f _ fd (Ok p) _ e5 H5). cbn [bind].
  reflexivity.
Qed.

Lemma tally_step (v : graded) :
  forall fd t,
    tally_ok fd t ->
    exists A P,
      entry_ok (entry_of fd (v_field v)) A P
      /\ forall e', entry_ok e' (A ++ [v_answer v]) (P ++ [v_prediction v]) ->
                    tally_ok (dict_set fd (PStr (v_field v)) e') (bump v t).
Proof.
  intros fd t H. induction H as [|[k e0] [g [A0 P0]] fd t [Hk He0] Hrest IH].
  - exists [], []. split.
    + unfold entry_of. cbn [dict_lookup]. exists
        [(key "answers", PList []); (key "predictions", PList []);
         (key "sub_field", PDict [])].
      repeat split.
    + intros e' He'. cbn [dict_set bump]. constructor; [|constructor].
      cbn [fst snd]. split; [reflexivity | exact He'].
  - cbn [fst snd] in Hk, He0. subst k. unfold entry_of.
    cbn [dict_lookup dict_set bump key_eqb].
    destruct (text_eqb (v_field v) g) eqn:E.
    + exists A0, P0. split; [exact He0|]. intros e' He'.
      constructor; [|exact Hrest]. cbn [fst snd]. split; [reflexivity | exact He'].
    + destruct IH as [A [P [He IH]]]. exists A, P. split; [exact He|].
      intros e' He'. constructor; [|now apply IH]. cbn [fst snd]. now split.
Qed.

Lemma organise_tally (results : list dict) (vs : list graded) :
  Forall2 graded_item results vs ->
  forall As Ps fd t,
    tally_ok fd t ->
    exists fd',
      organise results (bucket As Ps, PDict fd)
      = Ok (bucket (As ++ map v_answer vs) (Ps ++ map v_prediction vs), PDict fd')
      /\ tally_ok fd' (fold_left (fun t v => bump v t) vs t).
Proof.
  induction 1 as [|item v results vs Hitem _ IH]; intros As Ps fd t Ht.
  - exists fd. cbn [organise map fold_left]. rewrite !app_nil_r. now split.
  - destruct (tally_step v fd t Ht) as [A [P [He Hnext]]].
    destruct (organise_item_step item v As Ps fd A P Hitem He) as [e' [Hstep He']].
    destruct (IH (As ++ [v_answer v]) (Ps ++ [v_prediction v]) _ _ (Hnext e' He'))
      as [fd' [Hrun Hfinal]].
    exists fd'. cbn [organise map fold_left]. rewrite Hstep. cbn [bind].
    rewrite Hrun, <- !app_assoc. now split.
Qed.

Lemma bucket_accuracy_entry (upper : text -> text) (e : pyval) (A P : list pyval) :
  entry_ok e A P -> bucket_accuracy upper e = calculate_accuracy upper P A.
Proof.
  intros [ed [-> [HA [HP _]]]]. unfold bucket_accuracy. cbn [py_getitem].
  unfold key in *. rewrite (dict_get_str _ _ _ HP), (dict_get_str _ _ _ HA).
  reflexivity.
Qed.

Lemma score_fields_tally (upper : text -> text) :
  forall fd t,
    tally_ok fd t ->
    NoDup (map fst t) ->
    forall acc,
      (forall g, In g (map fst t) -> dict_lookup acc (PStr g) = None) ->
      score_fields upper fd (PDict acc)
      = (scores <- score_tally upper t ;; Ok (PDict (acc ++ scores))).
Proof.
  intros fd t H. induction H as [|[k e] [f [A P]] fd t [Hk He] Hrest IH];
    intros Hnd acc Hfresh.
  - cbn [score_fields score_tally bind]. now rewrite app_nil_r.
  - cbn [fst snd] in Hk, He. subst k. cbn [map fst] in Hnd, Hfresh.
    inversion Hnd as [|? ? Hnotin Hnd']; subst.
    cbn [score_fields score_tally]. rewrite (bucket_accuracy_entry upper e A P He).
    destruct (calculate_accuracy upper P A) as [q|err]; cbn [bind]; [|reflexivity].
    destruct He as [ed [-> [_ [_ HS]]]].
    cbn [py_setitem hashable bind py_getitem]. unfold key in *.
    rewrite (dict_get_str _ _ _ HS). cbn [bind py_items py_getitem].
    rewrite (dict_get_str _ _ _ (dict_lookup_set_same acc f _)).
    cbn [bind score_sub_fields py_setitem hashable]. rewrite dict_set_set.
    rewrite IH; [|assumption|].
    + rewrite (dict_set_fresh acc (PStr f)) by (apply Hfresh; now left).
      destruct (score_tally upper t) as [scores|err]; cbn [bind]; [|reflexivity].
      now rewrite <- app_assoc.
    + intros g Hg. rewrite dict_lookup_set_other.
      * apply Hfresh. now right.
      * destruct (text_eqb g f) eqn:E; [|reflexivity].
        apply text_eqb_eq in E. subst g. contradiction.
Qed.

Lemma add_field_In (fs : list text) (f g : text) :
  In g (add_field fs f) <-> In g fs \/ g = f.
Proof.
  unfold add_field. destruct (existsb (text_eqb f) fs) eqn:E.
  - apply existsb_exists in E as [x [Hx Hfx]]. apply text_eqb_eq in Hfx. subst x.
    split; [now left | intros [H| ->]; assumption].
  - rewrite in_app_iff. cbn [In]. intuition congruence.
Qed.

Lemma add_field_NoDup (fs : list text) (f : text) :
  NoDup fs -> NoDup (add_field fs f).
Proof.
  intros H. unfold add_field. destruct (existsb (text_eqb f) fs) eqn:E; [assumption|].
  assert (Hf : ~ In f fs).
  { intros Hin. assert (existsb (text_eqb f) fs = true); [|congruence].
    apply existsb_exists. exists f. split; [assumption | apply text_eqb_refl]. }
  clear E. induction H as [|x fs Hx Hfs IH]; cbn [app].
  - constructor; [tauto | constructor].
  - constructor.
    + rewrite in_app_iff. cbn [In]. intros [H|[H|[]]]; [tauto|].
      subst. apply Hf. now left.
    + apply IH. intros Hin. apply Hf. now right.
Qed.

Lemma fields_of_snoc (vs : list graded) (v : graded) :
  fields_of (vs ++ [v]) = add_field (fields_of vs) (v_field v).
Proof. unfold fields_of. now rewrite map_app, fold_left_app. Qed.

Lemma fields_of_In (g : text) (vs : list graded) :
  In g (fields_of vs) <-> In g (map v_field vs).
Proof.
  induction vs as [|v vs IH] using rev_ind; [reflexivity|].
  rewrite fields_of_snoc, add_field_In, map_app, in_app_iff, IH. cbn [map In].
  intuition congruence.
Qed.

Lemma fields_of_NoDup (vs : list graded) : NoDup (fields_of vs).
Proof.
  induction vs as [|v vs IH] using rev_ind; [constructor|].
  rewrite fields_of_snoc. now apply add_field_NoDup.
Qed.

Lemma of_field_snoc (g : text) (vs : list graded) (v : graded) :
  of_field g (vs ++ [v])
  = of_field g vs ++ (if text_eqb (v_field v) g then [v] else []).
Proof. unfold of_field. rewrite filter_app. reflexivity. Qed.

Lemma of_field_absent (g : text) (vs : list graded) :
  ~ In g (map v_field vs) -> of_field g vs = [].
Proof.
  induction vs as [|v vs IH]; [reflexivity|]. cbn [map In of_field filter].
  intros H. destruct (text_eqb (v_field v) g) eqn:E.
  - apply text_eqb_eq in E. tauto.
  - apply IH. tauto.
Qed.

(** The grouping of a field over the records [vs]. *)
Local Abbreviation grouping vs :=
  (fun f : text => (f, (map v_answer (of_field f vs), map v_prediction (of_field f vs)))).

Lemma bump_group (vs : list graded) (v : graded) :
  forall fs,
    NoDup fs ->
    (~ In (v_field v) fs -> of_field (v_field v) vs = []) ->
    bump v (map (grouping vs) fs) = map (grouping (vs ++ [v])) (add_field fs (v_field v)).
Proof.
  induction fs as [|g fs IH]; intros Hnd Habs.
  - cbn [map bump add_field existsb app]. rewrite of_field_snoc, text_eqb_refl.
    rewrite Habs by tauto. reflexivity.
  - inversion Hnd as [|? ? Hg Hnd']; subst. cbn [map bump].
    destruct (text_eqb (v_field v) g) eqn:E.
    + assert (Hadd : add_field (g :: fs) (v_field v) = g :: fs).
      { unfold add_field. cbn [existsb]. now rewrite E. }
      rewrite Hadd. cbn [map]. rewrite of_field_snoc, E, !map_app. cbn [map].
      f_equal. apply map_ext_in. intros h Hh. rewrite of_field_snoc.
      apply text_eqb_eq in E. rewrite E.
      destruct (text_eqb g h) eqn:E'; [|now rewrite app_nil_r].
      apply text_eqb_eq in E'. subst h. contradiction.
    + assert (Hadd : add_field (g :: fs) (v_field v) = g :: add_field fs (v_field v)).
      { unfold add_field. cbn [existsb]. rewrite E. cbn [orb].
        now destruct (existsb (text_eqb (v_field v)) fs). }
      rewrite Hadd. cbn [map]. rewrite IH; [|assumption|].
      * rewrite of_field_snoc, E, app_nil_r. reflexivity.
      * intros Hin. apply Habs. intros [Heq|Hin']; [|contradiction].
        subst g. rewrite text_eqb_refl in E. discriminate.
Qed.

Lemma tally_groups (vs : list graded) :
  fold_left (fun t v => bump v t) vs [] = map (grouping vs) (fields_of vs).
Proof.
  induction vs as [|v vs IH] using rev_ind; [reflexivity|].
  rewrite fold_left_app. cbn [fold_left]. rewrite IH, fields_of_snoc.
  apply bump_group; [apply fields_of_NoDup|].
  intros H. apply of_field_absent. now rewrite <- fields_of_In.
Qed.

Lemma score_tally_groups (upper : text -> text) (vs : list graded) (fs : list text) :
  score_tally upper (map (grouping vs) fs) = score_each upper vs fs.
Proof.
  induction fs as [|f fs IH]; [reflexivity|].
  cbn [map score_tally score_each]. now rewrite IH.
Qed.

Lemma calculate_field_accuracy_groups (upper : text -> text) (results : list dict)
    (vs : list graded) :
  Forall2 graded_item results vs ->
  calculate_field_accuracy upper results = field_accuracy upper vs.
Proof.
  intros H. unfold calculate_field_accuracy, field_accuracy.
  destruct (organise_tally results vs H [] [] [] [] (Forall2_nil _)) as [fd [Hrun Ht]].
  change empty_bucket with (bucket [] []). rewrite Hrun. cbn [bind py_items app].
  rewrite (score_fields_tally upper fd _ Ht).
  - rewrite tally_groups, score_tally_groups.
    destruct (score_each upper vs (fields_of vs)) as [scores|e]; cbn [bind app];
      [|reflexivity].
    change (bucket_accuracy upper (bucket (map v_answer vs) (map v_prediction vs)))
      with (calculate_accuracy upper (map v_prediction vs) (map v_answer vs)).
    destruct (calculate_accuracy upper (map v_prediction vs) (map v_answer vs));
      reflexivity.
  - rewrite tally_groups, map_map. cbn [fst]. rewrite map_id. apply fields_of_NoDup.
  - reflexivity.
Qed.

(** X20.  On results whose records have a string field, a string sub-field
    other than "answers", "predictions" and "sub_field", an answer and a
    prediction, [calculate_field_accuracy] returns one entry per distinct
    field, in the order of the first record of each field, holding the
    accuracy of the records of that field under "overall" and no sub-field
    score, and then sets the top-level "overall" to the accuracy of all
    records (taking the place of a field of that name); it raises what
    [calculate_accuracy] raises first. *)
Theorem calculate_field_accuracy_by_field (upper : text -> text)
    (results : list dict) (vs : list graded) :
  Forall2 graded_item results vs ->
  calculate_field_accuracy upper results = field_accuracy upper vs.
Proof. apply calculate_field_accuracy_groups. Qed.

Lemma calculate_field_accuracy_by_field_witness :
  calculate_field_accuracy ascii_upper
    [task1_record "g" "s" "A" "a"; task1_record "overall" "t" "B" "C";
     task1_record "g" "s" "C" "D"]
  = Ok (PDict [(key "g", PDict [(key "overall", PNum (1 # 2))]);
               (key "overall", PNum (1 # 3))]).
Proof.
  apply (calculate_field_accuracy_by_field ascii_upper _
           [mk_graded (py "g") (py "s") (key "A") (key "a");
            mk_graded (py "overall") (py "t") (key "B") (key "C");
            mk_graded (py "g") (py "s") (key "C") (key "D")]).
  repeat (constructor; [repeat split|]). constructor.
Defined.

(** ** calculate_field_accuracy on a malformed record *)

Lemma append_at_raising_argument :
  forall (path : list pyval) (v : pyval) (a v' : pyval) (e : exn),
    append_at path v (Ok a) = Ok v' -> append_at path v (Raise e) = Raise e.
Proof.
  induction path as [|k path IH]; intros v a v' e H.
  - destruct v; cbn in H |- *; try discriminate. reflexivity.
  - cbn [append_at] in H |- *.
    destruct (py_getitem v k) as [inner|]; cbn [bind] in H |- *; [|discriminate].
    destruct (append_at path inner (Ok a)) as [inner'|] eqn:Hi; [|discriminate].
    now rewrite (IH inner a inner' e Hi).
Qed.

Lemma append_under_raise (k : text) (path : list pyval) (d : dict) (x : res pyval)
    (inner : pyval) (e : exn) :
  dict_lookup d (PStr k) = Some inner ->
  append_at path inner x = Raise e ->
  append_at (PStr k :: path) (PDict d) x = Raise e.
Proof.
  intros Hl Ha. cbn [append_at py_getitem]. rewrite (dict_get_str _ _ _ Hl).
  cbn [bind]. now rewrite Ha.
Qed.

Lemma organise_prefix (good more : list dict) :
  forall st st',
    organise good st = Ok st' -> organise (good ++ more) st = organise more st'.
Proof.
  induction good as [|item good IH]; intros st st' H.
  - cbn in H. now injection H as ->.
  - cbn [app organise] in H |- *.
    destruct (organise_item item st) as [st1|]; cbn [bind] in H |- *; [|discriminate].
    now apply IH.
Qed.

(** The field entry after the test for a new field. *)
Lemma field_entry_ready (fd : dict) (f : text) (A P : list pyval) :
  entry_ok (entry_of fd f) A P ->
  exists fd1 ed,
    (if dict_has fd (PStr f) then Ok (PDict fd)
     else py_setitem (PDict fd) (PStr f) empty_field_entry) = Ok (PDict fd1)
    /\ dict_lookup fd1 (PStr f) = Some (PDict ed)
    /\ dict_lookup ed (PStr (py "answers")) = Some (PList A)
    /\ dict_lookup ed (PStr (py "predictions")) = Some (PList P)
    /\ dict_lookup ed (PStr (py "sub_field")) = Some (PDict [])
    /\ forall x, dict_set fd1 (PStr f) x = dict_set fd (PStr f) x.
Proof.
  unfold entry_of, dict_has. intros [ed [He H]]. unfold key in H.
  destruct (dict_lookup fd (PStr f)) as [e|] eqn:Hl.
  - subst e. exists fd, ed. tauto.
  - exists (dict_set fd (PStr f) empty_field_entry), ed. rewrite <- He.
    cbn [py_setitem hashable]. split; [reflexivity|].
    split; [apply dict_lookup_set_same|].
    split; [tauto|]. split; [tauto|]. split; [tauto|].
    intros x. apply dict_set_set.
Qed.

Lemma organise_item_shadowing (item : dict) (As Ps : list pyval) (fd : dict)
    (f : text) (A P : list pyval) :
  shadowing item ->
  dict_get item (key "field") = Ok (PStr f) ->
  entry_ok (entry_of fd f) A P ->
  organise_item item (bucket As Ps, PDict fd) = Raise AttributeError.
Proof.
  intros [f' [s [a [p [Hf [Hs [Hshadow [Ha Hp]]]]]]]] Hf' He.
  rewrite Hf in Hf'. injection Hf' as ->.
  destruct (field_entry_ready fd f A P He) as [fd1 [ed [H1 [Hl [HA [HP [HS Hset]]]]]]].
  unfold organise_item. unfold key in *. rewrite Hf, Hs, Ha, Hp.
  cbn [bind py_contains hashable]. rewrite H1. cbn [bind py_getitem].
  rewrite (dict_get_str _ _ _ Hl). cbn [bind py_getitem].
  rewrite (dict_get_str _ _ _ HS).
  cbn [bind py_contains hashable dict_has dict_lookup py_setitem]. rewrite Hset.
  set (ed3 := dict_set ed (PStr s) (bucket [a] [p])).
  rewrite (append_in_field f [PStr s; PStr (py "answers")] fd (Ok a) _
             (PDict (dict_set ed (PStr s) (bucket [a] [])))).
  2:{ rewrite (append_under s [PStr (py "answers")] _ (Ok a) empty_bucket (bucket [a] []));
        [now rewrite dict_set_set | apply dict_lookup_set_same | reflexivity]. }
  cbn [bind].
  rewrite (append_in_field f [PStr s; PStr (py "predictions")] fd (Ok p) _ (PDict ed3)).
  2:{ rewrite (append_under s [PStr (py "predictions")] _ (Ok p) (bucket [a] [])
                 (bucket [a] [p]));
        [now rewrite dict_set_set | apply dict_lookup_set_same | reflexivity]. }
  cbn [bind]. destruct Hshadow as [-> | ->].
  - rewrite (append_under_raise f [PStr (py "answers")] _ (Ok a) (PDict ed3)
               AttributeError); [reflexivity | apply dict_lookup_set_same|].
    apply (append_under_raise (py "answers") [] ed3 (Ok a) (bucket [a] [p]));
      [apply dict_lookup_set_same | reflexivity].
  - set (ed4 := dict_set ed3 (PStr (py "answers")) (PList (A ++ [a]))).
    rewrite (append_in_field f [PStr (py "answers")] fd (Ok a) _ (PDict ed4)).
    2:{ apply (append_under (py "answers") [] ed3 (Ok a) (PList A)); [|reflexivity].
        unfold ed3. now rewrite dict_lookup_set_other. }
    cbn [bind].
    rewrite (append_under_raise f [PStr (py "predictions")] _ (Ok p) (PDict ed4)
               AttributeError); [reflexivity | apply dict_lookup_set_same|].
    apply (append_under_raise (py "predictions") [] ed4 (Ok p) (bucket [a] [p]));
      [|reflexivity].
    unfold ed4. rewrite dict_lookup_set_other by reflexivity.
    apply dict_lookup_set_same.
Qed.

Lemma organise_item_lacks_key (item : dict) (As Ps : list pyval) (fd : dict)
    (t : list (text * (list pyval * list pyval))) :
  lacks_key item ->
  tally_ok fd t ->
  organise_item item (bucket As Ps, PDict fd) = Raise KeyError.
Proof.
  intros Hlack Ht. unfold organise_item.
  destruct Hlack as [Hf|[[f [Hf Hs]]|[f [s [Hf [Hs [Hres Hlack]]]]]]].
  - now rewrite Hf.
  - now rewrite Hf, Hs.
  - destruct (tally_step (mk_graded f s PNone PNone) fd t Ht) as [A [P [He _]]].
    cbn [v_field] in He.
    destruct (field_entry_ready fd f A P He) as [fd1 [ed [H1 [Hl [HA [HP [HS Hset]]]]]]].
    unfold key in *. rewrite Hf, Hs. cbn [bind py_contains hashable].
    rewrite H1. cbn [bind py_getitem]. rewrite (dict_get_str _ _ _ Hl).
    cbn [bind py_getitem]. rewrite (dict_get_str _ _ _ HS).
    cbn [bind py_contains hashable dict_has dict_lookup py_setitem]. rewrite Hset.
    destruct Hlack as [Ha|[a [Ha Hp]]].
    + destruct (entry_appends s PNone PNone ed A P Hres HA HP HS)
        as [e2 [e3 [e4 [e5 [H2 _]]]]].
      unfold key in H2. rewrite Ha.
      assert (H2' := append_in_field f _ fd (Ok PNone) _ e2 H2).
      now rewrite (append_at_raising_argument _ _ _ _ KeyError H2').
    + destruct (entry_appends s a PNone ed A P Hres HA HP HS)
        as [e2 [e3 [e4 [e5 [H2 [H3 _]]]]]].
      unfold key in H2, H3. rewrite Ha, Hp.
      rewrite (append_in_field f _ fd (Ok a) _ e2 H2). cbn [bind].
      assert (H3' := append_in_field f _ fd (Ok PNone) _ e3 H3).
      now rewrite (append_at_raising_argument _ _ _ _ KeyError H3').
Qed.

Lemma malformed_record (upper : text -> text) (good : list dict) (vs : list graded)
    (item : dict) (rest : list dict) :
  Forall2 graded_item good vs ->
  (shadowing item ->
   calculate_field_accuracy upper (good ++ item :: rest) = Raise AttributeError)
  /\ (lacks_key item ->
      calculate_field_accuracy upper (good ++ item :: rest) = Raise KeyError).
Proof.
  intros Hgood.
  destruct (organise_tally good vs Hgood [] [] [] [] (Forall2_nil _)) as [fd [Hrun Ht]].
  change (bucket [] []) with empty_bucket in Hrun.
  unfold calculate_field_accuracy.
  rewrite (organise_prefix good (item :: rest) _ _ Hrun). cbn [organise app].
  split.
  - intros Hs. destruct Hs as [f [s [a [p [Hf Hrest]]]]].
    destruct (tally_step (mk_graded f s a p) fd _ Ht) as [A [P [He _]]].
    cbn [v_field] in He.
    rewrite (organise_item_shadowing item _ _ fd f A P); [reflexivity | | exact Hf | exact He].
    exists f, s, a, p. tauto.
  - intros Hl. now rewrite (organise_item_lacks_key item _ _ fd _ Hl Ht).
Qed.

(** X21.  After any well-formed records, a record whose sub-field is named
    "answers" or "predictions" makes [calculate_field_accuracy] raise
    [AttributeError] (the bucket of the sub-field replaces the list of the
    field entry), and a record without one of the keys "field",
    "sub_field", "answer", "prediction" makes it raise [KeyError], whatever
    records follow. *)
Theorem calculate_field_accuracy_malformed_record (upper : text -> text)
    (good : list dict) (vs : list graded) (item : dict) (rest : list dict) :
  Forall2 graded_item good vs ->
  (shadowing item ->
   calculate_field_accuracy upper (good ++ item :: rest) = Raise AttributeError)
  /\ (lacks_key item ->
      calculate_field_accuracy upper (good ++ item :: rest) = Raise KeyError).
Proof. apply malformed_record. Qed.

Lemma calculate_field_accuracy_malformed_record_witness :
  calculate_field_accuracy ascii_upper
    ([task1_record "g" "s" "A" "A"] ++ task1_record "g" "predictions" "A" "A" :: [])
  = Raise AttributeError
  /\ calculate_field_accuracy ascii_upper
       ([task1_record "g" "s" "A" "A"]
        ++ [(key "field", key "g"); (key "sub_field", key "s"); (key "answer", key "A")]
        :: [task1_record "g" "s" "A" "A"])
     = Raise KeyError.
Proof.
  assert (Hgood : Forall2 graded_item [task1_record "g" "s" "A" "A"]
                    [mk_graded (py "g") (py "s") (key "A") (key "A")]).
  { constructor; [repeat split | constructor]. }
  split.
  - apply (proj1 (calculate_field_accuracy_malformed_record ascii_upper _ _ _ _ Hgood)).
    exists (py "g"), (py "predictions"), (key "A"), (key "A").
    repeat split. now right.
  - apply (proj2 (calculate_field_accuracy_malformed_record ascii_upper _ _ _ _ Hgood)).
    right. right. exists (py "g"), (py "s"). repeat split.
    right. exists (key "A"). split; reflexivity.
Defined.

(** ** A well-formed run returns its scores *)

Lemma nth_set_nth {A : Type} (i j : nat) (x d : A) (l : list A) :
  nth j (set_nth i x l) d = x \/ nth j (set_nth i x l) d = nth j l d.
Proof.
  revert i j. induction l as [|y l IH]; intros [|i] [|j]; cbn; auto.
Qed.

Lemma nth_set_nth_same {A : Type} (i : nat) (x d : A) (l : list A) :
  (i < length l)%nat -> nth i (set_nth i x l) d = x.
Proof.
  revert i. induction l as [|y l IH]; intros [|i] H; cbn in *; try lia; auto.
  apply IH. lia.
Qed.

Section LoopRecords.

Variable Model : Type.
Variable chat : Model -> text -> option text -> res text * Model.
Variable prompt_of : dict -> res (text * option text).

(** What holds of every sample, and what it gives for a record. *)
Variable Qd Qr : dict -> Prop.
Hypothesis Qd_stable : forall d r p,
  Qd d -> Qd (dict_set (dict_set d (key "response") r) (key "prediction") p).
Hypothesis Qd_Qr : forall d, Qd d -> Qr d.

Let scored (d : dict) : Prop := Qr d /\ predicted d.
Let inv (st : loop_state Model) : Prop :=
  Forall Qd (st_data st) /\ Forall scored (evaluation_results st).

Lemma process_sample_records (i : nat) (st : loop_state Model) :
  inv st -> inv (snd (process_sample chat prompt_of i st)).
Proof.
  intros [Hd Hr]. unfold process_sample.
  destruct (nth_error (st_data st) i) as [sample|] eqn:E; [|now split].
  destruct (prompt_of sample) as [[prompt system_prompt]|]; [|now split].
  destruct (chat (st_model st) prompt system_prompt) as [[response|] model'];
    cbn [snd]; [|now split].
  destruct (extract_last_boxed_answer_total response) as [o ->]. cbn [snd].
  set (sample' := dict_set (dict_set sample (key "response") (PStr response))
                    (key "prediction") (of_label o)).
  assert (Hi : (i < length (st_data st))%nat).
  { apply nth_error_Some. congruence. }
  assert (Hq : Qd sample').
  { apply Qd_stable. rewrite Forall_forall in Hd. apply Hd.
    eapply nth_error_In; eauto. }
  assert (Hs : scored sample').
  { split; [now apply Qd_Qr|]. exists o. unfold sample', dict_get, key.
    cbn [hashable]. now rewrite dict_lookup_set_same. }
  split; cbn [st_data].
  - now apply Forall_set_nth.
  - unfold evaluation_results in *. cbn [st_data st_results].
    rewrite map_app. apply Forall_app. split.
    + rewrite Forall_map in Hr |- *. eapply Forall_impl; [|exact Hr].
      intros [record|j] H; cbn [deref] in *; [assumption|].
      destruct (nth_set_nth i j sample' [] (st_data st)) as [-> | ->]; assumption.
    + constructor; [|constructor]. cbn [deref].
      now rewrite nth_set_nth_same.
Qed.

Lemma process_indices_records (n : nat) (flat : list nat) :
  forall st, inv st -> inv (snd (process_indices chat prompt_of n flat st)).
Proof.
  induction flat as [|i flat IH]; intros st H; [exact H|].
  cbn [process_indices].
  pose proof (process_sample_records (i mod n) st H) as Hstep.
  destruct (process_sample chat prompt_of (i mod n) st) as [[e|] st']; cbn [snd] in *;
    [exact Hstep | now apply IH].
Qed.

Lemma run_loop_records (model : Model) (output evaluation_data : list dict)
    (test_time : nat) :
  Forall Qd evaluation_data ->
  Forall scored output ->
  Forall scored
    (evaluation_results
       (snd (run_loop chat prompt_of model output evaluation_data test_time))).
Proof.
  intros Hd Ho. rewrite run_loop_flat. apply process_indices_records.
  split; [exact Hd|]. unfold evaluation_results. cbn [initial_state st_data st_results].
  rewrite map_map. cbn [deref]. now rewrite map_id.
Qed.

End LoopRecords.

Lemma views_exist {A B : Type} (P : A -> B -> Prop) (l : list A) :
  Forall (fun x => exists y, P x y) l -> exists l', Forall2 P l l'.
Proof.
  induction 1 as [|x l [y Hy] _ [l' IH]]; [now exists []|].
  exists (y :: l'). now constructor.
Qed.

Lemma calculate_accuracy_labels (upper : text -> text) (labels : list (text * option text)) :
  exists q, calculate_accuracy upper (map of_label (map snd labels))
              (map PStr (map fst labels)) = Ok q.
Proof.
  unfold calculate_accuracy. rewrite !length_map, Nat.eqb_refl. cbn [negb].
  rewrite count_correct_spec. cbn [bind]. eauto.
Qed.

Lemma calculate_accuracy_gradeable (upper : text -> text) (vs : list graded) :
  Forall (fun v => exists a o, v_answer v = PStr a /\ v_prediction v = of_label o) vs ->
  exists q, calculate_accuracy upper (map v_prediction vs) (map v_answer vs) = Ok q.
Proof.
  intros H.
  assert (E : exists labels,
             map v_prediction vs = map of_label (map snd labels)
             /\ map v_answer vs = map PStr (map fst labels)).
  { induction H as [|v vs [a [o [Ha Ho]]] _ [labels [IHp IHa]]]; [now exists []|].
    exists ((a, o) :: labels). cbn [map fst snd]. now rewrite Ha, Ho, IHp, IHa. }
  destruct E as [labels [-> ->]]. apply calculate_accuracy_labels.
Qed.

Lemma field_accuracy_returns (upper : text -> text) (vs : list graded) :
  Forall (fun v => exists a o, v_answer v = PStr a /\ v_prediction v = of_label o) vs ->
  exists summary, field_accuracy upper vs = Ok summary.
Proof.
  intros H. unfold field_accuracy.
  assert (Hs : forall fs, exists scores, score_each upper vs fs = Ok scores).
  { induction fs as [|f fs [scores IH]]; [now exists []|]. cbn [score_each].
    destruct (calculate_accuracy_gradeable upper (of_field f vs)) as [q ->].
    - rewrite Forall_forall in H |- *. intros v Hv. apply H.
      unfold of_field in Hv. now apply filter_In in Hv.
    - cbn [bind]. rewrite IH. cbn [bind]. eauto. }
  destruct (Hs (fields_of vs)) as [scores ->]. cbn [bind].
  destruct (calculate_accuracy_gradeable upper vs H) as [q ->]. cbn [bind]. eauto.
Qed.

Lemma collect_records (records : list dict) :
  Forall (fun d => answered d /\ predicted d) records ->
  forall As Ps,
    exists labels,
      collect records (bucket As Ps)
      = Ok (bucket (As ++ map PStr (map fst labels))
                   (Ps ++ map of_label (map snd labels))).
Proof.
  induction 1 as [|d records [[a Ha] [o Ho]] _ IH]; intros As Ps.
  - exists []. cbn. now rewrite !app_nil_r.
  - destruct (IH (As ++ [PStr a]) (Ps ++ [of_label o])) as [labels Hl].
    exists ((a, o) :: labels). cbn [collect]. rewrite Ha, Ho.
    change (append_at [key "answers"] (bucket As Ps) (Ok (PStr a)))
      with (Ok (bucket (As ++ [PStr a]) Ps)).
    cbn [bind].
    change (append_at [key "predictions"] (bucket (As ++ [PStr a]) Ps) (Ok (of_label o)))
      with (Ok (bucket (As ++ [PStr a]) (Ps ++ [of_label o]))).
    cbn [bind]. rewrite Hl. cbn [map fst snd]. now rewrite <- !app_assoc.
Qed.

Lemma calculate_overall_accuracy_returns (upper : text -> text) (records : list dict) :
  Forall (fun d => answered d /\ predicted d) records ->
  exists q, calculate_overall_accuracy upper records = Ok [(key "overall", PNum q)].
Proof.
  intros H. unfold calculate_overall_accuracy.
  destruct (collect_records records H [] []) as [labels Hl].
  change empty_bucket with (bucket [] []). rewrite Hl. cbn [bind app].
  change (bucket_accuracy upper (bucket (map PStr (map fst labels))
                                        (map of_label (map snd labels))))
    with (calculate_accuracy upper (map of_label (map snd labels))
            (map PStr (map fst labels))).
  destruct (calculate_accuracy_labels upper labels) as [q ->]. cbn [bind]. eauto.
Qed.

Lemma graded_records (records : list dict) :
  Forall (fun d => (fielded d /\ answered d) /\ predicted d) records ->
  exists vs, Forall2 graded_item records vs
             /\ Forall (fun v => exists a o, v_answer v = PStr a
                                             /\ v_prediction v = of_label o) vs.
Proof.
  induction 1 as [|d records [[[f [s [Hf [Hs Hres]]]] [a Ha]] [o Ho]] _ [vs [IH1 IH2]]].
  - exists []. split; constructor.
  - exists (mk_graded f s (PStr a) (of_label o) :: vs). split; constructor; auto.
    + repeat split; assumption.
    + cbn. eauto.
Qed.

Lemma dict_has_assigned (d : dict) (r p : pyval) (b : text) :
  text_eqb b (py "response") = false ->
  text_eqb b (py "prediction") = false ->
  dict_has (dict_set (dict_set d (key "response") r) (key "prediction") p) (PStr b)
  = dict_has d (PStr b).
Proof.
  intros Hr Hp. unfold dict_has, key. now rewrite !dict_lookup_set_other.
Qed.

Lemma task1_ready_stable (d : dict) (r p : pyval) :
  task1_ready d ->
  task1_ready (dict_set (dict_set d (key "response") r) (key "prediction") p).
Proof.
  intros [Hq [[f [s [Hf [Hs Hres]]]] [a Ha]]]. unfold task1_ready, fielded, answered, key in *.
  rewrite dict_has_assigned, !dict_get_assigned by reflexivity. eauto 10.
Qed.

Lemma task2_ready_stable (d : dict) (r p : pyval) :
  task2_ready d ->
  task2_ready (dict_set (dict_set d (key "response") r) (key "prediction") p).
Proof.
  intros [Hq [Hm [a Ha]]]. unfold task2_ready, answered, key in *.
  rewrite !dict_has_assigned, !dict_get_assigned by reflexivity. eauto.
Qed.

Lemma task2_views_ready (views : list (pyval * list (pyval * pyval))) :
  Forall (fun view => Forall (fun qa => exists a, snd qa = PStr a) (snd view)) views ->
  Forall task2_ready
    (flat_map (fun view => map (task2_sample (fst view)) (snd view)) views).
Proof.
  induction 1 as [|view views Hv _ IH]; [constructor|].
  cbn [flat_map]. apply Forall_app. split; [|exact IH].
  rewrite Forall_map. eapply Forall_impl; [|exact Hv]. cbv beta.
  intros [q ans] [a Ha]. cbn [snd] in Ha. subst ans.
  repeat split. now exists a.
Qed.

Section ReturnsScores.

Variable upper : text -> text.
Variable Model : Type.
Variable chat : Model -> text -> option text -> res text * Model.
Hypothesis chat_answers : forall m p s, exists r, fst (chat m p s) = Ok r.

Lemma task1_returns (build_task1_prompt : pyval -> pyval -> text) (model : Model)
    (output evaluation_data : list dict) (test_time : nat) :
  Forall task1_ready evaluation_data ->
  Forall (fun d => (fielded d /\ answered d) /\ predicted d) output ->
  exists summary,
    fst (run_evaluation_task1 upper build_task1_prompt chat model output
           evaluation_data test_time) = Ok summary.
Proof.
  intros Hd Ho. unfold run_evaluation_task1.
  assert (Hdone : fst (run_loop chat (task1_prompt build_task1_prompt) model output
                         evaluation_data test_time) = None).
  { refine (proj1 (run_loop_completes Model chat _ chat_answers
                     (task1_prompt_stable build_task1_prompt) model output
                     evaluation_data test_time _)).
    eapply Forall_impl; [|exact Hd]. cbv beta.
    intros d [Hq [[f [s [Hf _]]] _]]. unfold task1_prompt.
    unfold dict_has, key in *. unfold dict_get at 1. cbn [hashable].
    destruct (dict_lookup d (PStr (py "question"))); [|discriminate].
    rewrite Hf. cbn [bind]. eauto. }
  pose proof (run_loop_records Model chat (task1_prompt build_task1_prompt)
                task1_ready (fun d => fielded d /\ answered d) task1_ready_stable
                (fun d H => conj (proj1 (proj2 H)) (proj2 (proj2 H)))
                model output evaluation_data test_time Hd Ho) as Hrec.
  destruct (run_loop chat (task1_prompt build_task1_prompt) model output
              evaluation_data test_time) as [e st].
  cbn [fst snd] in *. subst e.
  destruct (graded_records _ Hrec) as [vs [Hvs Hgr]].
  rewrite (calculate_field_accuracy_groups upper _ vs Hvs).
  apply field_accuracy_returns, Hgr.
Qed.

Lemma task2_returns (build_task2_prompt : pyval -> pyval -> text) (model : Model)
    (output raw_data : list dict) (views : list (pyval * list (pyval * pyval)))
    (test_time : nat) :
  Forall2 task2_item raw_data views ->
  Forall (fun view => Forall (fun qa => exists a, snd qa = PStr a) (snd view)) views ->
  Forall (fun d => answered d /\ predicted d) output ->
  exists q,
    fst (run_evaluation_task2 upper build_task2_prompt chat model output raw_data
           test_time) = Ok [(key "overall", PNum q)].
Proof.
  intros Hraw Hans Ho. unfold run_evaluation_task2.
  rewrite (preprocess_task2_flattens_views raw_data views Hraw).
  pose proof (task2_views_ready views Hans) as Hd.
  set (data := flat_map _ views) in *.
  assert (Hdone : fst (run_loop chat (task2_prompt build_task2_prompt) model output
                         data test_time) = None).
  { refine (proj1 (run_loop_completes Model chat _ chat_answers
                     (task2_prompt_stable build_task2_prompt) model output
                     data test_time _)).
    eapply Forall_impl; [|exact Hd]. cbv beta.
    intros d [Hq [Hm _]]. unfold task2_prompt. unfold dict_has, key in *.
    unfold dict_get. cbn [hashable].
    destruct (dict_lookup d (PStr (py "question"))); [|discriminate].
    destruct (dict_lookup d (PStr (py "material"))); [|discriminate].
    cbn [bind]. eauto. }
  pose proof (run_loop_records Model chat (task2_prompt build_task2_prompt)
                task2_ready answered task2_ready_stable
                (fun d H => proj2 (proj2 H))
                model output data test_time Hd Ho) as Hrec.
  destruct (run_loop chat (task2_prompt build_task2_prompt) model output data test_time)
    as [e st].
  cbn [fst snd] in *. subst e.
  apply calculate_overall_accuracy_returns, Hrec.
Qed.

End ReturnsScores.

(** X22.  A well-formed run returns its scores.  When the backend never
    raises, [run_evaluation_task1] returns a summary on samples that have a
    question, a string field, a string sub-field of no reserved name and a
    string answer, and [run_evaluation_task2] returns the dictionary with
    the one key "overall" on a dataset whose items list questions with
    string answers, whatever the number of iterations and whatever records
    of the same kind, with a label or [None] as prediction, the output file
    holds on entry. *)
Theorem well_formed_runs_return_scores (upper : text -> text) (Model : Type)
    (chat : Model -> text -> option text -> res text * Model) :
  (forall m p s, exists r, fst (chat m p s) = Ok r) ->
  (forall build_task1_prompt model output evaluation_data test_time,
      Forall task1_ready evaluation_data ->
      Forall (fun d => (fielded d /\ answered d) /\ predicted d) output ->
      exists summary,
        fst (run_evaluation_task1 upper build_task1_prompt chat model output
               evaluation_data test_time) = Ok summary)
  /\ (forall build_task2_prompt model output raw_data views test_time,
        Forall2 task2_item raw_data views ->
        Forall (fun view => Forall (fun qa => exists a, snd qa = PStr a) (snd view))
          views ->
        Forall (fun d => answered d /\ predicted d) output ->
        exists q,
          fst (run_evaluation_task2 upper build_task2_prompt chat model output
                 raw_data test_time) = Ok [(key "overall", PNum q)]).
Proof.
  intros Hchat. split.
  - intros. now apply task1_returns.
  - intros. now apply (task2_returns upper Model chat Hchat) with (views := views).
Qed.

Lemma well_formed_runs_return_scores_witness :
  exists summary,
    fst (run_evaluation_task1 ascii_upper plain_task1_prompt
           (constant_chat (py "\boxed{A}")) tt
           [dict_set (task1_sample "q0" "B") (key "prediction") PNone]
           [task1_sample "q1" "A"; task1_sample "q2" "B"] 2) = Ok summary.
Proof.
  apply (proj1 (well_formed_runs_return_scores ascii_upper unit
                  (constant_chat (py "\boxed{A}"))
                  (fun _ _ _ => ex_intro _ (py "\boxed{A}") eq_refl))).
  - constructor; [|constructor; [|constructor]];
      (split; [reflexivity|]; split;
       [exists (py "grammar"), (py "verbs"); repeat split | eexists; reflexivity]).
  - constructor; [|constructor]. split; [split|].
    + exists (py "grammar"), (py "verbs"). repeat split.
    + eexists. reflexivity.
    + exists None. reflexivity.
Defined.

(** ** The fences around a matched object *)

Lemma index_last_In {A : Type} (l : list A) (y : A) : index_last l = Ok y -> In y l.
Proof.
  unfold index_last. intros H. apply in_rev.
  destruct (rev l) as [|x r]; [discriminate|]. injection H as ->. now left.
Qed.

Lemma scan_In (r : regex) :
  forall n s c, In c (scan n r s) -> exists s0 s', match_here r s0 = Some (s', c).
Proof.
  induction n as [|n IH]; intros s c H; [contradiction|]. cbn [scan] in H.
  assert (Hnext : In c (match s with [] => [] | _ :: t => scan n r t end) ->
                  exists s0 s', match_here r s0 = Some (s', c)).
  { destruct s; [contradiction | apply IH]. }
  destruct (match_here r s) as [[s' c0]|] eqn:E; [|now apply Hnext].
  destruct H as [<- | H]; [eauto|].
  destruct (length s' <? length s)%nat; [eapply IH; eauto | now apply Hnext].
Qed.

Lemma chr_match {A : Type} (x : char) (s : text) (c : caps)
    (k : text -> caps -> option A) (v : A) :
  rmatch (chr x) s c k = Some v -> exists s', s = x :: s' /\ k s' c = Some v.
Proof.
  unfold chr. cbn [rmatch]. destruct s as [|y s]; [discriminate|].
  destruct (x =? y) eqn:E; [|discriminate]. apply N.eqb_eq in E. subst. eauto.
Qed.

(** A pattern without groups hands the captures on as they are. *)
Lemma groupless_match (r : regex) :
  groupless r = true ->
  forall (A : Type) (s : text) (c : caps) (k : text -> caps -> option A) (v : A),
    rmatch r s c k = Some v ->
    exists pre s', s = pre ++ s' /\ k s' c = Some v.
Proof.
  induction r as [|p|a IHa b IHb|a IHa b IHb|a IHa|g p|a IHa|i a IHa|a IHa|];
    intros Hg A s c k v H; cbn [groupless] in Hg; cbn [rmatch] in H;
    try (apply andb_true_iff in Hg as [Hga Hgb]).
  - now exists [], s.
  - destruct s as [|x s]; [discriminate|]. destruct (p x); [|discriminate].
    now exists [x], s.
  - apply (IHa Hga) in H as [pre [s1 [-> H]]].
    apply (IHb Hgb) in H as [pre' [s2 [-> H]]].
    exists (pre ++ pre'), s2. now rewrite app_assoc.
  - apply orelse_some in H as [H|H];
      [now apply (IHa Hga) in H | now apply (IHb Hgb) in H].
  - apply orelse_some in H as [H|H]; [now apply (IHa Hg) in H|].
    now exists [], s.
  - destruct g.
    + apply rep_greedy_suffix in H as [pre [s' [-> H]]]. now exists pre, s'.
    + apply rep_lazy_suffix in H as [pre [s' [-> H]]]. now exists pre, s'.
  - revert H. generalize (length s) at 1. intros n. revert s.
    induction n as [|n IHn]; intros s H.
    + now exists [], s.
    + apply orelse_some in H as [H|H]; [|now exists [], s].
      apply (IHa Hg) in H as [pre [s1 [-> H]]].
      destruct (length s1 <? length (pre ++ s1))%nat; [|discriminate].
      apply IHn in H as [pre' [s2 [-> H]]].
      exists (pre ++ pre'), s2. now rewrite app_assoc.
  - discriminate.
  - destruct (rmatch a s c (fun _ _ => Some tt)); [|discriminate].
    now exists [], s.
  - destruct s as [|x s]; [now exists [], []|].
    destruct ((x =? 10) && negb (nonempty s)); [|discriminate].
    now exists [], (x :: s).
Qed.

Lemma closes_match (r : regex) :
  closes r ->
  forall (A : Type) (s : text) (c : caps) (k : text -> caps -> option A) (v : A),
    rmatch r s c k = Some v ->
    exists pre s', s = pre ++ 125 :: s' /\ k s' c = Some v.
Proof.
  induction 1 as [|a b Ha _ IH]; intros A s c k v H.
  - apply chr_match in H as [s' [-> H]]. now exists [], s'.
  - cbn [rmatch] in H. apply (groupless_match a Ha) in H as [pre [s1 [-> H]]].
    apply IH in H as [pre' [s2 [-> H]]].
    exists (pre ++ pre'), s2. now rewrite app_assoc.
Qed.

(** A group made of an opening brace and a pattern that closes captures a
    text between braces. *)
Lemma braced_group {A : Type} (i : nat) (b : regex) (s : text)
    (k : text -> caps -> option A) (v : A) :
  closes b ->
  rmatch (Grp i (Cat (chr 123) b)) s [] k = Some v ->
  exists body s', k s' [(i, 123 :: body ++ [125])] = Some v.
Proof.
  intros Hb H. cbn [rmatch] in H.
  apply chr_match in H as [s1 [-> H]].
  apply (closes_match b Hb) in H as [pre [s2 [-> H]]].
  exists pre, s2.
  assert (E : firstn (length (123 :: pre ++ 125 :: s2) - length s2)
                (123 :: pre ++ 125 :: s2) = 123 :: pre ++ [125]).
  { change (123 :: pre ++ 125 :: s2) with ((123 :: pre) ++ [125] ++ s2).
    rewrite app_assoc. apply capture_prefix. }
  exact (eq_ind _ (fun x => k s2 [(i, x)] = Some v) H _ E).
Qed.

Lemma multiline_match_braced (s s' : text) (c : caps) :
  match_here pattern_multiline s = Some (s', c) ->
  exists body, group 0 c = 123 :: body ++ [125].
Proof.
  unfold match_here, pattern_multiline. intros H.
  apply braced_group in H as [body [s2 H]].
  - injection H as _ <-. now exists body.
  - repeat (apply closes_cat; [reflexivity|]). apply closes_brace.
Qed.

Lemma inline_match_braced (s s' : text) (c : caps) :
  match_here pattern_inline s = Some (s', c) ->
  exists body, group 0 c = 123 :: body ++ [125].
Proof.
  unfold match_here, pattern_inline. intros H. cbn [rmatch] in H.
  change (rmatch (Grp 0 (Cat (chr 123)
                    (Cat (lit knowledge_key) (Cat (Rep false dot) (chr 125)))))
            s []
            (fun s1 c1 =>
               match rmatch (Cat (StarG (Cat (Rep true not_quote) (Cat (chr 34)
                                   (Cat (Rep true not_quote) (chr 34)))))
                                 (Cat (Rep true not_quote) Eos)) s1 c1
                       (fun _ _ => Some tt) with
               | Some _ => Some (s1, c1)
               | None => None
               end) = Some (s', c)) in H.
  apply braced_group in H as [body [s2 H]].
  - destruct (rmatch _ s2 _ _); [|discriminate]. injection H as _ <-. now exists body.
  - repeat (apply closes_cat; [reflexivity|]). apply closes_brace.
Qed.

Lemma endswith_fence (m : text) : endswith fence ([10] ++ m ++ [10] ++ fence) = true.
Proof. unfold endswith. rewrite !rev_app_distr. reflexivity. Qed.

Lemma rstrip_fence (m : text) :
  rstrip_chars fence ([10] ++ m ++ [10] ++ fence) = [10] ++ m ++ [10].
Proof.
  unfold rstrip_chars. rewrite !rev_app_distr.
  transitivity (rev (10 :: rev m ++ [10])); [reflexivity|].
  cbn [rev]. now rewrite rev_app_distr, rev_involutive.
Qed.

Lemma clean_fences_wrapped (m : text) :
  clean_fences (fence_json ++ [10] ++ m ++ [10] ++ fence) = [10] ++ m ++ [10].
Proof.
  unfold clean_fences.
  assert (E1 : (if startswith fence_json (fence_json ++ [10] ++ m ++ [10] ++ fence)
                then lstrip_chars fence_json (fence_json ++ [10] ++ m ++ [10] ++ fence)
                else fence_json ++ [10] ++ m ++ [10] ++ fence)
               = [10] ++ m ++ [10] ++ fence).
  { rewrite startswith_app. reflexivity. }
  rewrite E1, endswith_fence. apply rstrip_fence.
Qed.

Lemma clean_fences_braced (body : text) :
  clean_fences (123 :: body ++ [125]) = 123 :: body ++ [125].
Proof.
  unfold clean_fences.
  change (startswith fence_json (123 :: body ++ [125])) with false. cbv iota.
  unfold endswith. cbn [rev]. rewrite rev_app_distr. reflexivity.
Qed.

Lemma last_match_clean (r : regex) (t : text) (m : text) :
  (forall s s' c, match_here r s = Some (s', c) ->
                  exists body, group 0 c = 123 :: body ++ [125]) ->
  index_last (map (group 0) (findall r t)) = Ok m ->
  clean_fences m = m.
Proof.
  intros Hr H. apply index_last_In, in_map_iff in H as [c [<- Hc]].
  apply scan_In in Hc as [s0 [s' Hm]].
  destruct (Hr _ _ _ Hm) as [body ->]. apply clean_fences_braced.
Qed.

Lemma extract_last_knowledge_object_contents (json_loads : text -> res pyval) (t : text) :
  extract_last_knowledge_object json_loads t
  = match map (group 1) (findall pattern_codeblock t) with
    | (_ :: _) as matches =>
        m <- index_last matches ;; knowledge_of json_loads ([10] ++ m ++ [10])
    | [] =>
        match map (group 0) (findall pattern_multiline t) with
        | (_ :: _) as matches => m <- index_last matches ;; knowledge_of json_loads m
        | [] =>
            match map (group 0) (findall pattern_inline t) with
            | (_ :: _) as matches => m <- index_last matches ;; knowledge_of json_loads m
            | [] => Ok (PStr [])
            end
        end
    end.
Proof.
  unfold extract_last_knowledge_object.
  destruct (map (group 1) (findall pattern_codeblock t)) as [|x l].
  - destruct (map (group 0) (findall pattern_multiline t)) as [|x l] eqn:E2.
    + destruct (map (group 0) (findall pattern_inline t)) as [|x l] eqn:E3;
        [reflexivity|].
      destruct (index_last (x :: l)) as [m|] eqn:Hm; cbn [bind]; [|reflexivity].
      rewrite <- E3 in Hm. unfold extract_knowledge_from_text. cbv zeta.
      now rewrite (last_match_clean pattern_inline t m inline_match_braced Hm).
    + destruct (index_last (x :: l)) as [m|] eqn:Hm; cbn [bind]; [|reflexivity].
      rewrite <- E2 in Hm. unfold extract_knowledge_from_text. cbv zeta.
      now rewrite (last_match_clean pattern_multiline t m multiline_match_braced Hm).
  - destruct (index_last (x :: l)) as [m|]; cbn [bind]; [|reflexivity].
    unfold extract_knowledge_from_text. cbv zeta.
    now rewrite clean_fences_wrapped.
Qed.

(** X23.  In every call [extract_last_knowledge_object] makes, the cleaning
    of the fences in [extract_knowledge_from_text] removes the fences the
    caller added and nothing of the matched object: the content that is
    decoded, or searched by the fallback, is the last code-block match
    between two newlines, or else the last multi-line match as it is, or else
    the last inline match as it is; without any match the result is the
    empty string. *)
Theorem matched_object_is_decoded_as_it_is (json_loads : text -> res pyval)
    (t : text) :
  extract_last_knowledge_object json_loads t
  = match map (group 1) (findall pattern_codeblock t) with
    | (_ :: _) as matches =>
        m <- index_last matches ;; knowledge_of json_loads ([10] ++ m ++ [10])
    | [] =>
        match map (group 0) (findall pattern_multiline t) with
        | (_ :: _) as matches => m <- index_last matches ;; knowledge_of json_loads m
        | [] =>
            match map (group 0) (findall pattern_inline t) with
            | (_ :: _) as matches => m <- index_last matches ;; knowledge_of json_loads m
            | [] => Ok (PStr [])
            end
        end
    end.
Proof. apply extract_last_knowledge_object_contents. Qed.

(** ** A well-formed run of task3 returns its summary *)

Lemma task3_ready_knowledge (d : dict) (r k : pyval) :
  task3_ready d ->
  student_ready (dict_set (dict_set d (key "response") r) (key "knowledge") k).
Proof.
  intros [Hq [Hm [a Ha]]]. unfold student_ready, answered, dict_has, dict_get, key in *.
  cbn [hashable] in *.
  rewrite dict_lookup_set_same, !dict_lookup_set_other by reflexivity.
  repeat split; eauto.
Qed.

Lemma student_ready_stable (d : dict) (r p : pyval) :
  student_ready d ->
  student_ready (dict_set (dict_set d (key "response") r) (key "prediction") p).
Proof.
  intros [Hq [Hm [Hk [a Ha]]]]. unfold student_ready, answered, key in *.
  rewrite !dict_has_assigned, !dict_get_assigned by reflexivity. eauto.
Qed.

Section KnowledgeRecords.

Variable json_loads : text -> res pyval.
Variable build_teacher_prompt : pyval -> pyval -> text * text.
Variable Teacher : Type.
Variable teacher_chat : Teacher -> text -> option text -> res text * Teacher.

Lemma knowledge_step_ready (i : nat) (sample : dict) (st : knowledge_state Teacher) :
  task3_ready sample ->
  Forall student_ready (ks_results st) ->
  Forall student_ready
    (ks_results (knowledge_step json_loads build_teacher_prompt teacher_chat i sample st)).
Proof.
  intros Hs Hr. unfold knowledge_step.
  destruct (i <? length (ks_results st))%nat; [assumption|].
  destruct (dict_get sample (key "guideline")) as [g|]; cbn [bind]; [|assumption].
  destruct (dict_get sample (key "material")) as [m|]; cbn [bind]; [|assumption].
  destruct (build_teacher_prompt g m) as [system_prompt user_prompt].
  destruct (teacher_chat (ks_model st) user_prompt (Some system_prompt)) as [[r|e] model'];
    cbn [ks_results]; [|assumption].
  destruct (extract_last_knowledge_object json_loads r) as [k|e];
    cbn [ks_results]; [|assumption].
  apply Forall_app. split; [assumption|]. constructor; [|constructor].
  now apply task3_ready_knowledge.
Qed.

Lemma knowledge_loop_ready :
  forall (samples : list (nat * dict)) (st : knowledge_state Teacher),
    Forall (fun p => task3_ready (snd p)) samples ->
    Forall student_ready (ks_results st) ->
    Forall student_ready
      (ks_results (knowledge_loop json_loads build_teacher_prompt teacher_chat samples st)).
Proof.
  induction samples as [|[i s] rest IH]; intros st Hs Hr; [exact Hr|].
  inversion Hs as [|? ? Hhead Hrest]; subst. cbn [knowledge_loop].
  apply IH; [assumption|]. now apply knowledge_step_ready.
Qed.

Lemma generate_knowledge_ready (model : Teacher) (output evaluation_data : list dict) :
  Forall task3_ready evaluation_data ->
  Forall student_ready output ->
  Forall student_ready
    (ks_results (generate_knowledge_for_task3 json_loads build_teacher_prompt
                   teacher_chat model output evaluation_data)).
Proof.
  intros Hd Ho. unfold generate_knowledge_for_task3.
  destruct (length evaluation_data <=? length output)%nat; [exact Ho|].
  apply knowledge_loop_ready; [|exact Ho]. unfold enumerate.
  generalize 0%nat. induction Hd as [|d data Hd _ IH]; intros a; [constructor|].
  cbn [length seq combine]. constructor; [exact Hd | apply IH].
Qed.

End KnowledgeRecords.

Lemma dict_set_numeric (d : dict) (k : pyval) (q : Q) :
  Forall numeric d -> Forall numeric (dict_set d k (PNum q)) /\ dict_set d k (PNum q) <> [].
Proof.
  induction 1 as [|[k' v'] d Hkv Hd [IH _]]; cbn [dict_set].
  - split; [|discriminate]. constructor; [now exists q | constructor].
  - destruct (key_eqb k k'); split; try discriminate; constructor; auto.
    now exists q.
Qed.

Lemma py_sum_numeric :
  forall (values : list pyval) (acc : Q),
    Forall (fun v => exists q, v = PNum q) values ->
    exists total, py_sum values acc = Ok total.
Proof.
  induction values as [|v values IH]; intros acc H; [now exists acc|].
  inversion H as [|? ? [q ->] Hrest]; subst. cbn [py_sum]. now apply IH.
Qed.

Section Task3Returns.

Variable upper : text -> text.
Variable json_loads : text -> res pyval.
Variable json_dumps : pyval -> text.
Variable build_teacher_prompt : pyval -> pyval -> text * text.
Variable build_guided_student_prompt : pyval -> pyval -> text -> text * text.
Variable Teacher : Type.
Variable teacher_chat : Teacher -> text -> option text -> res text * Teacher.
Variable Student : Type.
Variable student_load : text -> res Student.
Variable student_chat : Student -> text -> option text -> res text * Student.

Hypothesis student_answers : forall m p s, exists r, fst (student_chat m p s) = Ok r.
Hypothesis student_loads : forall name, exists student, student_load name = Ok student.

Lemma student_returns (name : text) (model : Student)
    (evaluation_data output : list dict) (test_time : nat) :
  Forall student_ready evaluation_data ->
  Forall (fun d => answered d /\ predicted d) output ->
  exists q,
    fst (run_evaluation_student upper json_dumps build_guided_student_prompt
           student_chat name model evaluation_data output test_time)
    = Ok [(key "overall", PNum q); (key "model_name", PStr name)].
Proof.
  intros Hd Ho. unfold run_evaluation_student.
  set (prompt := student_prompt json_dumps build_guided_student_prompt).
  assert (Hdone : fst (run_loop student_chat prompt model output evaluation_data
                         test_time) = None).
  { refine (proj1 (run_loop_completes Student student_chat _ student_answers
                     (student_prompt_stable json_dumps build_guided_student_prompt)
                     model output evaluation_data test_time _)).
    eapply Forall_impl; [|exact Hd]. cbv beta.
    intros d [Hq [Hm [Hk _]]]. unfold prompt, student_prompt.
    unfold dict_has, key in *. unfold dict_get. cbn [hashable].
    destruct (dict_lookup d (PStr (py "question"))) as [q|]; [|discriminate].
    destruct (dict_lookup d (PStr (py "material"))) as [m|]; [|discriminate].
    destruct (dict_lookup d (PStr (py "knowledge"))) as [k|]; [|discriminate].
    cbn [bind]. destruct (build_guided_student_prompt q m _). eauto. }
  pose proof (run_loop_records Student student_chat prompt student_ready answered
                student_ready_stable (fun d H => proj2 (proj2 (proj2 H)))
                model output evaluation_data test_time Hd Ho) as Hrec.
  destruct (run_loop student_chat prompt model output evaluation_data test_time)
    as [e st].
  cbn [fst snd] in *. subst e.
  destruct (calculate_overall_accuracy_returns upper _ Hrec) as [q ->].
  exists q. reflexivity.
Qed.

Lemma student_loop_returns (evaluation_data : list dict) (test_time : nat) :
  Forall student_ready evaluation_data ->
  forall names acc fs,
    NoDup names ->
    (forall name, In name names -> Forall (fun d => answered d /\ predicted d) (fs name)) ->
    Forall numeric acc ->
    exists d fs',
      student_loop upper json_dumps build_guided_student_prompt student_load
        student_chat names evaluation_data test_time acc fs = (Ok d, fs')
      /\ Forall numeric d
      /\ (names <> [] -> d <> []).
Proof.
  intros Hd. induction names as [|name rest IH]; intros acc fs Hnd Hfs Hacc.
  - exists acc, fs. cbn [student_loop]. repeat split; [assumption | contradiction].
  - inversion Hnd as [|? ? Hnotin Hnd']; subst. cbn [student_loop].
    destruct (student_loads name) as [student ->].
    destruct (student_returns name student evaluation_data (fs name) test_time Hd
                (Hfs name (or_introl eq_refl))) as [q Hq].
    destruct (run_evaluation_student upper json_dumps build_guided_student_prompt
                student_chat name student evaluation_data (fs name) test_time)
      as [r st].
    cbn [fst] in Hq. subst r. cbn [bind].
    change (dict_get [(key "overall", PNum q); (key "model_name", PStr name)]
              (key "overall")) with (Ok (PNum q)).
    cbv iota.
    destruct (dict_set_numeric acc (PStr name) q Hacc) as [Hnum Hne].
    destruct (IH (dict_set acc (PStr name) (PNum q))
                 (write_file fs name (st_file st)) Hnd') as [d [fs' [Hrun [Hd' Hne']]]].
    + intros n Hn. unfold write_file.
      destruct (text_eqb n name) eqn:E; [|apply Hfs; now right].
      apply text_eqb_eq in E. subst n. contradiction.
    + exact Hnum.
    + exists d, fs'. split; [exact Hrun|]. split; [exact Hd'|]. intros _.
      destruct rest as [|n rest]; [|apply Hne'; discriminate].
      cbn [student_loop] in Hrun. injection Hrun as <- _. exact Hne.
Qed.

Lemma task3_returns (model : Teacher) (knowledge_output evaluation_data : list dict)
    (fs : files) (test_time : nat) :
  Forall task3_ready evaluation_data ->
  Forall student_ready knowledge_output ->
  (forall name, Forall (fun d => answered d /\ predicted d) (fs name)) ->
  exists summary,
    fst (run_evaluation_task3 upper json_loads json_dumps build_teacher_prompt
           build_guided_student_prompt teacher_chat student_load student_chat
           model knowledge_output evaluation_data fs test_time) = Ok summary.
Proof.
  intros Hd Ho Hfs. unfold run_evaluation_task3.
  pose proof (generate_knowledge_ready json_loads build_teacher_prompt Teacher
                teacher_chat model knowledge_output evaluation_data Hd Ho) as Hk.
  set (ks := generate_knowledge_for_task3 _ _ _ _ _ _) in *.
  destruct (student_loop_returns (ks_results ks) test_time Hk roster [] fs
              roster_NoDup (fun name _ => Hfs name) (Forall_nil _))
    as [d [fs' [Hrun [Hnum Hne]]]].
  rewrite Hrun. cbn [fst bind].
  assert (Hvalues : Forall (fun v => exists q, v = PNum q) (map snd d)).
  { rewrite Forall_map. exact Hnum. }
  unfold mean_of. destruct (py_sum_numeric (map snd d) 0%Q Hvalues) as [total ->].
  cbn [bind]. destruct d as [|entry d]; [exfalso; apply Hne; [discriminate | reflexivity]|].
  cbn [map bind]. eexists. reflexivity.
Qed.

End Task3Returns.

(** X24.  A well-formed run of task3 returns its summary, whatever the
    teacher does: when every student loads and never raises, the samples
    have a question, a material and a string answer, the records of the
    knowledge file on entry have these and a knowledge, and the records
    of the student files on entry have a string answer and a label or [None]
    as prediction, [run_evaluation_task3] returns normally. *)
Theorem well_formed_task3_returns_summary (upper : text -> text)
    (json_loads : text -> res pyval) (json_dumps : pyval -> text)
    (build_teacher_prompt : pyval -> pyval -> text * text)
    (build_guided_student_prompt : pyval -> pyval -> text -> text * text)
    (Teacher : Type) (teacher_chat : Teacher -> text -> option text -> res text * Teacher)
    (Student : Type) (student_load : text -> res Student)
    (student_chat : Student -> text -> option text -> res text * Student)
    (model : Teacher) (knowledge_output evaluation_data : list dict)
    (fs : files) (test_time : nat) :
  (forall m p s, exists r, fst (student_chat m p s) = Ok r) ->
  (forall name, exists student, student_load name = Ok student) ->
  Forall task3_ready evaluation_data ->
  Forall student_ready knowledge_output ->
  (forall name, Forall (fun d => answered d /\ predicted d) (fs name)) ->
  exists summary,
    fst (run_evaluation_task3 upper json_loads json_dumps build_teacher_prompt
           build_guided_student_prompt teacher_chat student_load student_chat
           model knowledge_output evaluation_data fs test_time) = Ok summary.
Proof. intros. now apply task3_returns. Qed.

Lemma well_formed_task3_returns_summary_witness :
  exists summary,
    fst (run_evaluation_task3 ascii_upper no_json plain_dumps plain_teacher_prompt
           plain_student_prompt flaky_chat (fun _ => Ok tt)
           (constant_chat (py "\boxed{A}")) O []
           [task3_sample "m0" "A"; task3_sample "m1" "B"; task3_sample "m2" "A"]
           (fun _ => []) 2) = Ok summary.
Proof.
  apply (well_formed_task3_returns_summary ascii_upper no_json plain_dumps
           plain_teacher_prompt plain_student_prompt nat flaky_chat unit
           (fun _ => Ok tt) (constant_chat (py "\boxed{A}")) O []
           [task3_sample "m0" "A"; task3_sample "m1" "B"; task3_sample "m2" "A"]
           (fun _ => []) 2%nat).
  - intros m p s. now exists (py "\boxed{A}").
  - intros name. now exists tt.
  - repeat (constructor; [split; [reflexivity|]; split; [reflexivity|];
                          eexists; reflexivity|]).
    constructor.
  - constructor.
  - intros name. constructor.
Defined.

(** ** The fences are stripped as character sets *)

Lemma rstrip_chars_spec (cs s : text) :
  exists b, s = rstrip_chars cs s ++ b
            /\ Forall (fun c => mem_char c cs = true) b
            /\ (forall c r, s = c :: r -> mem_char c cs = false ->
                exists r', rstrip_chars cs s = c :: r').
Proof.
  unfold rstrip_chars.
  destruct (lstrip_chars_spec cs (rev s)) as [a [Hs [Ha _]]].
  set (k := lstrip_chars cs (rev s)) in *.
  assert (E : s = rev k ++ rev a).
  { rewrite <- rev_app_distr, <- Hs. now rewrite rev_involutive. }
  exists (rev a). split; [exact E|]. split; [now apply Forall_rev|].
  intros c r Hc Hmem. destruct (rev k) as [|x r'] eqn:Hk.
  - cbn [app] in E. rewrite E in Hc.
    assert (Hin : In c (rev a)) by (rewrite Hc; now left).
    apply in_rev in Hin. rewrite Forall_forall in Ha. apply Ha in Hin. congruence.
  - rewrite E in Hc. injection Hc as -> _. now exists r'.
Qed.

Lemma clean_fences_sets (t : text) :
  (exists a b,
      t = a ++ clean_fences t ++ b
      /\ Forall (fun c => mem_char c fence_json = true) a
      /\ Forall (fun c => mem_char c fence = true) b)
  /\ (startswith fence_json t = true ->
      forall c r, clean_fences t = c :: r -> mem_char c fence_json = false).
Proof.
  unfold clean_fences.
  destruct (lstrip_chars_spec fence_json t) as [a [Ht [Ha Hfirst]]].
  set (m := lstrip_chars fence_json t) in *.
  destruct (rstrip_chars_spec fence m) as [b [Hm [Hb Hkeep]]].
  destruct (startswith fence_json t) eqn:E1.
  - destruct (endswith fence m) eqn:E2.
    + split.
      * exists a, b. rewrite <- Hm. split; [exact Ht | split; assumption].
      * intros _ c r Hc. destruct m as [|c' r'] eqn:Em.
        -- discriminate.
        -- pose proof (Hfirst c' r' eq_refl) as Hc'.
           assert (Hf : mem_char c' fence = false).
           { unfold mem_char, fence_json, fence in *. cbn [py map existsb] in *.
             repeat (apply orb_false_iff in Hc' as [? Hc']).
             cbn [list_ascii_of_string map existsb N_of_ascii] in *.
             now repeat (apply orb_false_iff; split). }
           destruct (Hkeep c' r' eq_refl Hf) as [r'' Hr]. rewrite Hr in Hc.
           now injection Hc as <- _.
    + split.
      * exists a, []. rewrite app_nil_r.
        split; [exact Ht | split; [exact Ha | constructor]].
      * intros _ c r Hc. now apply (Hfirst c r).
  - destruct (endswith fence t) eqn:E2.
    + split; [|discriminate].
      destruct (rstrip_chars_spec fence t) as [b' [Ht' [Hb' _]]].
      exists [], b'. cbn [app]. split; [exact Ht' | split; [constructor | exact Hb']].
    + split; [|discriminate]. exists [], []. rewrite app_nil_r.
      split; [reflexivity | split; constructor].
Qed.

(** X25.  The cleaning in [extract_knowledge_from_text] strips character
    sets, not the fences: what it removes in front are characters among
    the backquote and the letters j, s, o, n, what it removes at the end are
    backquotes, and after a leading fence the cleaned text does not start
    with any of these five characters, so a text that goes on with one of
    them after the fence loses it ("```jsonnull```" is cleaned to "ull"). *)
Theorem clean_fences_strips_character_sets (t : text) :
  (exists a b,
      t = a ++ clean_fences t ++ b
      /\ Forall (fun c => mem_char c fence_json = true) a
      /\ Forall (fun c => mem_char c fence = true) b)
  /\ (startswith fence_json t = true ->
      forall c r, clean_fences t = c :: r -> mem_char c fence_json = false)
  /\ clean_fences (py "```jsonnull```") = py "ull".
Proof.
  destruct (clean_fences_sets t) as [H1 H2]. split; [exact H1|].
  split; [exact H2 | reflexivity].
Qed.
